(** * Truechain: fruit pool, snail sealer and committee election

    A shallow embedding of
      - [consensus/minerva]      [mineSnail], [Seal], [ConSeal]  (the snail PoW sealer),
      - [core/snail_pool.go]     [SnailPool]                 (the fruit pool),
      - [consensus/election]     [Election]                  (the committee election engine),
      - [params/config.go]       the fork predicates,
    together with the properties the specification states about them and
    further properties of the code.

    Conventions.  A [*big.Int] is a [Z]; a [uint64] is a [Z] with its
    wrap-around written out ([Uint64], [wrap64]); a [common.Hash] is the
    256-bit big-endian integer of its 32 bytes; a [common.Address] is the
    160-bit integer of its 20 bytes; byte slices are [list byte].  A Go
    slice that the code tests against [nil] is an [option (list _)].  Code
    that can panic returns a [res].  Pointers the code never tests against
    nil ([*big.Int] fields of headers, the blocks in a fruit list) are taken
    to be non-nil.  Logging, metrics and the asynchronous [fruitFeed] sends
    of the pool are left out; the events the election engine sends on
    [electionFeed] are kept, in order. *)

From Stdlib Require Import ZArith List Lia Bool Sorted.
From Stdlib.Strings Require Import Byte.
From stdpp Require Import gmap list.

Local Open Scope Z_scope.

(** ** Go runtime: panics, big integers, byte slices *)

Module Go.

Inductive res (A : Type) : Type :=
| Ok (a : A)
| Panic.
Arguments Ok {A} a.
Arguments Panic {A}.

Definition bind {A B : Type} (m : res A) (k : A -> res B) : res B :=
  match m with
  | Ok a => k a
  | Panic => Panic
  end.

Notation "'do' x <- m ; k" := (bind m (fun x => k))
  (at level 10, x pattern, m at level 100, k at level 200).

(** [big.Int.Div]: Euclidean division, a run-time panic on a zero divisor. *)
Definition bigDiv (x y : Z) : res Z :=
  if y =? 0 then Panic else Ok (Z.sgn y * (x / Z.abs y)).

(** [big.Int.Uint64]: the low 64 bits of the absolute value. *)
Definition Uint64 (x : Z) : Z := Z.abs x mod 2 ^ 64.

(** [uint64] arithmetic wraps around. *)
Definition wrap64 (x : Z) : Z := x mod 2 ^ 64.

Definition byte_to_Z (b : byte) : Z := Z.of_N (Byte.to_N b).

Definition byte_of_Z (z : Z) : byte :=
  match Byte.of_N (Z.to_N z) with
  | Some b => b
  | None => x00
  end.

(** [big.Int.SetBytes]: the bytes read as a big-endian unsigned integer. *)
Definition SetBytes (bs : list byte) : Z :=
  fold_left (fun acc b => acc * 256 + byte_to_Z b) bs 0.

(** [n] big-endian bytes of [z]. *)
Fixpoint be_bytes (n : nat) (z : Z) : list byte :=
  match n with
  | O => []
  | S k => be_bytes k (z / 256) ++ [byte_of_Z (z mod 256)]
  end.

(** [big.Int.Bytes]: the absolute value, big-endian, without leading zeros. *)
Definition bigBytes (z : Z) : list byte :=
  let a := Z.abs z in
  if a =? 0 then [] else be_bytes (Z.to_nat (Z.log2 a / 8 + 1)) a.

#[export] Instance byte_eq_dec : EqDecision byte := Byte.byte_eq_dec.
#[export] Program Instance byte_countable : Countable byte :=
  inj_countable Byte.to_N Byte.of_N _.
Next Obligation. intros b. apply Byte.of_to_N. Qed.

End Go.
Import Go.

(** ** Chain data ([core/types]) *)

Module types.

Definition Hash := Z.
Definition Address := Z.

(** A BFT signature carried by a snail block. *)
Record PbftSign := mkPbftSign {
  FastHeight : Z;
  SignFastHash : Hash;
  Result : Z;
  Sign : list byte
}.

Record SnailHeader := mkSnailHeader {
  ParentHash : Hash;
  Coinbase : Address;
  PointerNumber : Z;
  FastHash : Hash;
  FastNumber : Z;
  SignHash : Hash;
  ToElect : bool;
  Difficulty : Z;
  FruitDifficulty : Z;
  Number : Z;
  MixDigest : Hash;
  Nonce : Z;
  Fruit : bool
}.

(** A snail block; a fruit is a snail block whose header has [Fruit] set
    and which carries no fruits of its own.  [fruits = None] is the nil
    slice. *)
#[warnings="-register-all"]
Inductive SnailBlock := mkSnailBlock {
  header : SnailHeader;
  fruits : option (list SnailBlock);
  signs : list PbftSign
}.

(** Methods of [*types.SnailBlock]. *)
Module Block.
Definition Header (b : SnailBlock) : SnailHeader := header b.
Definition Fruits (b : SnailBlock) : list SnailBlock := default [] (fruits b).
Definition Signs (b : SnailBlock) : list PbftSign := signs b.
Definition Number (b : SnailBlock) : Z := Number (header b).
Definition NumberU64 (b : SnailBlock) : Z := Uint64 (Number b).
Definition ParentHash (b : SnailBlock) : Hash := ParentHash (header b).
Definition FastHash (b : SnailBlock) : Hash := FastHash (header b).
Definition FastNumber (b : SnailBlock) : Z := FastNumber (header b).
Definition Difficulty (b : SnailBlock) : Z := Difficulty (header b).
Definition FruitDifficulty (b : SnailBlock) : Z := FruitDifficulty (header b).
Definition PointNumber (b : SnailBlock) : Z := PointerNumber (header b).
Definition Coinbase (b : SnailBlock) : Address := Coinbase (header b).
Definition ToElect (b : SnailBlock) : bool := ToElect (header b).
Definition IsFruit (b : SnailBlock) : bool := Fruit (header b).
(** Modelled from the spec: [WithSeal] is declared in [core/types], which is
    not under src/; a sealed block is the template with its header replaced
    by the sealed one. *)
Definition WithSeal (b : SnailBlock) (h : SnailHeader) : SnailBlock :=
  mkSnailBlock h (fruits b) (signs b).
End Block.

(** [common.Hash.Bytes]: the 32 bytes of a hash. *)
Definition HashBytes (h : Hash) : list byte := be_bytes 32 h.

(** [common.BytesToHash]: the last 32 bytes, right-aligned. *)
Definition BytesToHash (b : list byte) : Hash :=
  SetBytes (skipn (length b - 32) b).

(** Errors of the pool and of fruit validation. *)
Inductive error :=
| ErrInvalidSign
| ErrExist
| ErrNotExist
| ErrInvalidHash
| ErrExceedNumber
| ErrSnailHeightNotYet
| ErrOther (code : Z).

#[export] Instance error_eq_dec : EqDecision error.
Proof. solve_decision. Defined.

End types.
Import types.

(** ** The snail sealer ([consensus/minerva], sealer) *)

Module minerva.

(** Modelled from the spec: [maxUint128] is declared in a file of the
    package that is not under src/; the spec gives the target as
    [2^128 / difficulty]. *)
Definition maxUint128 : Z := 2 ^ 128.

(** What [mineSnail] needs of the engine and of the header encoding:
    [truehashFull] over the active dataset, returning the mix digest and the
    256-bit result, and the header hash without nonce. *)
Record Minerva := mkMinerva {
  truehashFull : list byte -> Z -> list byte * list byte;
  HashNoNonce : SnailHeader -> Hash
}.

(** The header a worker seals: a copy with nonce, mix digest and the fruit
    flag set. *)
Definition sealHeader (h : SnailHeader) (nonce : Z) (digest : list byte)
    (isFruit : bool) : SnailHeader :=
  mkSnailHeader (ParentHash h) (Coinbase h) (PointerNumber h) (FastHash h)
    (FastNumber h) (SignHash h) (ToElect h) (Difficulty h) (FruitDifficulty h)
    (Number h) (BytesToHash digest) nonce isFruit.

(** The [search] loop of [mineSnail].  [fuel] is the number of iterations
    that run before the abort channel is seen closed; the result lists, in
    order, the nonces found together with the sealed blocks offered on
    [found].  A block seal ends the search, a fruit seal does not. *)
Fixpoint search (m : Minerva) (fuel : nat) (block : SnailBlock)
    (hash : list byte) (target fruitTarget : Z)
    (header : SnailHeader) (nonce : Z) : list (Z * SnailBlock) :=
  match fuel with
  | O => []
  | S fuel' =>
    let '(digest, result) := truehashFull m hash nonce in
    let headResult := firstn 16 result in
    if SetBytes headResult <=? target then
      match fruits block with
      | Some _ =>
        let header' := sealHeader header nonce digest false in
        [(nonce, Block.WithSeal block header')]
      | None =>
        search m fuel' block hash target fruitTarget header (wrap64 (nonce + 1))
      end
    else
      let lastResult := skipn 16 result in
      if negb (Uint64 (FastNumber header) =? 0) then
        if SetBytes lastResult <=? fruitTarget then
          let header' := sealHeader header nonce digest true in
          (nonce, Block.WithSeal block header')
            :: search m fuel' block hash target fruitTarget header' (wrap64 (nonce + 1))
        else
          search m fuel' block hash target fruitTarget header (wrap64 (nonce + 1))
      else
        search m fuel' block hash target fruitTarget header (wrap64 (nonce + 1))
  end.

Definition mineSnail (m : Minerva) (fuel : nat) (block : SnailBlock) (seed : Z)
    : res (list (Z * SnailBlock)) :=
  let header := Block.Header block in
  let hash := HashBytes (HashNoNonce m header) in
  do target <- bigDiv maxUint128 (Difficulty header);
  do fruitTarget <- bigDiv maxUint128 (FruitDifficulty header);
  Ok (search m fuel block hash target fruitTarget header seed).

(** The two halves of the PoW result of a nonce, as the loop reads them. *)
Definition high128 (m : Minerva) (block : SnailBlock) (nonce : Z) : Z :=
  SetBytes (firstn 16 (snd (truehashFull m
    (HashBytes (HashNoNonce m (Block.Header block))) nonce))).

Definition low128 (m : Minerva) (block : SnailBlock) (nonce : Z) : Z :=
  SetBytes (skipn 16 (snd (truehashFull m
    (HashBytes (HashNoNonce m (Block.Header block))) nonce))).

(** What one offered seal satisfies, for the targets of the search. *)
Definition sealMeets (m : Minerva) (block : SnailBlock) (hash : list byte)
    (target fruitTarget : Z) (fastNum : Z) (n : Z) (s : SnailBlock) : Prop :=
  Nonce (header s) = n /\
  fruits s = fruits block /\
  ((Block.IsFruit s = false /\ fruits block <> None /\
    SetBytes (firstn 16 (snd (truehashFull m hash n))) <= target)
   \/
   (Block.IsFruit s = true /\ Uint64 fastNum <> 0 /\
    target < SetBytes (firstn 16 (snd (truehashFull m hash n))) /\
    SetBytes (skipn 16 (snd (truehashFull m hash n))) <= fruitTarget)).

(** *** [Seal] and [ConSeal] *)

(** The engine as sealing reads it: whether [PowMode] is [ModeFake] or
    [ModeFullFake], and the shared engine. *)
#[warnings="-register-all"]
Inductive Engine := mkEngine {
  fakeMode : bool;
  shared : option Engine
}.

(** The header a fake seal carries: nonce and mix digest zero. *)
Definition fakeHeader (h : SnailHeader) : SnailHeader :=
  mkSnailHeader (ParentHash h) (Coinbase h) (PointerNumber h) (FastHash h)
    (FastNumber h) (SignHash h) (ToElect h) (Difficulty h) (FruitDifficulty h)
    (Number h) 0 0 (Fruit h).

(** What the select of [Seal] receives: [stop], or [m.update]. *)
Inductive sealSignal := SignalStop | SignalUpdate.

(** The wait of [Seal] in a real mode: the receive from [found] is
    commented out, so [result] stays nil; an update starts [Seal] again.
    [None] is a [Seal] that has not returned. *)
Fixpoint sealWait (signals : list sealSignal) : option (option SnailBlock) :=
  match signals with
  | [] => None
  | SignalStop :: _ => Some None
  | SignalUpdate :: rest => sealWait rest
  end.

(** [Seal]: the block it returns ([Some None] is the nil block with a nil
    error), for the signals its selects receive.  The failure of the
    random source is left out. *)
Fixpoint Seal (m : Engine) (block : SnailBlock) (signals : list sealSignal)
    : option (option SnailBlock) :=
  match m with
  | mkEngine fake sh =>
    if fake then Some (Some (Block.WithSeal block (fakeHeader (Block.Header block))))
    else
      match sh with
      | Some s => Seal s block signals
      | None => sealWait signals
      end
  end.

(** What a select of the [mineloop] of [ConSeal] receives. *)
Inductive sealEvent :=
| SealStop
| SealFound (result : SnailBlock)
| SealUpdate.

(** The [mineloop] of [ConSeal], up to a restart: the results it sends on
    [send], in order, for the outcomes of its selects.  The update case
    hands over to a new [ConSeal] and ends the loop. *)
Fixpoint mineloop (block : SnailBlock) (events : list sealEvent) : list SnailBlock :=
  match events with
  | [] => []
  | SealStop :: _ => []
  | SealFound result :: rest =>
    result ::
      match fruits block with
      | Some _ => if negb (Block.IsFruit result) then [] else mineloop block rest
      | None => []
      end
  | SealUpdate :: _ => []
  end.

End minerva.

(** ** The fruit pool ([core/snail_pool.go]) *)

Module core.

(** What the pool reads of the fast chain: the head number and the lookup of
    a fast block by hash and number (only its presence is used). *)
Record FastChain := mkFastChain {
  fastCurrentNumber : Z;
  fastGetBlock : Hash -> Z -> bool
}.

(** The [SnailChain] interface, as far as the pool calls it. *)
Record SnailChain := mkSnailChain {
  CurrentBlock : SnailBlock;
  GetBlock : Hash -> Z -> option SnailBlock
}.

(** The collaborators of one pool operation: both chains, the fruit
    validator ([ValidateFruit (fruit, nil, true)]), the engine's freshness
    check, the block hash and the hash of a signature list. *)
Record Env := mkEnv {
  chain : SnailChain;
  fastchain : FastChain;
  ValidateFruit : SnailBlock -> option error;
  VerifyFreshness : SnailHeader -> option error;
  SnailHash : SnailBlock -> Hash;
  CalcSignHash : list PbftSign -> Hash
}.

Record SnailPool := mkSnailPool {
  FruitCount : Z;
  allFruits : gmap Hash SnailBlock;
  fruitPending : gmap Hash SnailBlock;
  poolHeader : option SnailBlock
}.

(** [len(pool.allFruits)] as a [uint64]. *)
Definition lenAll (pool : SnailPool) : Z := Z.of_nat (size (allFruits pool)).

Definition appendFruit (pool : SnailPool) (fruit : SnailBlock) (append : bool)
    : SnailPool * option error :=
  if FruitCount pool <=? lenAll pool then (pool, Some ErrExceedNumber)
  else
    let all' := <[Block.FastHash fruit := fruit]> (allFruits pool) in
    let pending' :=
      if append then <[Block.FastHash fruit := fruit]> (fruitPending pool)
      else fruitPending pool in
    (mkSnailPool (FruitCount pool) all' pending' (poolHeader pool), None).

(** [fruits[len(fruits)-1]]: an index out of range on an empty slice. *)
Definition lastFruit (fs : list SnailBlock) : res SnailBlock :=
  match last fs with
  | Some f => Ok f
  | None => Panic
  end.

(** [addFruit] from [pool.muFruit.Lock ()] on. *)
Definition addFruitLocked (env : Env) (pool : SnailPool) (fruit : SnailBlock)
    : SnailPool * option error :=
  let currentNumber := fastCurrentNumber (fastchain env) in
  if currentNumber <? Block.FastNumber fruit then
    appendFruit pool fruit false
  else if negb (fastGetBlock (fastchain env) (Block.FastHash fruit)
                  (Uint64 (Block.FastNumber fruit))) then
    (pool, Some ErrNotExist)
  else
    match allFruits pool !! Block.FastHash fruit with
    | Some f =>
      match ValidateFruit env fruit with
      | Some err => (pool, Some err)
      | None =>
        if Block.Difficulty fruit <? Block.Difficulty f then (pool, None)
        else if Block.Difficulty fruit =? Block.Difficulty f then
          if SnailHash env f <=? SnailHash env fruit then (pool, None)
          else appendFruit pool fruit true
        else appendFruit pool fruit true
      end
    | None =>
      match ValidateFruit env fruit with
      | Some err =>
        if decide (err = ErrSnailHeightNotYet) then appendFruit pool fruit false
        else (pool, Some err)
      | None => appendFruit pool fruit true
      end
    end.

Definition addFruit (env : Env) (pool : SnailPool) (fruit : SnailBlock)
    : res (SnailPool * option error) :=
  let headSnailBlock := CurrentBlock (chain env) in
  do stale <-
    (if 0 <? Block.NumberU64 headSnailBlock then
       do lf <- lastFruit (Block.Fruits headSnailBlock);
       Ok (Block.FastNumber fruit <=? Block.FastNumber lf)
     else Ok false);
  if (stale : bool) then Ok (pool, None)
  else Ok (addFruitLocked env pool fruit).

(** The [newFruitCh] case of [loop]: the error of [addFruit] is dropped. *)
Definition loopNewFruit (env : Env) (pool : SnailPool) (fruit : SnailBlock)
    : res SnailPool :=
  do r <- addFruit env pool fruit; Ok (fst r).

(** The loop draining a queue of fruits from [newFruitCh], in order. *)
Fixpoint loopNewFruits (env : Env) (pool : SnailPool) (queue : list SnailBlock)
    : res SnailPool :=
  match queue with
  | [] => Ok pool
  | fruit :: rest =>
    do pool' <- loopNewFruit env pool fruit; loopNewFruits env pool' rest
  end.

Definition fruitsDifference (env : Env) (a b : list SnailBlock) : list SnailBlock :=
  let remove : gset Hash := list_to_set (map (SnailHash env) b) in
  filter (fun f => SnailHash env f ∉ remove) a.

(** Deletes the two entries of a fast hash. *)
Definition discard (pool : SnailPool) (h : Hash) : SnailPool :=
  mkSnailPool (FruitCount pool) (delete h (allFruits pool))
    (delete h (fruitPending pool)) (poolHeader pool).

(** [for _, fruit := range pool.allFruits] with a body that only deletes:
    an entry deleted before it is reached is not visited. *)
Definition rangeAllFruits (pool : SnailPool)
    (body : SnailPool -> SnailBlock -> SnailPool) : SnailPool :=
  fold_left
    (fun p kv => match allFruits p !! fst kv with
                 | Some _ => body p (snd kv)
                 | None => p
                 end)
    (map_to_list (allFruits pool)) pool.

Definition removeWithLock (pool : SnailPool) (fruits : list SnailBlock) : SnailPool :=
  match last fruits with
  | None => pool
  | Some lf =>
    let maxFbNumber := Block.FastNumber lf in
    rangeAllFruits pool (fun p fruit =>
      if Block.FastNumber fruit <=? maxFbNumber
      then discard p (Block.FastHash fruit) else p)
  end.

Definition removeUnfreshFruit (env : Env) (pool : SnailPool) : SnailPool :=
  rangeAllFruits pool (fun p fruit =>
    match VerifyFreshness env (Block.Header fruit) with
    | Some err =>
      if decide (err = ErrSnailHeightNotYet) then p
      else discard p (Block.FastHash fruit)
    | None => p
    end).

Definition insertRestFruits (pool : SnailPool) (reinject : list SnailBlock) : SnailPool :=
  fold_left
    (fun p fruit =>
       mkSnailPool (FruitCount p)
         (<[Block.FastHash fruit := fruit]> (allFruits p))
         (<[Block.FastHash fruit := fruit]> (fruitPending p))
         (poolHeader p))
    reinject pool.

Definition RemovePendingFruitByFastHash (pool : SnailPool) (fasthash : Hash) : SnailPool :=
  discard pool fasthash.

(** The walks of [reset] towards the common ancestor.  [None] is a walk
    that needs more than [fuel] steps; [Some None] is the early return on an
    unrooted chain. *)
Definition parentOf (env : Env) (b : SnailBlock) : option SnailBlock :=
  GetBlock (chain env) (Block.ParentHash b) (wrap64 (Block.NumberU64 b - 1)).

Fixpoint walkHigher (env : Env) (fuel : nat) (b : SnailBlock) (other : Z)
    (acc : list SnailBlock) : option (option (SnailBlock * list SnailBlock)) :=
  if other <? Block.NumberU64 b then
    match fuel with
    | O => None
    | S fuel' =>
      let acc' := acc ++ Block.Fruits b in
      match parentOf env b with
      | None => Some None
      | Some b' => walkHigher env fuel' b' other acc'
      end
    end
  else Some (Some (b, acc)).

Fixpoint walkBoth (env : Env) (fuel : nat) (rem add : SnailBlock)
    (discarded included : list SnailBlock)
    : option (option (list SnailBlock * list SnailBlock)) :=
  if decide (SnailHash env rem = SnailHash env add) then
    Some (Some (discarded, included))
  else
    match fuel with
    | O => None
    | S fuel' =>
      let discarded' := discarded ++ Block.Fruits rem in
      match parentOf env rem with
      | None => Some None
      | Some rem' =>
        let included' := included ++ Block.Fruits add in
        match parentOf env add with
        | None => Some None
        | Some add' => walkBoth env fuel' rem' add' discarded' included'
        end
      end
    end.

Definition walkReorg (env : Env) (fuel : nat) (oldHead newHead : SnailBlock)
    : option (option (list SnailBlock * list SnailBlock)) :=
  match walkHigher env fuel oldHead (Block.NumberU64 newHead) [] with
  | None => None
  | Some None => Some None
  | Some (Some (rem, discarded)) =>
    match walkHigher env fuel newHead (Block.NumberU64 rem) [] with
    | None => None
    | Some None => Some None
    | Some (Some (add, included)) => walkBoth env fuel rem add discarded included
    end
  end.

(** The tail of [reset]: drop what the new head includes, drop what is not
    fresh, record the head. *)
Definition resetTail (env : Env) (pool : SnailPool) (newHead : option SnailBlock) : SnailPool :=
  let newHead' := default (CurrentBlock (chain env)) newHead in
  let p1 := removeWithLock pool (Block.Fruits newHead') in
  let p2 := removeUnfreshFruit env p1 in
  mkSnailPool (FruitCount p2) (allFruits p2) (fruitPending p2)
    (Some (CurrentBlock (chain env))).

(** [reset (oldHead, newHead)].  The code computes the depth in [float64],
    as [uint64 (math.Abs (float64 (oldNum) - float64 (newNum)))]; here it is
    the exact difference, which is what the code computes for heights below
    [2^53].  At or above [2^53] the two can differ, and statements that
    depend on the branch taken carry that bound. *)
Definition reset (env : Env) (fuel : nat) (pool : SnailPool)
    (oldHead newHead : option SnailBlock) : option (res SnailPool) :=
  match oldHead with
  | None => Some (Ok (resetTail env pool newHead))
  | Some old =>
    match newHead with
    | None => Some Panic
    | Some new =>
      if decide (SnailHash env old = Block.ParentHash new) then
        Some (Ok (resetTail env pool newHead))
      else
        let oldNum := Uint64 (Block.Number old) in
        let newNum := Uint64 (Block.Number new) in
        if 64 <? Z.abs (oldNum - newNum) then
          Some (Ok (resetTail env pool newHead))
        else
          match walkReorg env fuel old new with
          | None => None
          | Some None => Some (Ok pool)
          | Some (Some (discarded, included)) =>
            let reinject := fruitsDifference env discarded included in
            Some (Ok (resetTail env (insertRestFruits pool reinject) newHead))
          end
    end
  end.

Definition validateFruit (env : Env) (fruit : SnailBlock) : option error :=
  let getSignHash := CalcSignHash env (Block.Signs fruit) in
  if decide (SignHash (Block.Header fruit) = getSignHash) then None
  else Some ErrInvalidSign.

(** [AddRemoteFruits]: the error slice, and the fruits sent on
    [newFruitCh], in order. *)
Fixpoint AddRemoteFruits (env : Env) (fruits : list SnailBlock)
    : list (option error) * list SnailBlock :=
  match fruits with
  | [] => ([], [])
  | fruit :: rest =>
    let '(errs, queue) := AddRemoteFruits env rest in
    match validateFruit env fruit with
    | Some err => (Some err :: errs, queue)
    | None => (None :: errs, fruit :: queue)
    end
  end.

(** [NewSnailPool]: empty maps, then [reset (nil, chain.CurrentBlock ())]. *)
Definition NewSnailPool (env : Env) (fruitCount : Z) : SnailPool :=
  resetTail env (mkSnailPool fruitCount ∅ ∅ None) (Some (CurrentBlock (chain env))).

(** The states of the pool: one step is one operation of the single writer
    (or of a caller holding the lock), under any view of the chains. *)
Inductive step : SnailPool -> SnailPool -> Prop :=
| step_addFruit env pool fruit pool' err :
    addFruit env pool fruit = Ok (pool', err) -> step pool pool'
| step_reset env fuel pool oldHead newHead pool' :
    reset env fuel pool oldHead newHead = Some (Ok pool') -> step pool pool'
| step_insertRestFruits pool reinject :
    step pool (insertRestFruits pool reinject)
| step_removeWithLock pool fruits :
    step pool (removeWithLock pool fruits)
| step_removeUnfreshFruit env pool :
    step pool (removeUnfreshFruit env pool)
| step_RemovePending pool fasthash :
    step pool (RemovePendingFruitByFastHash pool fasthash).

Inductive reachable (fruitCount : Z) : SnailPool -> Prop :=
| reachable_new env : reachable fruitCount (NewSnailPool env fruitCount)
| reachable_step pool pool' :
    reachable fruitCount pool -> step pool pool' -> reachable fruitCount pool'.

(** The errors [addFruit] returns to [loop] for a queue of fruits, which
    [loop] drops, with the pool the queue leaves. *)
Fixpoint addFruitErrs (env : Env) (pool : SnailPool) (queue : list SnailBlock)
    : res (SnailPool * list (option error)) :=
  match queue with
  | [] => Ok (pool, [])
  | fruit :: rest =>
    do r <- addFruit env pool fruit;
    do r' <- addFruitErrs env (fst r) rest;
    Ok (fst r', snd r :: snd r')
  end.

(** The first check of [addFruit]: the fruit is beyond the last fruit of
    the snail head. *)
Definition beyondHead (env : Env) (fruit : SnailBlock) : bool :=
  let head := CurrentBlock (chain env) in
  negb (0 <? Block.NumberU64 head)
  || match last (Block.Fruits head) with
     | Some lf => Block.FastNumber lf <? Block.FastNumber fruit
     | None => false
     end.

(** A fruit that [addFruit] hands to [appendFruit] when its fast hash is not
    pooled: it is beyond the head, and it is a future fruit or its fast
    block is known and validation passes or says "snail height not yet". *)
Definition admissible (env : Env) (fruit : SnailBlock) : bool :=
  beyondHead env fruit
  && ((fastCurrentNumber (fastchain env) <? Block.FastNumber fruit)
      || (fastGetBlock (fastchain env) (Block.FastHash fruit)
            (Uint64 (Block.FastNumber fruit))
          && match ValidateFruit env fruit with
             | None => true
             | Some err => bool_decide (err = ErrSnailHeightNotYet)
             end)).

(** A fruit that reaches the comparison with a pooled fruit of the same
    fast hash: it is beyond the head, not a future fruit, its fast block is
    known and validation passes. *)
Definition comparable (env : Env) (fruit : SnailBlock) : bool :=
  beyondHead env fruit
  && (Block.FastNumber fruit <=? fastCurrentNumber (fastchain env))
  && fastGetBlock (fastchain env) (Block.FastHash fruit)
       (Uint64 (Block.FastNumber fruit))
  && bool_decide (ValidateFruit env fruit = None).

(** The pool with [fruit] stored, and pending, under its fast hash. *)
Definition withFruit (pool : SnailPool) (fruit : SnailBlock) : SnailPool :=
  mkSnailPool (FruitCount pool)
    (<[Block.FastHash fruit := fruit]> (allFruits pool))
    (<[Block.FastHash fruit := fruit]> (fruitPending pool))
    (poolHeader pool).

(** The invariants of the two maps: every pending key is a key of
    [allFruits], every fruit is stored under its own fast hash, and the
    pool holds at most [FruitCount] fruits. *)
Definition pendingSubset (pool : SnailPool) : Prop :=
  dom (fruitPending pool) ⊆ dom (allFruits pool).

Definition keyedByFastHash (pool : SnailPool) : Prop :=
  forall h f, allFruits pool !! h = Some f -> Block.FastHash f = h.

Definition withinCap (pool : SnailPool) : Prop :=
  lenAll pool <= FruitCount pool.

(** *** Readers and the local entry points *)

(** [compareFruit]: [1] when [f1] is the better fruit, [-1] otherwise. *)
Definition compareFruit (env : Env) (f1 f2 : SnailBlock) : Z :=
  if Block.FruitDifficulty f1 <? Block.FruitDifficulty f2 then -1
  else if Block.FruitDifficulty f1 =? Block.FruitDifficulty f2 then
    if SnailHash env f2 <=? SnailHash env f1 then -1 else 1
  else 1.

(** [addLocalFruits]: the error slice and the fruits sent on [newFruitCh]. *)
Fixpoint addLocalFruits (env : Env) (fruits : list SnailBlock)
    : list (option error) * list SnailBlock :=
  match fruits with
  | [] => ([], [])
  | fruit :: rest =>
    let '(errs, queue) := addLocalFruits env rest in
    match validateFruit env fruit with
    | Some err => (Some err :: errs, queue)
    | None => (None :: errs, fruit :: queue)
    end
  end.

Definition AddLocals (env : Env) (fruits : list SnailBlock)
    : list (option error) * list SnailBlock :=
  addLocalFruits env fruits.

(** [PendingFruits]: a fresh map filled from [fruitPending], each fruit
    under its own fast hash. *)
Definition PendingFruits (pool : SnailPool) : gmap Hash SnailBlock :=
  fold_left (fun rtfruits kv => <[Block.FastHash (snd kv) := snd kv]> rtfruits)
    (map_to_list (fruitPending pool)) ∅.

(** [Stats]: the pending count and the count of the other fruits, as
    [int]s. *)
Definition Stats (pool : SnailPool) : Z * Z :=
  (Z.of_nat (size (fruitPending pool)),
   Z.of_nat (size (allFruits pool)) - Z.of_nat (size (fruitPending pool))).



(** Every pending fruit is stored under its own fast hash. *)
Definition pendingKeyed (pool : SnailPool) : Prop :=
  forall h f, fruitPending pool !! h = Some f -> Block.FastHash f = h.




(** A chain whose lookup by hash and number returns blocks of that number,
    and in which no block sits below the genesis block. *)
Definition numbered (env : Env) : Prop :=
  (forall h n b, GetBlock (chain env) h n = Some b -> Block.NumberU64 b = n) /\
  (forall h, GetBlock (chain env) h (2 ^ 64 - 1) = None).

End core.

(** ** The election engine ([consensus/election/election.go]) *)

Module election.

(** Modelled from the spec: the member flags and types are constants of
    [core/types], which is not under src/; the spec gives a member
    [flag ∈ {unused, used, removed}], a switch-info [flag ∈ {append, remove}]
    and [type ∈ {fixed, worked, back}].  [FlagOther] and [TypeUnset] stand
    for any other [int32], the zero value among them. *)
Inductive MemberFlag :=
| StateUnusedFlag
| StateUsedFlag
| StateRemovedFlag
| StateAppendFlag
| FlagOther (v : Z).

Inductive MemberType :=
| TypeFixed
| TypeWorked
| TypeBack
| TypeUnset.

(** An ECDSA public key, identified with its [crypto.FromECDSAPub] bytes. *)
Definition PublicKey := list byte.

Record CommitteeMember := mkCommitteeMember {
  Coinbase : Address;
  Publickey : PublicKey;
  Flag : MemberFlag;
  MType : MemberType
}.

Record ElectionCommittee := mkElectionCommittee {
  Members : list CommitteeMember;
  Backups : list CommitteeMember
}.

Record SwitchEnter := mkSwitchEnter {
  Pk : list byte;
  SwitchFlag : MemberFlag
}.

Record SwitchInfos := mkSwitchInfos {
  CID : Z;
  Vals : list SwitchEnter
}.

(** A fast block, as far as the engine reads it. *)
Record FastBlock := mkFastBlock {
  fastNumber : Z;
  fastHash : Hash;
  switchInfos : SwitchInfos
}.

Record candidateMember := mkCandidateMember {
  coinbase : Address;
  address : Address;
  publickey : PublicKey;
  difficulty : Z;
  upper : Z;
  lower : Z
}.

(** The [committee] struct; the field [id] is [committeeId] here, and
    [endFastNumber] may be nil. *)
Record committee := mkCommittee {
  committeeId : Z;
  beginFastNumber : Z;
  endFastNumber : option Z;
  firstElectionNumber : Z;
  lastElectionNumber : Z;
  switchCheckNumber : Z;
  members : list CommitteeMember;
  backupMembers : list CommitteeMember;
  switches : list Z
}.

Inductive ElectMode := ElectModeEtrue | ElectModeFake.

Inductive EventOption :=
| CommitteeSwitchover
| CommitteeStart
| CommitteeStop
| CommitteeOver
| CommitteeUpdate.

Record ElectionEvent := mkElectionEvent {
  Option : EventOption;
  CommitteeID : Z;
  BeginFastNumber : Z;
  EndFastNumber : option Z;
  CommitteeMembers : list CommitteeMember;
  BackupMembers : list CommitteeMember
}.

(** The period constants of [params]; their declarations are not under
    src/, so they are parameters of the engine. *)
Record Params := mkParams {
  ElectionPeriodNumber : Z;
  SnailConfirmInterval : Z;
  ElectionSwitchoverNumber : Z;
  MinimumCommitteeNumber : nat;
  MaximumCommitteeNumber : Z;
  ElectionFruitsThreshold : Z
}.

(** The chains, the consensus engine and the hash functions the election
    reads. *)
Record Env := mkEnv {
  fastCurrentHeaderNumber : Z;
  fastGetBlockByNumber : Z -> option FastBlock;
  snailCurrentHeaderNumber : Z;
  snailGetBlockByNumber : Z -> option SnailBlock;
  GetFruitByFastHash : Hash -> option SnailBlock;
  GetDifficulty : SnailHeader -> Z * Z;
  GetPubKey : SnailBlock -> option PublicKey;
  PubkeyToAddress : PublicKey -> Address;
  Keccak256Hash : list byte -> Hash;
  SnailHash : SnailBlock -> Hash
}.

(** The engine, with the committee store it reaches through
    [snailchain.GetDatabase ()] and the events sent on [electionFeed], the
    latest last.  [curCommittee] is the field [committee]. *)
Record Election := mkElection {
  genesisCommittee : list CommitteeMember;
  defaultMembers : list CommitteeMember;
  commiteeCache : list (Z * ElectionCommittee);
  electionMode : ElectMode;
  curCommittee : option committee;
  nextCommittee : option committee;
  startSwitchover : bool;
  singleNode : bool;
  dbCommittee : gmap Z ElectionCommittee;
  dbCommitteeStates : gmap Z (list Z);
  electionFeed : list ElectionEvent
}.

Definition committeeCacheLimit : nat := 256.

(** [maxUint256]: [Exp (2, 256, 0)], that is [2^256]. *)
Definition maxUint256 : Z := 2 ^ 256.

(** *** State and panics *)

Definition M (A : Type) : Type := Election -> res (A * Election).

Definition ret {A : Type} (a : A) : M A := fun e => Ok (a, e).

Definition mbind {A B : Type} (m : M A) (k : A -> M B) : M B :=
  fun e => match m e with
           | Ok (a, e') => k a e'
           | Panic => Panic
           end.

Definition panic {A : Type} : M A := fun _ => Panic.

Definition lift {A : Type} (r : res A) : M A :=
  fun e => match r with
           | Ok a => Ok (a, e)
           | Panic => Panic
           end.

Definition gets {A : Type} (f : Election -> A) : M A := fun e => Ok (f e, e).

Definition modify (f : Election -> Election) : M unit := fun e => Ok (tt, f e).

Notation "'doM' x <- m ; k" := (mbind m (fun x => k))
  (at level 10, x pattern, m at level 100, k at level 200).
Notation "'doM_' m ; k" := (mbind m (fun _ => k))
  (at level 10, m at level 100, k at level 200).

Definition setCache (c : list (Z * ElectionCommittee)) (e : Election) : Election :=
  mkElection (genesisCommittee e) (defaultMembers e) c (electionMode e)
    (curCommittee e) (nextCommittee e) (startSwitchover e) (singleNode e)
    (dbCommittee e) (dbCommitteeStates e) (electionFeed e).

Definition setDbCommittee (d : gmap Z ElectionCommittee) (e : Election) : Election :=
  mkElection (genesisCommittee e) (defaultMembers e) (commiteeCache e) (electionMode e)
    (curCommittee e) (nextCommittee e) (startSwitchover e) (singleNode e)
    d (dbCommitteeStates e) (electionFeed e).

Definition setDbStates (d : gmap Z (list Z)) (e : Election) : Election :=
  mkElection (genesisCommittee e) (defaultMembers e) (commiteeCache e) (electionMode e)
    (curCommittee e) (nextCommittee e) (startSwitchover e) (singleNode e)
    (dbCommittee e) d (electionFeed e).

Definition setCommittees (cur next : option committee) (sw : bool) (e : Election) : Election :=
  mkElection (genesisCommittee e) (defaultMembers e) (commiteeCache e) (electionMode e)
    cur next sw (singleNode e)
    (dbCommittee e) (dbCommitteeStates e) (electionFeed e).

(** [electionFeed.Send]. *)
Definition send (ev : ElectionEvent) : M unit :=
  modify (fun e =>
    mkElection (genesisCommittee e) (defaultMembers e) (commiteeCache e) (electionMode e)
      (curCommittee e) (nextCommittee e) (startSwitchover e) (singleNode e)
      (dbCommittee e) (dbCommitteeStates e) (electionFeed e ++ [ev])).

(** *** The committee cache and store *)

(** The LRU cache of [hashicorp/golang-lru], most recently used first. *)
Definition lruWithout (k : Z) (c : list (Z * ElectionCommittee)) : list (Z * ElectionCommittee) :=
  filter (fun kv => fst kv ≠ k) c.

Definition lruGet (k : Z) (c : list (Z * ElectionCommittee))
    : option (ElectionCommittee * list (Z * ElectionCommittee)) :=
  match List.find (fun kv => fst kv =? k) c with
  | Some kv => Some (snd kv, kv :: lruWithout k c)
  | None => None
  end.

Definition lruAdd (k : Z) (v : ElectionCommittee) (c : list (Z * ElectionCommittee))
    : list (Z * ElectionCommittee) :=
  firstn committeeCacheLimit ((k, v) :: lruWithout k c).

(** Modelled from the spec: [rawdb.ReadCommittee], [rawdb.WriteCommittee],
    [rawdb.ReadCommitteeStates] and [rawdb.WriteCommitteeStates] are not
    under src/; the store maps [committee/<id>] to [{members, backups}] and
    [committee-states/<id>] to the list of switch block numbers, and a read
    returns what was last written. *)
Definition ReadCommittee (k : Z) : M (option ElectionCommittee) :=
  gets (fun e => dbCommittee e !! k).

Definition WriteCommittee (k : Z) (v : ElectionCommittee) : M unit :=
  modify (fun e => setDbCommittee (<[k := v]> (dbCommittee e)) e).

Definition ReadCommitteeStates (k : Z) : M (list Z) :=
  gets (fun e => default [] (dbCommitteeStates e !! k)).

Definition WriteCommitteeStates (k : Z) (v : list Z) : M unit :=
  modify (fun e => setDbStates (<[k := v]> (dbCommitteeStates e)) e).

(** *** Candidates and the lottery *)

(** The candidate a fruit of the window contributes, if it wants to be
    elected and its public key recovers. *)
Definition candidateOfFruit (env : Env) (f : SnailBlock) : option candidateMember :=
  if Block.ToElect f then
    match GetPubKey env f with
    | None => None
    | Some pubkey =>
      let addr := PubkeyToAddress env pubkey in
      let '(act, diff) := GetDifficulty env (Block.Header f) in
      Some (mkCandidateMember (Block.Coinbase f) addr pubkey (act - diff) 0 0)
    end
  else None.

(** The inner loop of [getCandinates] over the fruits of one block. *)
Definition collectFruits (env : Env) (fruits : list SnailBlock)
    (acc : list candidateMember * gmap Address Z)
    : list candidateMember * gmap Address Z :=
  fold_left
    (fun st f =>
       match candidateOfFruit env f with
       | None => st
       | Some member =>
         let fruitsCount := snd st in
         let fruitsCount' :=
           match fruitsCount !! address member with
           | Some n => <[address member := wrap64 (n + 1)]> fruitsCount
           | None => <[address member := 1]> fruitsCount
           end in
         (fst st ++ [member], fruitsCount')
       end)
    fruits acc.

(** The outer loop of [getCandinates]: [n] blocks from [blockNumber] on;
    [None] is the return on a missing block. *)
Fixpoint collectBlocks (env : Env) (n : nat) (blockNumber : Z) (seed : list byte)
    (acc : list candidateMember * gmap Address Z)
    : option (list byte * (list candidateMember * gmap Address Z)) :=
  match n with
  | O => Some (seed, acc)
  | S n' =>
    match snailGetBlockByNumber env (Uint64 blockNumber) with
    | None => None
    | Some block =>
      let seed' := seed ++ HashBytes (SnailHash env block) in
      let acc' := collectFruits env (Block.Fruits block) acc in
      collectBlocks env n' (blockNumber + 1) seed' acc'
    end
  end.

Definition setRange (m : candidateMember) (lo up : Z) : candidateMember :=
  mkCandidateMember (coinbase m) (address m) (publickey m) (difficulty m) up lo.

(** The range loop of [getCandinates]: the last candidate's range ends at
    [maxUint256]. *)
Fixpoint assignRanges (rate dd : Z) (candidates : list candidateMember)
    : list candidateMember :=
  match candidates with
  | [] => []
  | member :: rest =>
    let lo := rate * dd in
    let dd' := dd + difficulty member in
    let up := match rest with
              | [] => maxUint256
              | _ => rate * dd'
              end in
    setRange member lo up :: assignRanges rate dd' rest
  end.

(** [getCandinates]: [None] is the return [(common.Hash{}, nil)]. *)
Definition getCandinates (P : Params) (env : Env) (snailBeginNumber snailEndNumber : Z)
    : res (option (Hash * list candidateMember)) :=
  match collectBlocks env (Z.to_nat (snailEndNumber - snailBeginNumber + 1))
          snailBeginNumber [] ([], ∅) with
  | None => Ok None
  | Some (seed, (members, fruitsCount)) =>
    let candidates :=
      List.filter (fun member =>
                     match fruitsCount !! address member with
                     | Some cnt => ElectionFruitsThreshold P <=? cnt
                     | None => false
                     end) members in
    let td := fold_left (fun td member => td + difficulty member) candidates 0 in
    match candidates with
    | [] => Ok None
    | _ =>
      do rate <- bigDiv maxUint256 td;
      Ok (Some (Keccak256Hash env seed, assignRanges rate 0 candidates))
    end
  end.

(** One round of [elect]: the first candidate whose range holds [prop] is
    drawn, unless it is a default member or was drawn before. *)
Definition electRound (env : Env) (defaults : gset Address)
    (candidates : list candidateMember) (seed : Hash) (round : Z)
    (st : gset Address * list CommitteeMember)
    : gset Address * list CommitteeMember :=
  let seedNumber := seed + round in
  let hash := Keccak256Hash env (bigBytes seedNumber) in
  let prop := hash in
  match List.find (fun cm => (lower cm <=? prop) && (prop <? upper cm)) candidates with
  | None => st
  | Some cm =>
    if decide (address cm ∈ defaults) then st
    else if decide (address cm ∈ fst st) then st
    else ({[address cm]} ∪ fst st,
          snd st ++ [mkCommitteeMember (coinbase cm) (publickey cm) StateUnusedFlag TypeUnset])
  end.

Fixpoint electRounds (env : Env) (defaults : gset Address)
    (candidates : list candidateMember) (seed : Hash) (n : nat) (round : Z)
    (st : gset Address * list CommitteeMember) : list CommitteeMember :=
  match n with
  | O => snd st
  | S n' =>
    electRounds env defaults candidates seed n' (round + 1)
      (electRound env defaults candidates seed round st)
  end.

(** [elect]: rounds [1 .. MaximumCommitteeNumber], at least one. *)
Definition elect (P : Params) (env : Env) (e : Election)
    (candidates : list candidateMember) (seed : Hash) : list CommitteeMember :=
  let defaults : gset Address :=
    list_to_set (map (fun g => PubkeyToAddress env (Publickey g)) (defaultMembers e)) in
  electRounds env defaults candidates seed
    (Z.to_nat (Z.max 1 (MaximumCommitteeNumber P))) 1 (∅, []).

Definition markWorked (m : CommitteeMember) : CommitteeMember :=
  mkCommitteeMember (Coinbase m) (Publickey m) StateUsedFlag TypeWorked.

Definition markBack (m : CommitteeMember) : CommitteeMember :=
  mkCommitteeMember (Coinbase m) (Publickey m) (Flag m) TypeBack.

Definition electCommittee (P : Params) (env : Env) (e : Election)
    (snailBeginNumber snailEndNumber : Z) : res ElectionCommittee :=
  do found <- getCandinates P env snailBeginNumber snailEndNumber;
  let committee0 :=
    match found with
    | None => mkElectionCommittee [] []
    | Some (seed, candidates) =>
      let members := elect P env e candidates seed in
      if (MinimumCommitteeNumber P <? length members)%nat then
        mkElectionCommittee (firstn (MinimumCommitteeNumber P) members)
          (skipn (MinimumCommitteeNumber P) members)
      else mkElectionCommittee members []
    end in
  let Members1 := map markWorked (Members committee0) in
  let Backups1 := map markBack (Backups committee0) in
  if (4 <=? length Members1)%nat then
    Ok (mkElectionCommittee Members1 (Backups1 ++ defaultMembers e))
  else
    Ok (mkElectionCommittee (genesisCommittee e) Backups1).

(** [getLastNumber]: [Ok None] is the nil return on a missing block; the
    index [len(fruits)-1] is out of range on an empty fruit list. *)
Definition getLastNumber (P : Params) (env : Env) (beginSnail endSnail : Z)
    : res (option Z) :=
  match snailGetBlockByNumber env (Uint64 beginSnail) with
  | None => Ok None
  | Some beginElectionBlock =>
    match snailGetBlockByNumber env (Uint64 endSnail) with
    | None => Ok None
    | Some endElectionBlock =>
      let fruits := Block.Fruits endElectionBlock in
      match last fruits with
      | None => Panic
      | Some lf =>
        let lastFruitNumber := Block.FastNumber lf in
        Ok (Some (lastFruitNumber + ElectionSwitchoverNumber P))
      end
    end
  end.

Definition getElectionMembers (P : Params) (env : Env)
    (snailBeginNumber snailEndNumber : Z) : M ElectionCommittee :=
  doM q <- lift (bigDiv (snailEndNumber + SnailConfirmInterval P) (ElectionPeriodNumber P));
  let committeeNum :=
    if snailEndNumber + SnailConfirmInterval P <? ElectionPeriodNumber P then 0 else q in
  doM cache <- gets commiteeCache;
  match lruGet (Uint64 committeeNum) cache with
  | Some (committee, cache') =>
    doM_ modify (setCache cache'); ret committee
  | None =>
    doM stored <- ReadCommittee (Uint64 committeeNum);
    match stored with
    | Some members =>
      doM_ modify (fun e => setCache (lruAdd (Uint64 committeeNum) members (commiteeCache e)) e);
      ret members
    | None =>
      doM e <- gets (fun e => e);
      doM members <- lift (electCommittee P env e snailBeginNumber snailEndNumber);
      doM_ modify (fun e => setCache (lruAdd (Uint64 committeeNum) members (commiteeCache e)) e);
      doM_ WriteCommittee (Uint64 committeeNum) members;
      ret members
    end
  end.

(** The election window ending at [endNumber]. *)
Definition windowBegin (P : Params) (endNumber : Z) : Z :=
  let b := endNumber - ElectionPeriodNumber P + 1 in
  if b <=? 0 then 1 else b.

Definition getCommittee (P : Params) (env : Env) (fastNumber snailNumber : Z)
    : M (option committee) :=
  doM committeeNumber <- lift (bigDiv snailNumber (ElectionPeriodNumber P));
  let lastSnailNumber := committeeNumber * ElectionPeriodNumber P in
  let switchCheckNumber := lastSnailNumber - SnailConfirmInterval P in
  if committeeNumber =? 0 then
    doM genesis <- gets genesisCommittee;
    doM sw <- ReadCommitteeStates 0;
    ret (Some (mkCommittee 0 1 (Some 0) 0 0 (ElectionPeriodNumber P) genesis [] sw))
  else
    let endElectionNumber := switchCheckNumber in
    let beginElectionNumber := windowBegin P endElectionNumber in
    doM last <- lift (getLastNumber P env beginElectionNumber endElectionNumber);
    match last with
    | None => ret None
    | Some lastFastNumber =>
      if fastNumber <=? lastFastNumber then
        if committeeNumber =? 1 then
          doM genesis <- gets genesisCommittee;
          doM sw <- ReadCommitteeStates 0;
          ret (Some (mkCommittee 0 1 (Some lastFastNumber) 0 0
                       (ElectionPeriodNumber P) genesis [] sw))
        else
          let preEndElectionNumber := switchCheckNumber - ElectionPeriodNumber P in
          let preBeginElectionNumber := windowBegin P preEndElectionNumber in
          doM preLast <- lift (getLastNumber P env preBeginElectionNumber preEndElectionNumber);
          match preLast with
          | None => ret None
          | Some preEndFast =>
            doM elected <- getElectionMembers P env preBeginElectionNumber preEndElectionNumber;
            doM sw <- ReadCommitteeStates (Uint64 (committeeNumber - 1));
            ret (Some (mkCommittee (committeeNumber - 1) (preEndFast + 1)
                         (Some lastFastNumber) preBeginElectionNumber preEndElectionNumber
                         lastSnailNumber (Members elected) (Backups elected) sw))
          end
      else
        doM elected <- getElectionMembers P env beginElectionNumber endElectionNumber;
        doM sw <- ReadCommitteeStates (Uint64 committeeNumber);
        ret (Some (mkCommittee committeeNumber (lastFastNumber + 1) (Some 0)
                     beginElectionNumber endElectionNumber
                     (lastSnailNumber + ElectionPeriodNumber P)
                     (Members elected) (Backups elected) sw))
    end.

(** The tail of [electedCommittee]: the committee of a fast block that is
    older than the current committee, located through the snail chain. *)
Definition historicalCommittee (P : Params) (env : Env) (fastNumber : Z)
    : M (option committee) :=
  let snailHeadNumber := snailCurrentHeaderNumber env in
  match fastGetBlockByNumber env (Uint64 fastNumber) with
  | None => ret None
  | Some fastBlock =>
    let snailNumber :=
      match GetFruitByFastHash env (fastHash fastBlock) with
      | None => snailHeadNumber
      | Some snailBlock => Block.Number snailBlock
      end in
    getCommittee P env fastNumber snailNumber
  end.

Definition electedCommittee (P : Params) (env : Env) (fastNumber : Z)
    : M (option committee) :=
  doM mode <- gets electionMode;
  doM currentCommittee <- gets curCommittee;
  doM next <- gets nextCommittee;
  match mode with
  | ElectModeFake => ret currentCommittee
  | ElectModeEtrue =>
    let fromCurrent :=
      match currentCommittee with
      | Some cc =>
        if beginFastNumber cc <=? fastNumber then ret (Some cc)
        else historicalCommittee P env fastNumber
      | None => historicalCommittee P env fastNumber
      end in
    match next with
    | Some nc =>
      if beginFastNumber nc <=? fastNumber then ret (Some nc) else fromCurrent
    | None => fromCurrent
    end
  end.

(** *** Switch infos *)

(** The [states] map of [GetCommittee] and [filterWithSwitchInfo], keyed by
    the public-key bytes (the code keys it by their hex encoding). *)
Definition applyVals (vals : list SwitchEnter) (states : gmap (list byte) MemberFlag)
    : gmap (list byte) MemberFlag :=
  fold_left
    (fun st s =>
       match SwitchFlag s with
       | StateAppendFlag => <[Pk s := StateAppendFlag]> st
       | StateRemovedFlag => <[Pk s := StateRemovedFlag]> st
       | _ => st
       end)
    vals states.

(** The switch infos of the fast block [num]; the block is dereferenced
    without a nil check. *)
Definition applySwitchBlock (env : Env) (num : Z) (states : gmap (list byte) MemberFlag)
    : res (gmap (list byte) MemberFlag) :=
  match fastGetBlockByNumber env num with
  | None => Panic
  | Some b => Ok (applyVals (Vals (switchInfos b)) states)
  end.

Fixpoint replayAll (env : Env) (switches : list Z) (states : gmap (list byte) MemberFlag)
    : res (gmap (list byte) MemberFlag) :=
  match switches with
  | [] => Ok states
  | num :: rest =>
    do states' <- applySwitchBlock env num states; replayAll env rest states'
  end.

(** The second loop of [GetCommittee]: it breaks at the first entry that is
    not below [bound]. *)
Fixpoint replayUntil (env : Env) (bound : Z) (switches : list Z)
    (states : gmap (list byte) MemberFlag) : res (gmap (list byte) MemberFlag) :=
  match switches with
  | [] => Ok states
  | num :: rest =>
    if bound <=? num then Ok states
    else do states' <- applySwitchBlock env num states; replayUntil env bound rest states'
  end.

(** The members [GetCommittee] returns for a [states] map. *)
Definition effectiveMembers (states : gmap (list byte) MemberFlag)
    (ms bs : list CommitteeMember) : list CommitteeMember :=
  List.filter (fun m => match states !! Publickey m with
                        | Some StateRemovedFlag => false
                        | _ => true
                        end) ms
  ++ List.filter (fun m => match states !! Publickey m with
                           | Some StateAppendFlag => true
                           | _ => false
                           end) bs.

(** [GetCommittee]: [None] is the nil return when no committee is found.
    When the replay removes every member and takes in no backup, the code
    returns its [members] slice without an element, which is nil as well;
    here that answer is [Some []].  A caller that tests the length
    ([VerifySigns]) reads both the same way. *)
Definition GetCommittee (P : Params) (env : Env) (fastNumber : Z)
    : M (option (list CommitteeMember)) :=
  doM found <- electedCommittee P env fastNumber;
  match found with
  | None => ret None
  | Some committee =>
    match last (switches committee) with
    | None => ret (Some (members committee))
    | Some lastSwitch =>
      doM states <- lift
        (if lastSwitch <? Uint64 fastNumber then replayAll env (switches committee) ∅
         else replayUntil env (Uint64 fastNumber) (switches committee) ∅);
      ret (Some (effectiveMembers states (members committee) (backupMembers committee)))
    end
  end.

Definition setFlag (m : CommitteeMember) (flag : MemberFlag) : CommitteeMember :=
  mkCommitteeMember (Coinbase m) (Publickey m) flag (MType m).

Definition filterWithSwitchInfo (env : Env) (c : committee)
    : res (list CommitteeMember * list CommitteeMember) :=
  match switches c with
  | [] => Ok (members c, backupMembers c)
  | _ =>
    do states <- replayAll env (switches c) ∅;
    let members' :=
      map (fun m => match states !! Publickey m with
                    | Some StateRemovedFlag => setFlag m StateRemovedFlag
                    | _ => m
                    end) (members c) in
    let backups' :=
      map (fun m => match states !! Publickey m with
                    | Some StateAppendFlag => setFlag m StateUsedFlag
                    | Some StateRemovedFlag => setFlag m StateRemovedFlag
                    | _ => m
                    end) (backupMembers c) in
    Ok (members', backups')
  end.

Definition withSwitches (c : committee) (sw : list Z) : committee :=
  mkCommittee (committeeId c) (beginFastNumber c) (endFastNumber c)
    (firstElectionNumber c) (lastElectionNumber c) (switchCheckNumber c)
    (members c) (backupMembers c) sw.

Definition withEndFastNumber (c : committee) (n : Z) : committee :=
  mkCommittee (committeeId c) (beginFastNumber c) (Some n)
    (firstElectionNumber c) (lastElectionNumber c) (switchCheckNumber c)
    (members c) (backupMembers c) (switches c).

(** What [updateMembers] did: returned at once, warned and returned, or
    applied the switch info. *)
Inductive updateOutcome := UpdateSkipped | UpdateRejected | UpdateApplied.

(** The part of [updateMembers] after the committee is located; [isNext]
    tells which of the two committees the pointer is. *)
Definition applyUpdate (env : Env) (fastNumber : Z) (infos : SwitchInfos)
    (target : committee) (isNext : bool) : M updateOutcome :=
  let target' := withSwitches target (switches target ++ [Uint64 fastNumber]) in
  doM_ modify (fun e =>
    if isNext then setCommittees (curCommittee e) (Some target') (startSwitchover e) e
    else setCommittees (Some target') (nextCommittee e) (startSwitchover e) e);
  doM_ WriteCommitteeStates (CID infos) (switches target');
  doM mb <- lift (filterWithSwitchInfo env target');
  let endfast := match endFastNumber target' with
                 | Some n => n
                 | None => 0
                 end in
  doM_ send (mkElectionEvent CommitteeUpdate (committeeId target') fastNumber
               (Some endfast) (fst mb) (snd mb));
  ret UpdateApplied.

(** [updateMembers]: both committee pointers are dereferenced without a nil
    check. *)
Definition updateMembers (env : Env) (fastNumber : Z) (infos : option SwitchInfos)
    : M updateOutcome :=
  match infos with
  | None => ret UpdateSkipped
  | Some infos =>
    match Vals infos with
    | [] => ret UpdateSkipped
    | _ =>
      doM cur <- gets curCommittee;
      match cur with
      | None => panic
      | Some cc =>
        if CID infos =? Uint64 (committeeId cc) then
          applyUpdate env fastNumber infos cc false
        else
          doM next <- gets nextCommittee;
          match next with
          | None => panic
          | Some nc =>
            if CID infos =? Uint64 (committeeId nc) then
              applyUpdate env fastNumber infos nc true
            else ret UpdateRejected
          end
      end
    end
  end.

(** [switchLoop], one event. *)
Definition switchLoopEvent (env : Env) (block : option FastBlock) : M updateOutcome :=
  match block with
  | None => ret UpdateSkipped
  | Some b =>
    let info := switchInfos b in
    match Vals info with
    | [] => ret UpdateSkipped
    | _ => updateMembers env (fastNumber b) (Some info)
    end
  end.

(** *** The event loop *)

(** What a snail event did to the next committee. *)
Inductive snailOutcome :=
| SnailIgnored
| SnailElectedTwice
| SnailElected (next : committee).

(** [loop], the [snailChainEventCh] case. *)
Definition loopSnailEvent (P : Params) (env : Env) (block : option SnailBlock)
    : M snailOutcome :=
  match block with
  | None => ret SnailIgnored
  | Some b =>
    doM cur <- gets curCommittee;
    match cur with
    | None => panic
    | Some cc =>
      if switchCheckNumber cc =? Block.Number b then
        let snailEndNumber := Block.Number b - SnailConfirmInterval P in
        let snailStartNumber :=
          if snailEndNumber <? ElectionPeriodNumber P then 1
          else snailEndNumber - ElectionPeriodNumber P + 1 in
        doM last <- lift (getLastNumber P env snailStartNumber snailEndNumber);
        match last with
        | None => panic
        | Some lastFastNumber =>
          let cc' := withEndFastNumber cc lastFastNumber in
          doM_ modify (fun e => setCommittees (Some cc') (nextCommittee e) (startSwitchover e) e);
          doM_ send (mkElectionEvent CommitteeOver (committeeId cc') (beginFastNumber cc')
                       (endFastNumber cc') (members cc') []);
          doM elected <- getElectionMembers P env snailStartNumber snailEndNumber;
          doM newId <- lift (bigDiv (switchCheckNumber cc') (ElectionPeriodNumber P));
          let next :=
            mkCommittee newId (lastFastNumber + 1) None snailStartNumber snailEndNumber
              (switchCheckNumber cc' + ElectionPeriodNumber P)
              (Members elected) (Backups elected) [] in
          doM old <- gets nextCommittee;
          let twice := match old with
                       | Some nc => committeeId nc =? newId
                       | None => false
                       end in
          if twice then ret SnailElectedTwice
          else
            doM_ modify (fun e => setCommittees (curCommittee e) (Some next) true e);
            doM_ send (mkElectionEvent CommitteeSwitchover (committeeId next)
                         (beginFastNumber next) None (members next) (backupMembers next));
            ret (SnailElected next)
        end
      else ret SnailIgnored
    end
  end.

(** [loop], the [fastChainEventCh] case. *)
Definition loopFastEvent (block : option FastBlock) : M unit :=
  match block with
  | None => ret tt
  | Some b =>
    doM sw <- gets startSwitchover;
    if (sw : bool) then
      doM cur <- gets curCommittee;
      match cur with
      | None => panic
      | Some cc =>
        match endFastNumber cc with
        | None => panic
        | Some endFast =>
          if endFast =? fastNumber b then
            doM_ send (mkElectionEvent CommitteeStop (committeeId cc) (beginFastNumber cc)
                         (endFastNumber cc) (members cc) (backupMembers cc));
            doM next <- gets nextCommittee;
            doM_ modify (setCommittees next None false);
            match next with
            | None => panic
            | Some nc =>
              send (mkElectionEvent CommitteeStart (committeeId nc) (beginFastNumber nc)
                      None (members nc) (backupMembers nc))
            end
          else ret tt
        end
      end
    else ret tt
  end.

(** *** Specification-side definitions *)

(** The list [elect] draws for a window, empty when there are no
    candidates. *)
Definition drawnMembers (P : Params) (env : Env) (e : Election)
    (snailBeginNumber snailEndNumber : Z) : res (list CommitteeMember) :=
  do found <- getCandinates P env snailBeginNumber snailEndNumber;
  Ok (match found with
      | None => []
      | Some (seed, candidates) => elect P env e candidates seed
      end).

(** The election window of committee [k], in the spec's words:
    [last = k * period - confirm] and [first = max (1, last - period + 1)]. *)
Definition specLastElection (P : Params) (k : Z) : Z :=
  k * ElectionPeriodNumber P - SnailConfirmInterval P.

Definition specFirstElection (P : Params) (k : Z) : Z :=
  Z.max 1 (specLastElection P k - ElectionPeriodNumber P + 1).






(** The environment with another view of the snail chain. *)
Definition withSnailChain (env : Env) (get : Z -> option SnailBlock) : Env :=
  mkEnv (fastCurrentHeaderNumber env) (fastGetBlockByNumber env)
    (snailCurrentHeaderNumber env) get (GetFruitByFastHash env)
    (GetDifficulty env) (GetPubKey env) (PubkeyToAddress env)
    (Keccak256Hash env) (SnailHash env).

(** *** Member lookups and signature checks *)

#[export] Instance MemberFlag_eq_dec : EqDecision MemberFlag.
Proof. solve_decision. Defined.

(** One loop of [setMemberState]: the first entry with the public key is
    replaced by a struct literal that sets [Coinbase], [Publickey] and
    [Flag], so its [MType] is the zero value. *)
Fixpoint setFirstState (pubkey : list byte) (flag : MemberFlag)
    (ms : list CommitteeMember) : list CommitteeMember :=
  match ms with
  | [] => []
  | m :: rest =>
    if decide (Publickey m = pubkey) then
      mkCommitteeMember (Coinbase m) (Publickey m) flag TypeUnset :: rest
    else m :: setFirstState pubkey flag rest
  end.

Definition setMemberState (c : committee) (pubkey : list byte) (flag : MemberFlag)
    : committee :=
  mkCommittee (committeeId c) (beginFastNumber c) (endFastNumber c)
    (firstElectionNumber c) (lastElectionNumber c) (switchCheckNumber c)
    (setFirstState pubkey flag (members c))
    (setFirstState pubkey flag (backupMembers c)) (switches c).

(** [GetMemberByPubkey]: [None] is the nil return. *)
Definition GetMemberByPubkey (members : list CommitteeMember) (publickey : list byte)
    : option CommitteeMember :=
  match members with
  | [] => None
  | _ => List.find (fun member => bool_decide (publickey = Publickey member)) members
  end.

(** [GetMemberFlag]: the flag [0] when no member has the key. *)
Definition GetMemberFlag (members : list CommitteeMember) (publickey : list byte)
    : MemberFlag :=
  match members with
  | [] => FlagOther 0
  | _ =>
    match List.find (fun member => bool_decide (publickey = Publickey member)) members with
    | Some member => Flag member
    | None => FlagOther 0
    end
  end.

Definition IsCommitteeMember (members : list CommitteeMember) (publickey : list byte)
    : bool :=
  bool_decide (GetMemberFlag members publickey = StateUsedFlag).

Inductive electionError := ErrCommittee | ErrInvalidMember.

(** The loop of [VerifySigns] over the signatures.  [SigToPub] gives the
    bytes of the key recovered from a signature; the code drops the error
    of the recovery, and a key that is not recovered has no bytes. *)
Definition verifySignsLoop (SigToPub : PbftSign -> list byte)
    (committeeMembers : list CommitteeMember) (signs : list PbftSign)
    : list (option CommitteeMember) * list (option electionError) :=
  (map (fun sign => GetMemberByPubkey committeeMembers (SigToPub sign)) signs,
   map (fun sign => match GetMemberByPubkey committeeMembers (SigToPub sign) with
                    | None => Some ErrInvalidMember
                    | Some _ => None
                    end) signs).

(** [VerifySigns]: the members and the errors, index by index; both are
    nil for no signatures. *)
Definition VerifySigns (P : Params) (env : Env) (SigToPub : PbftSign -> list byte)
    (signs : list PbftSign)
    : M (list (option CommitteeMember) * list (option electionError)) :=
  match signs with
  | [] => ret ([], [])
  | first :: _ =>
    doM found <- GetCommittee P env (FastHeight first);
    match default [] found with
    | [] => ret (map (fun _ => None) signs, map (fun _ => Some ErrCommittee) signs)
    | committeeMembers => ret (verifySignsLoop SigToPub committeeMembers signs)
    end
  end.

(** *** Creation and start *)

(** [NewElection]: [genesis] is what [GetGenesisCommittee] returns,
    [nodeType] what [config.GetNodeType] returns, [db] and [dbStates] what
    the database of the snail chain holds.  The slice [[:1]] of an empty
    list is out of range. *)
Definition NewElection (genesis : list CommitteeMember) (nodeType : bool)
    (db : gmap Z ElectionCommittee) (dbStates : gmap Z (list Z)) : res Election :=
  do genesisCommittee <-
    (if nodeType then
       match genesis with
       | [] => Panic
       | g :: _ => Ok [g]
       end
     else Ok genesis);
  let defaultMembers := map (fun m => setFlag m StateUnusedFlag) genesisCommittee in
  Ok (mkElection genesisCommittee defaultMembers [] ElectModeEtrue None None false
        nodeType db dbStates []).

(** The rewind loop of [Start]: the switch list cut before its first entry
    above the fast head; [None] when no entry is above it. *)
Fixpoint rewindSwitches (fastHead : Z) (switches : list Z) : option (list Z) :=
  match switches with
  | [] => None
  | s :: rest =>
    if fastHead <? s then Some []
    else match rewindSwitches fastHead rest with
         | Some kept => Some (s :: kept)
         | None => None
         end
  end.

(** What [Start] did: [log.Crit] on a missing committee, or the start. *)
Inductive startOutcome := StartCrit | StartDone.

(** The rewind of [Start]: a switch list with an entry above the fast
    head is cut and written back. *)
Definition rewindCommittee (fastHeadNumber : Z) (found : committee) : M committee :=
  match rewindSwitches (Uint64 fastHeadNumber) (switches found) with
  | Some kept =>
    doM_ WriteCommitteeStates (Uint64 (committeeId found)) kept;
    ret (withSwitches found kept)
  | None => ret found
  end.

(** [Start] from [e.committee = currentCommittee] on: the election of the
    next committee when the end of the current one is known, and the
    promotion when the fast head has reached that end. *)
Definition electOnStart (P : Params) (env : Env) (fastHeadNumber : Z)
    (currentCommittee : committee) : M startOutcome :=
  match endFastNumber currentCommittee with
  | None => panic
  | Some endFast =>
    if 0 <? endFast then
      let electEndSnailNumber :=
        lastElectionNumber currentCommittee + ElectionPeriodNumber P in
      let electBeginSnailNumber :=
        electEndSnailNumber - ElectionPeriodNumber P + 1 in
      doM elected <- getElectionMembers P env electBeginSnailNumber electEndSnailNumber;
      doM sw <- ReadCommitteeStates (Uint64 (committeeId currentCommittee + 1));
      let next :=
        mkCommittee (committeeId currentCommittee + 1) (endFast + 1) (Some 0)
          electBeginSnailNumber electEndSnailNumber
          (switchCheckNumber currentCommittee + ElectionPeriodNumber P)
          (Members elected) (Backups elected) sw in
      doM next' <-
        match sw with
        | [] => ret next
        | _ =>
          doM_ WriteCommitteeStates (Uint64 (committeeId next)) [];
          ret (withSwitches next [])
        end;
      doM_ modify (setCommittees (Some currentCommittee) (Some next') true);
      if endFast =? fastHeadNumber then
        doM_ modify (setCommittees (Some next') None false);
        ret StartDone
      else ret StartDone
    else ret StartDone
  end.

(** [Start], up to the launch of the goroutines; [fastHeadNumber] and
    [snailHeadNumber] are the numbers of the current blocks of the two
    chains.  The announcements are sent by a goroutine of their own and
    are left out. *)
Definition Start (P : Params) (env : Env) (fastHeadNumber snailHeadNumber : Z)
    : M startOutcome :=
  doM found <- getCommittee P env fastHeadNumber snailHeadNumber;
  match found with
  | None => ret StartCrit
  | Some found =>
    doM currentCommittee <- rewindCommittee fastHeadNumber found;
    doM_ modify (fun e =>
      setCommittees (Some currentCommittee) (nextCommittee e) (startSwitchover e) e);
    electOnStart P env fastHeadNumber currentCommittee
  end.

(** The store agrees with a committee: the switch list persisted under its
    id is the one it carries. *)
Definition persisted (e : Election) (c : committee) : Prop :=
  default [] (dbCommitteeStates e !! Uint64 (committeeId c)) = switches c.

End election.

(** ** Chain configuration ([params/config.go]) *)

Module params.

(** A [ConfigCompatError]; [What] is the bytes of the string. *)
Record ConfigCompatError := mkConfigCompatError {
  What : list byte;
  StoredConfig : option Z;
  NewConfig : option Z;
  RewindTo : Z
}.

(** [isForked]: a nil fork block or a nil head is not forked. *)
Definition isForked (s head : option Z) : bool :=
  match s, head with
  | Some s, Some head => s <=? head
  | _, _ => false
  end.

Definition configNumEqual (x y : option Z) : bool :=
  match x, y with
  | None, None => true
  | None, Some _ => false
  | Some _, None => false
  | Some x, Some y => x =? y
  end.

Definition isForkIncompatible (s1 s2 head : option Z) : bool :=
  (isForked s1 head || isForked s2 head) && negb (configNumEqual s1 s2).

(** [newCompatError]: the rewind target is one below the lower of the two
    blocks, as a [uint64], when that block is positive. *)
Definition newCompatError (what : list byte) (storedblock newblock : option Z)
    : ConfigCompatError :=
  let rew :=
    match storedblock with
    | None => newblock
    | Some s =>
      match newblock with
      | None => storedblock
      | Some n => if s <? n then storedblock else newblock
      end
    end in
  mkConfigCompatError what storedblock newblock
    match rew with
    | Some r => if 0 <? r then wrap64 (Uint64 r - 1) else 0
    | None => 0
    end.

End params.

(** ** Concrete inputs *)

Module examples.

Import minerva.

Definition hdr (number fastNum diff fruitDiff : Z) (fastHash : Hash) (isFruit : bool)
    : SnailHeader :=
  mkSnailHeader 0 0 0 fastHash fastNum 0 false diff fruitDiff number 0 0 isFruit.

(** A fruit for the fast block [fastNum] with fast hash [fastHash]. *)
Definition fruitOf (fastNum : Z) (fastHash : Hash) (diff : Z) : SnailBlock :=
  mkSnailBlock (hdr 0 fastNum diff 1 fastHash true) None [].

(** An engine whose PoW result has all-ones in the high half and zero in
    the low half, for every nonce. *)
Definition highOnes : Minerva :=
  mkMinerva (fun _ _ => ([], repeat xff 16 ++ repeat x00 16)) (fun _ => 0).

(** An engine whose PoW result is zero. *)
Definition allZero : Minerva :=
  mkMinerva (fun _ _ => ([], repeat x00 32)) (fun _ => 0).

(** A full-block template: one fruit, fast number 5, block difficulty 2,
    fruit difficulty 1. *)
Definition fullTemplate : SnailBlock :=
  mkSnailBlock (hdr 7 5 2 1 9 false) (Some [fruitOf 4 8 1]) [].

(** A fruit template: no fruits, fast number 5. *)
Definition fruitTemplate : SnailBlock :=
  mkSnailBlock (hdr 7 5 2 1 9 false) None [].

(** A block hash that tells the blocks of the examples apart. *)
Definition snailHashOf (b : SnailBlock) : Hash :=
  FastHash (header b) * 1000 + Number (header b) * 10 + Nonce (header b).

Definition snailBlockAt (number nonce parent : Z) (fs : list SnailBlock) : SnailBlock :=
  mkSnailBlock (mkSnailHeader parent 0 0 0 0 0 false 1 1 number 0 nonce false) (Some fs) [].

(** A fork at height 1: [oldHead] carries the fruits of the fast blocks 5
    and 6, [newHead] the fruit of the fast block 1; both sit on
    [parentBlock]. *)
Definition parentBlock : SnailBlock := snailBlockAt 0 0 0 [].
Definition oldHead : SnailBlock :=
  snailBlockAt 1 1 (snailHashOf parentBlock) [fruitOf 5 105 1; fruitOf 6 106 1].
Definition newHead : SnailBlock :=
  snailBlockAt 1 2 (snailHashOf parentBlock) [fruitOf 1 101 1].

(** The pool's view of the chains with snail head [head]: the fast head is
    at 10, every fast block is known, every fruit is valid and fresh. *)
Definition poolEnv (head : SnailBlock) : core.Env :=
  core.mkEnv
    (core.mkSnailChain head
       (fun h n => if (h =? snailHashOf parentBlock) && (n =? 0)
                   then Some parentBlock else None))
    (core.mkFastChain 10 (fun _ _ => true))
    (fun _ => None) (fun _ => None) snailHashOf (fun _ => 0).

(** A batch of [n] fruits, for the fast blocks [2 .. n + 1], with fast
    hashes [100 .. 100 + n - 1]. *)
Definition batch (n : nat) : list SnailBlock :=
  map (fun i => fruitOf (Z.of_nat i + 2) (Z.of_nat i + 100) 1) (seq 0 n).

(** A fruit, and a fruit of higher difficulty for the same fast block. *)
Definition pooledFruit : SnailBlock := fruitOf 5 105 1.
Definition betterFruit : SnailBlock := fruitOf 5 105 2.

(** A pool with room, holding [pooledFruit]. *)
Definition poolWithRoom : core.SnailPool :=
  core.mkSnailPool 8 {[105 := pooledFruit]} {[105 := pooledFruit]} (Some newHead).

(** A pool holding the fruits of the fast blocks 5 and 6, the first of
    them pending. *)
Definition poolOfTwo : core.SnailPool :=
  core.mkSnailPool 8
    (<[105 := fruitOf 5 105 1]> (<[106 := fruitOf 6 106 1]> ∅))
    (<[105 := fruitOf 5 105 1]> ∅) (Some newHead).


(** *** The election engine *)

(** Period 180, confirm interval 12, switchover 50, committees of 4 to 8
    members, one fruit per candidate. *)
Definition params : election.Params := election.mkParams 180 12 50 4 8 1.

Definition memberOf (n : Z) : election.CommitteeMember :=
  election.mkCommitteeMember n [byte_of_Z n] election.StateUsedFlag election.TypeFixed.

Definition genesisMembers : list election.CommitteeMember :=
  [memberOf 1; memberOf 2; memberOf 3; memberOf 4].

(** A snail block at [number] with one fruit, for the fast block
    [10 * number]; the fruit does not stand for election. *)
Definition plainBlock (number : Z) : SnailBlock :=
  snailBlockAt number 0 0 [fruitOf (10 * number) number 1].

(** A snail chain of 400 blocks; [fruitless] has no fruits. *)
Definition snailChainWithout (fruitless : Z) (n : Z) : option SnailBlock :=
  if (1 <=? n) && (n <=? 400) then
    Some (if n =? fruitless then snailBlockAt n 0 0 [] else plainBlock n)
  else None.

Definition electionEnv (get : Z -> option SnailBlock) : election.Env :=
  election.mkEnv 5000 (fun _ => None) 400 get (fun _ => None)
    (fun h => (Difficulty h, 0)) (fun _ => None) (fun pk => SetBytes pk)
    (fun bs => SetBytes bs mod 2 ^ 256) snailHashOf.

(** An engine running committee [cur], with no next committee. *)
Definition engineWith (cur : option election.committee) (next : option election.committee)
    : election.Election :=
  election.mkElection genesisMembers
    (map (fun m => election.setFlag m election.StateUnusedFlag) genesisMembers)
    [] election.ElectModeEtrue cur next false false ∅ ∅ [].

(** Committee 1 as [getCommittee] builds it on the chain of the examples:
    elected from the snail blocks 1 to 168, first fast block 1731. *)
Definition committeeOne : election.committee :=
  election.mkCommittee 1 1731 (Some 0) 1 168 360 genesisMembers [] [].

(** Committee 2 as elected while committee 1 runs: its first fast block
    is 1801. *)
Definition committeeTwo : election.committee :=
  election.mkCommittee 2 1801 (Some 0) 169 348 540 genesisMembers [] [].

(** A switch info for committee 7 that removes one key. *)
Definition strayInfos : election.SwitchInfos :=
  election.mkSwitchInfos 7 [election.mkSwitchEnter [x01] election.StateRemovedFlag].

(** A fruit that stands for election, mined by the key [n]. *)
Definition candidateFruit (n : Z) : SnailBlock :=
  mkSnailBlock (mkSnailHeader 0 n 0 n n 0 true 1 1 0 0 0 true) None [].

(** A window of three snail blocks in which the six keys 11 to 16 mine one
    fruit each. *)
Definition lotteryChain (n : Z) : option SnailBlock :=
  if n =? 1 then Some (snailBlockAt 1 0 0 [candidateFruit 11; candidateFruit 12])
  else if n =? 2 then Some (snailBlockAt 2 0 0 [candidateFruit 13; candidateFruit 14])
  else if n =? 3 then Some (snailBlockAt 3 0 0 [candidateFruit 15; candidateFruit 16])
  else None.

(** The same window on a longer chain. *)
Definition longerChain (n : Z) : option SnailBlock :=
  if (1 <=? n) && (n <=? 3) then lotteryChain n
  else if (4 <=? n) && (n <=? 9) then Some (plainBlock n)
  else None.

(** An environment in which a fruit's key is its coinbase and the hash of
    the lottery spreads the rounds over eight slices of the 256-bit space. *)
Definition lotteryEnv (get : Z -> option SnailBlock) : election.Env :=
  election.mkEnv 5000 (fun _ => None) 400 get (fun _ => None)
    (fun h => (Difficulty h, 0))
    (fun f => Some [byte_of_Z (Block.Coinbase f)])
    (fun pk => SetBytes pk)
    (fun bs => (SetBytes bs mod 8) * 2 ^ 253) snailHashOf.

Definition drawnOf (n : Z) : election.CommitteeMember :=
  election.mkCommitteeMember n [byte_of_Z n] election.StateUnusedFlag election.TypeUnset.

(** A committee with two switch blocks: the fast block 1740 removes the
    key of member 2, the fast block 1750 appends the key of the backup 15. *)
Definition switchedCommittee : election.committee :=
  election.mkCommittee 1 1731 (Some 0) 1 168 360 genesisMembers
    [memberOf 15; memberOf 16] [1740; 1750].

Definition switchFastChain (n : Z) : option election.FastBlock :=
  if n =? 1740 then
    Some (election.mkFastBlock 1740 0
            (election.mkSwitchInfos 1
               [election.mkSwitchEnter [byte_of_Z 2] election.StateRemovedFlag]))
  else if n =? 1750 then
    Some (election.mkFastBlock 1750 0
            (election.mkSwitchInfos 1
               [election.mkSwitchEnter [byte_of_Z 15] election.StateAppendFlag]))
  else None.

Definition switchEnv : election.Env :=
  election.mkEnv 5000 switchFastChain 400 (snailChainWithout 0) (fun _ => None)
    (fun h => (Difficulty h, 0)) (fun _ => None) (fun pk => SetBytes pk)
    (fun bs => SetBytes bs mod 2 ^ 256) snailHashOf.

(** A backup member as [electCommittee] leaves it: flag "unused", type
    "back". *)
Definition backupOf (n : Z) : election.CommitteeMember :=
  election.mkCommitteeMember n [byte_of_Z n] election.StateUnusedFlag election.TypeBack.


(** [switchedCommittee] with backups that are not in use yet. *)
Definition switchedWithBackups : election.committee :=
  election.mkCommittee 1 1731 (Some 0) 1 168 360 genesisMembers
    [backupOf 15; backupOf 16] [1740; 1750].

End examples.

(** * Properties *)

(** ** Go runtime *)

Section GoFacts.

Lemma bigDiv_pos (x y : Z) : 0 < y -> bigDiv x y = Ok (x / y).
Proof.
  intros Hy. unfold bigDiv.
  destruct (Z.eqb_spec y 0) as [->|_]; [lia|].
  rewrite Z.sgn_pos, Z.abs_eq by lia. f_equal. lia.
Qed.

Lemma bigDiv_zero (x : Z) : bigDiv x 0 = Panic.
Proof. reflexivity. Qed.

Lemma Uint64_small (x : Z) : 0 <= x < 2 ^ 64 -> Uint64 x = x.
Proof. intros H. unfold Uint64. rewrite Z.abs_eq by lia. apply Z.mod_small; lia. Qed.

Lemma byte_to_Z_range (b : byte) : 0 <= byte_to_Z b < 256.
Proof. unfold byte_to_Z. destruct b; vm_compute; split; congruence. Qed.

Lemma SetBytes_app (xs ys : list byte) :
  SetBytes (xs ++ ys) = SetBytes xs * 256 ^ Z.of_nat (length ys) + SetBytes ys.
Proof.
  unfold SetBytes. rewrite fold_left_app.
  generalize (fold_left (fun acc b => acc * 256 + byte_to_Z b) xs 0) as a.
  induction ys as [|y ys IH] using rev_ind; intros a.
  - simpl. lia.
  - rewrite !fold_left_app. simpl. rewrite IH, length_app. simpl.
    replace (Z.of_nat (length ys + 1)) with (Z.succ (Z.of_nat (length ys))) by lia.
    rewrite Z.pow_succ_r by lia. lia.
Qed.

Lemma SetBytes_range (xs : list byte) :
  0 <= SetBytes xs < 256 ^ Z.of_nat (length xs).
Proof.
  induction xs as [|x xs IH] using rev_ind.
  - vm_compute. split; congruence.
  - rewrite SetBytes_app, length_app. simpl length.
    replace (Z.of_nat (length xs + 1)) with (Z.succ (Z.of_nat (length xs))) by lia.
    rewrite Z.pow_succ_r by lia.
    assert (SetBytes [x] = byte_to_Z x) as -> by (unfold SetBytes; simpl; lia).
    pose proof (byte_to_Z_range x). change (256 ^ Z.of_nat 1) with 256. nia.
Qed.

(** The two slices the sealer compares are the high and the low 128 bits of
    the 32-byte result. *)
Lemma SetBytes_halves (result : list byte) :
  length result = 32%nat ->
  SetBytes (firstn 16 result) = SetBytes result / 2 ^ 128 /\
  SetBytes (skipn 16 result) = SetBytes result mod 2 ^ 128.
Proof.
  intros Hlen.
  assert (Hsplit : result = firstn 16 result ++ skipn 16 result)
    by (symmetry; apply firstn_skipn).
  assert (Hl : length (skipn 16 result) = 16%nat) by (rewrite length_skipn; lia).
  pose proof (SetBytes_range (skipn 16 result)) as Hr. rewrite Hl in Hr.
  change (256 ^ Z.of_nat 16) with (2 ^ 128) in Hr.
  assert (Heq : SetBytes result =
                SetBytes (firstn 16 result) * 2 ^ 128 + SetBytes (skipn 16 result)).
  { rewrite Hsplit at 1. rewrite SetBytes_app, Hl. reflexivity. }
  split.
  - rewrite Heq. rewrite Z.div_add_l by lia. rewrite Z.div_small by lia. lia.
  - rewrite Heq. rewrite Z.add_comm, Z.mod_add by lia.
    symmetry. apply Z.mod_small. lia.
Qed.

Lemma byte_of_Z_to_Z (z : Z) : 0 <= z < 256 -> byte_to_Z (byte_of_Z z) = z.
Proof.
  intros Hz. unfold byte_to_Z, byte_of_Z.
  destruct (Byte.of_N (Z.to_N z)) as [b|] eqn:Hb.
  - apply Byte.to_of_N in Hb. rewrite Hb. lia.
  - apply Byte.of_N_None_iff in Hb. lia.
Qed.

(** [be_bytes] writes the low [n] bytes: read back, they are the number
    modulo [256^n]. *)
Lemma SetBytes_be_bytes (n : nat) :
  forall z, SetBytes (be_bytes n z) = z mod 256 ^ Z.of_nat n.
Proof.
  induction n as [|n IH]; intros z.
  - simpl. rewrite Z.mod_1_r. reflexivity.
  - cbn [be_bytes]. rewrite SetBytes_app, IH. cbn [length].
    assert (Hlast : SetBytes [byte_of_Z (z mod 256)] = z mod 256).
    { unfold SetBytes. simpl. apply byte_of_Z_to_Z. apply Z.mod_pos_bound. lia. }
    rewrite Hlast. change (256 ^ Z.of_nat 1) with 256.
    replace (Z.of_nat (S n)) with (Z.succ (Z.of_nat n)) by lia.
    rewrite Z.pow_succ_r by lia.
    rewrite Z.rem_mul_r by lia. lia.
Qed.

(** The 32 bytes of a hash read back as the hash. *)
Lemma SetBytes_HashBytes (h : Hash) : 0 <= h < 2 ^ 256 -> SetBytes (HashBytes h) = h.
Proof.
  intros Hh. unfold HashBytes. rewrite SetBytes_be_bytes.
  change (256 ^ Z.of_nat 32) with (2 ^ 256). apply Z.mod_small. exact Hh.
Qed.

Example bigBytes_258 : bigBytes 258 = [x01; x02].
Proof. reflexivity. Qed.

Example bigBytes_zero : bigBytes 0 = [].
Proof. reflexivity. Qed.

Example SetBytes_258 : SetBytes [x01; x02] = 258.
Proof. reflexivity. Qed.

Example BytesToHash_short : BytesToHash [x01; x02] = 258.
Proof. reflexivity. Qed.

Example bigDiv_euclid : bigDiv 7 (-2) = Ok (-3) /\ bigDiv (-7) 2 = Ok (-4).
Proof. split; reflexivity. Qed.

End GoFacts.

(** ** The snail sealer *)

Section MinervaSpec.

Import minerva.

Variable m : Minerva.

Lemma search_sound (fuel : nat) (block : SnailBlock) (hash : list byte)
    (target fruitTarget : Z) :
  forall (header : SnailHeader) (nonce n : Z) (s : SnailBlock),
    In (n, s) (search m fuel block hash target fruitTarget header nonce) ->
    sealMeets m block hash target fruitTarget (FastNumber header) n s.
Proof.
  induction fuel as [|fuel IH]; intros header nonce n s Hin; simpl in Hin.
  - contradiction.
  - destruct (truehashFull m hash nonce) as [digest result] eqn:Hth.
    destruct (Z.leb_spec (SetBytes (firstn 16 result)) target) as [Hhigh|Hhigh].
    + destruct (fruits block) as [fs|] eqn:Hfs.
      * destruct Hin as [Heq|[]]. inversion Heq; subst n s.
        unfold sealMeets. rewrite Hth. simpl. rewrite Hfs.
        repeat split; try reflexivity. left. repeat split; [congruence|assumption].
      * apply IH in Hin. assumption.
    + destruct (Z.eqb_spec (Uint64 (FastNumber header)) 0) as [Hzero|Hnz]; simpl in Hin.
      * apply IH in Hin. assumption.
      * destruct (Z.leb_spec (SetBytes (skipn 16 result)) fruitTarget) as [Hlow|Hlow].
        -- destruct Hin as [Heq|Hin].
           ++ inversion Heq; subst n s.
              unfold sealMeets. rewrite Hth. simpl.
              repeat split; try reflexivity. right. repeat split; assumption.
           ++ apply IH in Hin. assumption.
        -- apply IH in Hin. assumption.
Qed.

(** A fruit seal does not end the search: every later nonce is still tried. *)
Lemma search_block_seal_last (fuel : nat) (block : SnailBlock) (hash : list byte)
    (target fruitTarget : Z) :
  forall (header : SnailHeader) (nonce : Z) (pre post : list (Z * SnailBlock))
         (n : Z) (s : SnailBlock),
    search m fuel block hash target fruitTarget header nonce = pre ++ (n, s) :: post ->
    Block.IsFruit s = false -> post = [].
Proof.
  induction fuel as [|fuel IH]; intros header nonce pre post n s Heq Hs; simpl in Heq.
  - destruct pre; discriminate.
  - destruct (truehashFull m hash nonce) as [digest result].
    destruct (SetBytes (firstn 16 result) <=? target).
    + destruct (fruits block).
      * destruct pre as [|p pre]; simpl in Heq.
        -- inversion Heq. reflexivity.
        -- inversion Heq. destruct pre; discriminate.
      * eapply IH; eassumption.
    + destruct (negb (Uint64 (FastNumber header) =? 0)).
      * destruct (SetBytes (skipn 16 result) <=? fruitTarget).
        -- destruct pre as [|p pre]; simpl in Heq.
           ++ inversion Heq; subst. simpl in Hs. discriminate.
           ++ inversion Heq. eapply IH; eassumption.
        -- eapply IH; eassumption.
      * eapply IH; eassumption.
Qed.

(** C1 (as amended).  With positive difficulties [mineSnail] returns, and
    every seal it offers carries its nonce and is of one of two kinds: a
    block seal ([is-fruit = false]), offered only by a template that carries
    fruits, whose high 128 bits are at most [2^128 / block-difficulty]; or a
    fruit seal ([is-fruit = true]), offered only when the fast number is
    nonzero, whose high 128 bits exceed the block target and whose low 128
    bits are at most [2^128 / fruit-difficulty].  A template without fruits
    offers fruit seals only. *)
Theorem mineSnail_seal_meets_target (fuel : nat) (block : SnailBlock) (seed : Z) :
  0 < Difficulty (header block) ->
  0 < FruitDifficulty (header block) ->
  exists seals,
    mineSnail m fuel block seed = Ok seals /\
    forall n s, In (n, s) seals ->
      Nonce (header s) = n /\
      ((Block.IsFruit s = false /\ fruits block <> None /\
        high128 m block n <= 2 ^ 128 / Difficulty (header block))
       \/
       (Block.IsFruit s = true /\ Uint64 (FastNumber (header block)) <> 0 /\
        2 ^ 128 / Difficulty (header block) < high128 m block n /\
        low128 m block n <= 2 ^ 128 / FruitDifficulty (header block))) /\
      (fruits block = None ->
        Block.IsFruit s = true /\
        low128 m block n <= 2 ^ 128 / FruitDifficulty (header block)).
Proof.
  intros HD HF. unfold mineSnail. unfold Block.Header.
  rewrite (bigDiv_pos _ _ HD), (bigDiv_pos _ _ HF). simpl.
  eexists. split; [reflexivity|].
  intros n s Hin. apply search_sound in Hin.
  destruct Hin as (Hn & _ & Hkind).
  split; [assumption|].
  unfold high128, low128, Block.Header, maxUint128 in *.
  split.
  - destruct Hkind as [(Hf & Hfs & Hh)|(Hf & Hnz & Hh & Hl)]; [left|right]; auto.
  - intros Hnone.
    destruct Hkind as [(Hf & Hfs & Hh)|(Hf & Hnz & Hh & Hl)]; [congruence|auto].
Qed.

End MinervaSpec.

(** A block seal ends the search; a template without fruits whose every
    nonce meets the block target is never sealed; a fruit template is sealed
    once per nonce that meets the fruit target only. *)
Example mineSnail_block_seal_once :
  exists s, minerva.mineSnail examples.allZero 5 examples.fullTemplate 0 = Ok [(0, s)] /\
            Block.IsFruit s = false.
Proof. eexists. split; [vm_compute; reflexivity|reflexivity]. Qed.

Example mineSnail_no_block_without_fruits :
  minerva.mineSnail examples.allZero 5 examples.fruitTemplate 0 = Ok [].
Proof. vm_compute. reflexivity. Qed.

Example mineSnail_fruit_seals :
  map fst (match minerva.mineSnail examples.highOnes 3 examples.fruitTemplate 0 with
           | Ok seals => seals
           | Panic => []
           end) = [0; 1; 2].
Proof. vm_compute. reflexivity. Qed.

Example mineSnail_zero_difficulty_panics :
  minerva.mineSnail examples.allZero 5
    (mkSnailBlock (examples.hdr 7 5 0 1 9 false) None []) 0 = Panic.
Proof. reflexivity. Qed.

(** The theorem at a fruit template, for an engine whose high half is above
    the block target and whose low half is zero. *)
Lemma mineSnail_seal_meets_target_witness :
  0 < Difficulty (header examples.fruitTemplate) /\
  0 < FruitDifficulty (header examples.fruitTemplate) /\
  exists seals,
    minerva.mineSnail examples.highOnes 3 examples.fruitTemplate 0 = Ok seals /\
    forall n s, In (n, s) seals ->
      Nonce (header s) = n /\
      ((Block.IsFruit s = false /\ fruits examples.fruitTemplate <> None /\
        minerva.high128 examples.highOnes examples.fruitTemplate n
          <= 2 ^ 128 / Difficulty (header examples.fruitTemplate))
       \/
       (Block.IsFruit s = true /\
        Uint64 (FastNumber (header examples.fruitTemplate)) <> 0 /\
        2 ^ 128 / Difficulty (header examples.fruitTemplate)
          < minerva.high128 examples.highOnes examples.fruitTemplate n /\
        minerva.low128 examples.highOnes examples.fruitTemplate n
          <= 2 ^ 128 / FruitDifficulty (header examples.fruitTemplate))) /\
      (fruits examples.fruitTemplate = None ->
        Block.IsFruit s = true /\
        minerva.low128 examples.highOnes examples.fruitTemplate n
          <= 2 ^ 128 / FruitDifficulty (header examples.fruitTemplate)).
Proof.
  assert (H1 : 0 < Difficulty (header examples.fruitTemplate)) by (simpl; lia).
  assert (H2 : 0 < FruitDifficulty (header examples.fruitTemplate)) by (simpl; lia).
  split; [exact H1|]. split; [exact H2|].
  exact (mineSnail_seal_meets_target examples.highOnes 3 examples.fruitTemplate 0 H1 H2).
Defined.

(** The sentence on full-block seals fails as the spec states it: a template
    that carries a fruit and has a nonzero fast number is offered back as a
    fruit seal, with [is-fruit = true] and high 128 bits above the block
    target. *)
Lemma mineSnail_full_template_fruit_seal :
  exists n s f,
    minerva.mineSnail examples.highOnes 1 examples.fullTemplate 0 = Ok [(n, s)] /\
    fruits examples.fullTemplate = Some [f] /\
    Block.IsFruit s = true /\
    ~ (minerva.high128 examples.highOnes examples.fullTemplate n
         <= 2 ^ 128 / Difficulty (header examples.fullTemplate)).
Proof.
  eexists _, _, _. split; [vm_compute; reflexivity|].
  split; [reflexivity|]. split; [reflexivity|].
  vm_compute. intros H. apply H. reflexivity.
Qed.

(** ** The fruit pool: invariants of the two maps *)

Section PoolInvariants.

Import core.

Lemma size_insert_le (m : gmap Hash SnailBlock) (h : Hash) (f : SnailBlock) :
  (size (<[h := f]> m) <= S (size m))%nat.
Proof. rewrite map_size_insert. destruct (m !! h); simpl; lia. Qed.

Lemma size_delete_le (m : gmap Hash SnailBlock) (h : Hash) :
  (size (delete h m) <= size m)%nat.
Proof. rewrite map_size_delete. destruct (m !! h); simpl; lia. Qed.

(** *** [appendFruit] *)

Lemma appendFruit_FruitCount pool fruit b :
  FruitCount (fst (appendFruit pool fruit b)) = FruitCount pool.
Proof. unfold appendFruit. destruct (FruitCount pool <=? lenAll pool); reflexivity. Qed.

Lemma appendFruit_pendingSubset pool fruit b :
  pendingSubset pool -> pendingSubset (fst (appendFruit pool fruit b)).
Proof.
  unfold pendingSubset, appendFruit. intros H.
  destruct (FruitCount pool <=? lenAll pool); simpl; [assumption|].
  destruct b; rewrite ?dom_insert_L; set_solver.
Qed.

Lemma appendFruit_keyed pool fruit b :
  keyedByFastHash pool -> keyedByFastHash (fst (appendFruit pool fruit b)).
Proof.
  unfold keyedByFastHash, appendFruit. intros H.
  destruct (FruitCount pool <=? lenAll pool); simpl; [assumption|].
  intros h f. rewrite lookup_insert. case_decide as Hk.
  - intros [= <-]. assumption.
  - apply H.
Qed.

Lemma appendFruit_withinCap pool fruit b :
  withinCap pool -> withinCap (fst (appendFruit pool fruit b)).
Proof.
  unfold withinCap, appendFruit, lenAll. intros H.
  destruct (Z.leb_spec (FruitCount pool) (Z.of_nat (size (allFruits pool)))) as [Hfull|Hroom];
    simpl; [assumption|].
  pose proof (size_insert_le (allFruits pool) (Block.FastHash fruit) fruit). lia.
Qed.

(** *** Deletions *)

Lemma discard_pendingSubset pool h : pendingSubset pool -> pendingSubset (discard pool h).
Proof. unfold pendingSubset, discard. simpl. rewrite !dom_delete_L. set_solver. Qed.

Lemma discard_keyed pool h : keyedByFastHash pool -> keyedByFastHash (discard pool h).
Proof.
  unfold keyedByFastHash, discard. simpl. intros H k f Hk.
  apply lookup_delete_Some in Hk as [_ Hk]. eauto.
Qed.

Lemma discard_withinCap pool h : withinCap pool -> withinCap (discard pool h).
Proof.
  unfold withinCap, discard, lenAll. simpl. intros H.
  pose proof (size_delete_le (allFruits pool) h). lia.
Qed.

(** A range over [allFruits] keeps whatever its body keeps. *)
Lemma rangeAllFruits_keeps (I : SnailPool -> Prop) pool body :
  (forall p f, I p -> I (body p f)) -> I pool -> I (rangeAllFruits pool body).
Proof.
  intros Hbody. unfold rangeAllFruits.
  generalize (map_to_list (allFruits pool)) as l. intros l. revert pool.
  induction l as [|kv l IH]; intros pool Hp; simpl; [assumption|].
  apply IH. destruct (allFruits pool !! kv.1); auto.
Qed.

Lemma removeWithLock_keeps (I : SnailPool -> Prop) pool fruits :
  (forall p h, I p -> I (discard p h)) -> I pool -> I (removeWithLock pool fruits).
Proof.
  intros Hd Hp. unfold removeWithLock. destruct (last fruits); [|assumption].
  apply rangeAllFruits_keeps; [|assumption].
  intros p f Hi. destruct (Block.FastNumber f <=? _); auto.
Qed.

Lemma removeUnfreshFruit_keeps (I : SnailPool -> Prop) env pool :
  (forall p h, I p -> I (discard p h)) -> I pool -> I (removeUnfreshFruit env pool).
Proof.
  intros Hd Hp. unfold removeUnfreshFruit.
  apply rangeAllFruits_keeps; [|assumption].
  intros p f Hi. destruct (VerifyFreshness env _); [|assumption].
  case_decide; auto.
Qed.

Lemma resetTail_keeps (I : SnailPool -> Prop) env pool newHead :
  (forall p h, I p -> I (discard p h)) ->
  (forall p hd, I p -> I (mkSnailPool (FruitCount p) (allFruits p) (fruitPending p) hd)) ->
  I pool -> I (resetTail env pool newHead).
Proof.
  intros Hd Hh Hp. unfold resetTail. apply Hh.
  apply removeUnfreshFruit_keeps; [assumption|].
  apply removeWithLock_keeps; assumption.
Qed.

(** *** Re-injection *)

Lemma insertRestFruits_pendingSubset pool reinject :
  pendingSubset pool -> pendingSubset (insertRestFruits pool reinject).
Proof.
  unfold insertRestFruits. revert pool.
  induction reinject as [|f l IH]; intros pool H; simpl; [assumption|].
  apply IH. unfold pendingSubset in *. simpl. rewrite !dom_insert_L. set_solver.
Qed.

Lemma insertRestFruits_keyed pool reinject :
  keyedByFastHash pool -> keyedByFastHash (insertRestFruits pool reinject).
Proof.
  unfold insertRestFruits. revert pool.
  induction reinject as [|f l IH]; intros pool H; simpl; [assumption|].
  apply IH. unfold keyedByFastHash in *. simpl.
  intros h g. rewrite lookup_insert. case_decide.
  - intros [= <-]. assumption.
  - apply H.
Qed.

(** *** [addFruit] *)

(** [addFruit] leaves the pool as it is or ends in [appendFruit]. *)
Lemma addFruitLocked_cases env pool fruit :
  fst (addFruitLocked env pool fruit) = pool \/
  exists b, addFruitLocked env pool fruit = appendFruit pool fruit b.
Proof.
  unfold addFruitLocked.
  repeat (case_match; try case_decide); simpl; eauto.
Qed.

Lemma addFruit_cases env pool fruit pool' err :
  addFruit env pool fruit = Ok (pool', err) ->
  pool' = pool \/ exists b, (pool', err) = appendFruit pool fruit b.
Proof.
  unfold addFruit. intros H.
  assert (Hl : (pool', err) = (pool, None) \/ (pool', err) = addFruitLocked env pool fruit).
  { destruct (0 <? Block.NumberU64 (CurrentBlock (chain env))).
    - destruct (lastFruit _) as [lf|]; simpl in H; [|discriminate].
      destruct (Block.FastNumber fruit <=? Block.FastNumber lf); simpl in H;
        inversion H; auto.
    - simpl in H. inversion H; auto. }
  destruct Hl as [Hl|Hl]; [inversion Hl; auto|].
  destruct (addFruitLocked_cases env pool fruit) as [Hc|[b Hb]].
  - left. rewrite <- Hl in Hc. exact Hc.
  - right. exists b. congruence.
Qed.

Lemma addFruit_keeps (I : SnailPool -> Prop) env pool fruit pool' err :
  (forall p f b, I p -> I (fst (appendFruit p f b))) ->
  I pool -> addFruit env pool fruit = Ok (pool', err) -> I pool'.
Proof.
  intros Ha Hp H. apply addFruit_cases in H as [->|[b Hb]]; [assumption|].
  specialize (Ha pool fruit b Hp). rewrite <- Hb in Ha. assumption.
Qed.

(** *** Every reachable state *)

Lemma reset_keeps (I : SnailPool -> Prop) env fuel pool oldHead newHead pool' :
  (forall p h, I p -> I (discard p h)) ->
  (forall p hd, I p -> I (mkSnailPool (FruitCount p) (allFruits p) (fruitPending p) hd)) ->
  (forall p l, I p -> I (insertRestFruits p l)) ->
  I pool -> reset env fuel pool oldHead newHead = Some (Ok pool') -> I pool'.
Proof.
  intros Hd Hh Hi Hp. unfold reset.
  destruct oldHead as [old|].
  - destruct newHead as [new|]; [|discriminate].
    case_decide.
    + intros [= <-]. apply resetTail_keeps; assumption.
    + destruct (64 <? _).
      * intros [= <-]. apply resetTail_keeps; assumption.
      * destruct (walkReorg env fuel old new) as [[[d i]|]|]; try discriminate.
        -- intros [= <-]. apply resetTail_keeps; auto.
        -- intros [= <-]. assumption.
  - intros [= <-]. apply resetTail_keeps; assumption.
Qed.

Lemma step_pendingSubset pool pool' :
  step pool pool' -> pendingSubset pool -> pendingSubset pool'.
Proof.
  intros Hs Hp. destruct Hs.
  - eapply (addFruit_keeps pendingSubset); eauto using appendFruit_pendingSubset.
  - eapply (reset_keeps pendingSubset);
      eauto using discard_pendingSubset, insertRestFruits_pendingSubset.
  - apply insertRestFruits_pendingSubset; assumption.
  - apply removeWithLock_keeps; auto using discard_pendingSubset.
  - apply removeUnfreshFruit_keeps; auto using discard_pendingSubset.
  - apply discard_pendingSubset; assumption.
Qed.

Lemma step_keyed pool pool' :
  step pool pool' -> keyedByFastHash pool -> keyedByFastHash pool'.
Proof.
  intros Hs Hp. destruct Hs.
  - eapply (addFruit_keeps keyedByFastHash); eauto using appendFruit_keyed.
  - eapply (reset_keeps keyedByFastHash);
      eauto using discard_keyed, insertRestFruits_keyed.
  - apply insertRestFruits_keyed; assumption.
  - apply removeWithLock_keeps; auto using discard_keyed.
  - apply removeUnfreshFruit_keeps; auto using discard_keyed.
  - apply discard_keyed; assumption.
Qed.

Lemma NewSnailPool_invariants env fruitCount :
  0 <= fruitCount ->
  pendingSubset (NewSnailPool env fruitCount) /\
  keyedByFastHash (NewSnailPool env fruitCount) /\
  withinCap (NewSnailPool env fruitCount).
Proof.
  intros Hc. unfold NewSnailPool. repeat split.
  - apply resetTail_keeps; auto using discard_pendingSubset.
    unfold pendingSubset. simpl. set_solver.
  - apply resetTail_keeps; auto using discard_keyed.
    unfold keyedByFastHash. simpl. intros h f. rewrite lookup_empty. discriminate.
  - apply resetTail_keeps; auto using discard_withinCap.
Qed.

(** In every reachable state the pending keys are keys of [allFruits] and
    every fruit is stored under its own fast hash. *)
Lemma reachable_pendingSubset_keyed fruitCount pool :
  0 <= fruitCount ->
  reachable fruitCount pool -> pendingSubset pool /\ keyedByFastHash pool.
Proof.
  intros Hc Hr. induction Hr as [env|pool pool' Hr [IH1 IH2] Hs].
  - destruct (NewSnailPool_invariants env fruitCount Hc) as (H1 & H2 & _). auto.
  - split; [eapply step_pendingSubset|eapply step_keyed]; eassumption.
Qed.

(** Every operation but the re-injection of [reset] keeps the pool within
    its cap. *)
Lemma cap_kept_without_reinjection pool pool' :
  withinCap pool ->
  (exists env fruit err, addFruit env pool fruit = Ok (pool', err)) \/
  (exists fruits, pool' = removeWithLock pool fruits) \/
  (exists env, pool' = removeUnfreshFruit env pool) \/
  (exists h, pool' = RemovePendingFruitByFastHash pool h) \/
  (exists env newHead, pool' = resetTail env pool newHead) ->
  withinCap pool'.
Proof.
  intros Hp [(env & fruit & err & H)|[(fs & ->)|[(env & ->)|[(h & ->)|(env & nh & ->)]]]].
  - eapply (addFruit_keeps withinCap); eauto using appendFruit_withinCap.
  - apply removeWithLock_keeps; auto using discard_withinCap.
  - apply removeUnfreshFruit_keeps; auto using discard_withinCap.
  - apply discard_withinCap; assumption.
  - apply resetTail_keeps; auto using discard_withinCap.
Qed.

End PoolInvariants.

(** ** The fruit pool: the cap under re-injection *)

Section PoolCap.

Import core examples.

(** C2.  The cap is not an invariant of the code.  A pool with cap 1 is
    created on [oldHead]; the head moves to the sibling [newHead]; [reset]
    re-injects the two fruits of the discarded block through
    [insertRestFruits], which does not test the cap that [appendFruit]
    tests.  The state is reachable and holds two fruits. *)
Theorem reset_reinjection_exceeds_cap :
  exists pool',
    reset (poolEnv newHead) 1 (NewSnailPool (poolEnv oldHead) 1)
      (Some oldHead) (Some newHead) = Some (Ok pool') /\
    reachable 1 pool' /\
    pendingSubset pool' /\
    FruitCount pool' = 1 /\
    lenAll pool' = 2 /\
    ~ withinCap pool'.
Proof.
  destruct (reset (poolEnv newHead) 1 (NewSnailPool (poolEnv oldHead) 1)
              (Some oldHead) (Some newHead)) as [[pool'|]|] eqn:Hreset;
    [|exfalso; vm_compute in Hreset; discriminate..].
  exists pool'. split; [reflexivity|].
  assert (Hreach : reachable 1 pool').
  { eapply reachable_step; [apply reachable_new|]. eapply step_reset. exact Hreset. }
  assert (Hlen : FruitCount pool' = 1 /\ lenAll pool' = 2).
  { injection Hreset as <-. split; vm_compute; reflexivity. }
  destruct Hlen as [Hcount Hlen].
  repeat split; try assumption.
  - apply (reachable_pendingSubset_keyed 1 pool'); [lia|assumption].
  - unfold withinCap. lia.
Qed.

End PoolCap.

(** ** The fruit pool: admission *)

Section PoolAdmission.

Import core.

(** A fruit beyond the head passes the first check of [addFruit]. *)
Lemma addFruit_beyondHead env pool fruit :
  beyondHead env fruit = true ->
  addFruit env pool fruit = Ok (addFruitLocked env pool fruit).
Proof.
  unfold beyondHead, addFruit. intros H.
  destruct (0 <? Block.NumberU64 (CurrentBlock (chain env))); simpl in *; [|reflexivity].
  unfold lastFruit. destruct (last _) as [lf|]; [|discriminate]. simpl.
  apply Z.ltb_lt in H.
  destruct (Z.leb_spec (Block.FastNumber fruit) (Block.FastNumber lf)); [lia|reflexivity].
Qed.

Lemma appendFruit_room pool fruit :
  lenAll pool < FruitCount pool ->
  appendFruit pool fruit true = (withFruit pool fruit, None).
Proof.
  intros H. unfold appendFruit.
  destruct (Z.leb_spec (FruitCount pool) (lenAll pool)); [lia|reflexivity].
Qed.

Lemma appendFruit_full pool fruit b :
  FruitCount pool <= lenAll pool ->
  appendFruit pool fruit b = (pool, Some ErrExceedNumber).
Proof.
  intros H. unfold appendFruit.
  destruct (Z.leb_spec (FruitCount pool) (lenAll pool)); [reflexivity|lia].
Qed.

Lemma comparable_spec env fruit :
  comparable env fruit = true ->
  beyondHead env fruit = true /\
  Block.FastNumber fruit <= fastCurrentNumber (fastchain env) /\
  fastGetBlock (fastchain env) (Block.FastHash fruit)
    (Uint64 (Block.FastNumber fruit)) = true /\
  ValidateFruit env fruit = None.
Proof.
  unfold comparable. rewrite !andb_true_iff, Z.leb_le, bool_decide_eq_true. tauto.
Qed.

(** The comparison of [addFruitLocked], for a fruit that reaches it. *)
Lemma addFruitLocked_conflict env pool fruit g :
  allFruits pool !! Block.FastHash fruit = Some g ->
  comparable env fruit = true ->
  addFruitLocked env pool fruit =
    if Block.Difficulty fruit <? Block.Difficulty g then (pool, None)
    else if (Block.Difficulty fruit =? Block.Difficulty g)
            && (SnailHash env g <=? SnailHash env fruit) then (pool, None)
    else appendFruit pool fruit true.
Proof.
  intros Hg Hc. apply comparable_spec in Hc as (_ & Hfast & Hfb & Hv).
  unfold addFruitLocked.
  destruct (Z.ltb_spec (fastCurrentNumber (fastchain env)) (Block.FastNumber fruit)); [lia|].
  rewrite Hfb, Hg, Hv. simpl.
  destruct (Block.Difficulty fruit <? Block.Difficulty g); [reflexivity|].
  destruct (Block.Difficulty fruit =? Block.Difficulty g); simpl; [|reflexivity].
  destruct (SnailHash env g <=? SnailHash env fruit); reflexivity.
Qed.

(** C4.  Let the fast hash of [fruit] index the pooled fruit [g], and let
    [fruit] pass the admission steps that come before the comparison: it is
    beyond the last fruit of the snail head, it is not a future fruit, its
    fast block is known, and full fruit validation passes.  If its
    difficulty is lower than that of [g] it is dropped and the pool is
    unchanged; if the difficulties are equal the fruit with the lower block
    hash is kept ([g] on a tie); if its difficulty is higher, or equal with
    a lower hash, it replaces [g] in all-fruits and is marked pending, the
    pool being below its cap as the admission rule requires of every
    insertion (at the cap the answer is ExceedNumber and the pool is
    unchanged). *)
Theorem addFruit_conflict env pool fruit g :
  allFruits pool !! Block.FastHash fruit = Some g ->
  comparable env fruit = true ->
  (Block.Difficulty fruit < Block.Difficulty g ->
     addFruit env pool fruit = Ok (pool, None)) /\
  (Block.Difficulty fruit = Block.Difficulty g ->
   SnailHash env g <= SnailHash env fruit ->
     addFruit env pool fruit = Ok (pool, None)) /\
  (Block.Difficulty g < Block.Difficulty fruit \/
   (Block.Difficulty fruit = Block.Difficulty g /\
    SnailHash env fruit < SnailHash env g) ->
     (lenAll pool < FruitCount pool ->
        addFruit env pool fruit = Ok (withFruit pool fruit, None) /\
        allFruits (withFruit pool fruit) !! Block.FastHash fruit = Some fruit /\
        fruitPending (withFruit pool fruit) !! Block.FastHash fruit = Some fruit) /\
     (FruitCount pool <= lenAll pool ->
        addFruit env pool fruit = Ok (pool, Some ErrExceedNumber))).
Proof.
  intros Hg Hc.
  pose proof (comparable_spec env fruit Hc) as (Hb & _).
  rewrite (addFruit_beyondHead env pool fruit Hb).
  rewrite (addFruitLocked_conflict env pool fruit g Hg Hc).
  split; [|split].
  - intros Hlt. destruct (Z.ltb_spec (Block.Difficulty fruit) (Block.Difficulty g));
      [reflexivity|lia].
  - intros Heq Hhash.
    destruct (Z.ltb_spec (Block.Difficulty fruit) (Block.Difficulty g)); [reflexivity|].
    destruct (Z.eqb_spec (Block.Difficulty fruit) (Block.Difficulty g)); [|lia].
    destruct (Z.leb_spec (SnailHash env g) (SnailHash env fruit)); [reflexivity|lia].
  - intros Hwin.
    assert (Happ : (if Block.Difficulty fruit <? Block.Difficulty g then (pool, None)
                    else if (Block.Difficulty fruit =? Block.Difficulty g)
                            && (SnailHash env g <=? SnailHash env fruit) then (pool, None)
                    else appendFruit pool fruit true) = appendFruit pool fruit true).
    { destruct (Z.ltb_spec (Block.Difficulty fruit) (Block.Difficulty g)); [lia|].
      destruct (Z.eqb_spec (Block.Difficulty fruit) (Block.Difficulty g)); simpl;
        [|reflexivity].
      destruct (Z.leb_spec (SnailHash env g) (SnailHash env fruit)); [lia|reflexivity]. }
    rewrite Happ. split.
    + intros Hroom. rewrite (appendFruit_room pool fruit Hroom).
      split; [reflexivity|]. unfold withFruit. simpl.
      rewrite !lookup_insert_eq. split; reflexivity.
    + intros Hfull. rewrite (appendFruit_full pool fruit true Hfull). reflexivity.
Qed.

End PoolAdmission.

(** The theorem at a pool with room that holds [pooledFruit], for the
    fruit of higher difficulty and the same fast hash. *)
Lemma addFruit_conflict_witness :
  core.allFruits examples.poolWithRoom !! Block.FastHash examples.betterFruit
    = Some examples.pooledFruit /\
  core.comparable (examples.poolEnv examples.newHead) examples.betterFruit = true /\
  core.addFruit (examples.poolEnv examples.newHead) examples.poolWithRoom
    examples.betterFruit
    = Ok (core.withFruit examples.poolWithRoom examples.betterFruit, None).
Proof.
  assert (H1 : core.allFruits examples.poolWithRoom !! Block.FastHash examples.betterFruit
               = Some examples.pooledFruit) by reflexivity.
  assert (H2 : core.comparable (examples.poolEnv examples.newHead) examples.betterFruit
               = true) by reflexivity.
  split; [exact H1|]. split; [exact H2|].
  destruct (addFruit_conflict (examples.poolEnv examples.newHead) examples.poolWithRoom
              examples.betterFruit examples.pooledFruit H1 H2) as (_ & _ & Hwin).
  apply Hwin.
  - left. vm_compute. reflexivity.
  - vm_compute. reflexivity.
Defined.

(** ** The fruit pool: the remote-add entry point *)

Section PoolRemoteAdd.

Import core.

Lemma AddRemoteFruits_length env fruits :
  length (fst (AddRemoteFruits env fruits)) = length fruits.
Proof.
  induction fruits as [|f l IH]; simpl; [reflexivity|].
  destruct (AddRemoteFruits env l) as [errs queue]. simpl in IH.
  destruct (validateFruit env f); simpl; congruence.
Qed.

Lemma AddRemoteFruits_aligned env fruits :
  forall (i : nat) (f : SnailBlock),
    fruits !! i = Some f ->
    fst (AddRemoteFruits env fruits) !! i = Some (validateFruit env f).
Proof.
  induction fruits as [|g l IH]; intros i f Hi; [discriminate|].
  simpl. destruct (AddRemoteFruits env l) as [errs queue] eqn:Hl. simpl in IH.
  destruct i as [|i]; simpl in Hi.
  - inversion Hi; subst g. destruct (validateFruit env f); reflexivity.
  - specialize (IH i f Hi). destruct (validateFruit env g); simpl; exact IH.
Qed.

Lemma AddRemoteFruits_queue env fruits :
  snd (AddRemoteFruits env fruits)
    = List.filter (fun f => bool_decide (validateFruit env f = None)) fruits.
Proof.
  induction fruits as [|f l IH]; simpl; [reflexivity|].
  destruct (AddRemoteFruits env l) as [errs queue]. simpl in IH.
  destruct (validateFruit env f) eqn:Hv; simpl; congruence.
Qed.

Lemma validateFruit_cases env f :
  validateFruit env f = None \/ validateFruit env f = Some ErrInvalidSign.
Proof. unfold validateFruit. case_decide; auto. Qed.

Lemma AddRemoteFruits_errors env fruits (e : option error) :
  In e (fst (AddRemoteFruits env fruits)) -> e = None \/ e = Some ErrInvalidSign.
Proof.
  induction fruits as [|f l IH]; simpl; [contradiction|].
  destruct (AddRemoteFruits env l) as [errs queue]. simpl in IH.
  destruct (validateFruit_cases env f) as [Hv|Hv]; rewrite Hv; simpl;
    intros [<-|Hin]; auto.
Qed.

Lemma AddRemoteFruits_valid env fruits :
  Forall (fun f => validateFruit env f = None) fruits ->
  AddRemoteFruits env fruits = (replicate (length fruits) None, fruits).
Proof.
  induction 1 as [|f l Hf Hl IH]; simpl; [reflexivity|].
  rewrite IH, Hf. reflexivity.
Qed.

(** [loop] leaves the pool [addFruit] leaves. *)
Lemma loopNewFruits_addFruitErrs env queue :
  forall pool pool' errs,
    addFruitErrs env pool queue = Ok (pool', errs) ->
    loopNewFruits env pool queue = Ok pool'.
Proof.
  induction queue as [|f l IH]; intros pool pool' errs H; simpl in *.
  - inversion H. reflexivity.
  - unfold loopNewFruit. destruct (addFruit env pool f) as [[p1 e1]|]; simpl in *;
      [|discriminate].
    destruct (addFruitErrs env p1 l) as [[p2 e2]|] eqn:H2; simpl in *; [|discriminate].
    inversion H; subst. eapply IH. exact H2.
Qed.

(** An admissible fruit whose fast hash is not pooled ends in [appendFruit]. *)
Lemma addFruit_admissible env pool fruit :
  admissible env fruit = true ->
  allFruits pool !! Block.FastHash fruit = None ->
  exists b, addFruit env pool fruit = Ok (appendFruit pool fruit b).
Proof.
  unfold admissible. rewrite andb_true_iff. intros [Hb Hadm] Hnone.
  rewrite (addFruit_beyondHead env pool fruit Hb). unfold addFruitLocked.
  destruct (fastCurrentNumber (fastchain env) <? Block.FastNumber fruit); [eauto|].
  simpl in Hadm. apply andb_true_iff in Hadm as [Hfb Hv]. rewrite Hfb, Hnone. simpl.
  destruct (ValidateFruit env fruit) as [err|]; [|eauto].
  apply bool_decide_eq_true in Hv. subst err.
  destruct (decide (ErrSnailHeightNotYet = ErrSnailHeightNotYet)); [eauto|congruence].
Qed.

Lemma appendFruit_fresh pool fruit b :
  allFruits pool !! Block.FastHash fruit = None ->
  lenAll pool < FruitCount pool ->
  snd (appendFruit pool fruit b) = None /\
  FruitCount (fst (appendFruit pool fruit b)) = FruitCount pool /\
  lenAll (fst (appendFruit pool fruit b)) = lenAll pool + 1 /\
  forall h, h <> Block.FastHash fruit ->
    allFruits (fst (appendFruit pool fruit b)) !! h = allFruits pool !! h.
Proof.
  intros Hnone Hroom. unfold appendFruit.
  destruct (Z.leb_spec (FruitCount pool) (lenAll pool)); [lia|]. simpl.
  repeat split.
  - unfold lenAll. simpl. rewrite map_size_insert_None by assumption. lia.
  - intros h Hh. rewrite lookup_insert_ne by congruence. reflexivity.
Qed.

(** Unique admissible fruits fill the pool up to its cap; from then on
    [addFruit] answers ExceedNumber. *)
Lemma addFruitErrs_fills env fruits :
  forall pool,
    NoDup (map Block.FastHash fruits) ->
    Forall (fun f => admissible env f = true) fruits ->
    (forall f, In f fruits -> allFruits pool !! Block.FastHash f = None) ->
    lenAll pool <= FruitCount pool ->
    let k := Nat.min (length fruits) (Z.to_nat (FruitCount pool - lenAll pool)) in
    exists pool',
      addFruitErrs env pool fruits
        = Ok (pool', replicate k None
                     ++ replicate (length fruits - k) (Some ErrExceedNumber)) /\
      FruitCount pool' = FruitCount pool /\
      lenAll pool' = lenAll pool + Z.of_nat k.
Proof.
  induction fruits as [|f l IH]; intros pool Hnd Hadm Hfresh Hcap.
  - simpl. exists pool. repeat split. lia.
  - inversion Hnd as [|? ? Hnotin Hnd']; subst.
    inversion Hadm as [|? ? Hf Hadm']; subst.
    destruct (addFruit_admissible env pool f Hf) as [b Hadd];
      [apply Hfresh; left; reflexivity|].
    destruct (Z.eq_dec (FruitCount pool) (lenAll pool)) as [Hfull|Hroom].
    + (* the pool is full *)
      rewrite appendFruit_full in Hadd by lia.
      destruct (IH pool Hnd' Hadm') as (pool' & Herrs & Hc & Hlen);
        [intros g Hg; apply Hfresh; right; exact Hg|lia|].
      exists pool'. cbn zeta in *.
      replace (Z.to_nat (FruitCount pool - lenAll pool)) with 0%nat in * by lia.
      rewrite Nat.min_0_r in *. simpl in *.
      rewrite Hadd. simpl. rewrite Herrs. simpl.
      rewrite Nat.sub_0_r. repeat split; assumption.
    + (* there is room *)
      destruct (appendFruit_fresh pool f b) as (Herr & Hc1 & Hlen1 & Hother);
        [apply Hfresh; left; reflexivity|lia|].
      destruct (appendFruit pool f b) as [pool1 err1] eqn:Happ. simpl in *. subst err1.
      destruct (IH pool1 Hnd' Hadm') as (pool' & Herrs & Hc & Hlen); [|lia|].
      { intros g Hg. rewrite Hother.
        - apply Hfresh. right. exact Hg.
        - intros Heq. apply Hnotin. rewrite <- Heq.
          apply list_elem_of_In. apply in_map. exact Hg. }
      exists pool'. cbn zeta in *. rewrite Hadd. simpl. rewrite Herrs. simpl.
      rewrite Hc1, Hlen1 in *.
      replace (Z.to_nat (FruitCount pool - lenAll pool))
        with (S (Z.to_nat (FruitCount pool - (lenAll pool + 1)))) by lia.
      simpl. repeat split; [assumption|lia].
Qed.

Lemma NewSnailPool_empty env fruitCount :
  allFruits (NewSnailPool env fruitCount) = ∅ /\
  FruitCount (NewSnailPool env fruitCount) = fruitCount.
Proof.
  unfold NewSnailPool, resetTail, removeUnfreshFruit, removeWithLock. simpl.
  destruct (last _); unfold rangeAllFruits; simpl; rewrite ?map_to_list_empty; simpl;
    rewrite ?map_to_list_empty; simpl; split; reflexivity.
Qed.

(** The scenario of a batch of unique, valid, admissible fruits pushed into
    a new pool. *)
Lemma remote_batch_into_new_pool env fruitCount fruits :
  0 <= fruitCount ->
  NoDup (map Block.FastHash fruits) ->
  Forall (fun f => admissible env f = true) fruits ->
  Forall (fun f => validateFruit env f = None) fruits ->
  let k := Nat.min (length fruits) (Z.to_nat fruitCount) in
  AddRemoteFruits env fruits = (replicate (length fruits) None, fruits) /\
  exists pool',
    addFruitErrs env (NewSnailPool env fruitCount) fruits
      = Ok (pool', replicate k None
                   ++ replicate (length fruits - k) (Some ErrExceedNumber)) /\
    loopNewFruits env (NewSnailPool env fruitCount) fruits = Ok pool' /\
    lenAll pool' = Z.min (Z.of_nat (length fruits)) fruitCount.
Proof.
  intros Hc Hnd Hadm Hvalid k.
  split; [apply AddRemoteFruits_valid; assumption|].
  destruct (NewSnailPool_empty env fruitCount) as [Hempty Hcount].
  assert (Hlen0 : lenAll (NewSnailPool env fruitCount) = 0).
  { unfold lenAll. rewrite Hempty, map_size_empty. reflexivity. }
  destruct (addFruitErrs_fills env fruits (NewSnailPool env fruitCount) Hnd Hadm)
    as (pool' & Herrs & _ & Hlen).
  - intros f _. rewrite Hempty. apply lookup_empty.
  - lia.
  - cbn zeta in *. rewrite Hcount, Hlen0, Z.sub_0_r in *.
    exists pool'. split; [exact Herrs|].
    split; [eapply loopNewFruits_addFruitErrs; exact Herrs|].
    subst k. lia.
Qed.

(** C3 (as amended).  The error slice of the remote-add entry point is
    aligned index for index with the input, and its entry [i] is the result
    of the sign-hash check of fruit [i]: nil or InvalidSign.  The fruits
    that pass are handed to the loop in order, and the loop drops the
    admission error of [addFruit]: no entry of the slice is ExceedNumber.
    Pushing unique, valid, admissible fruits into a new pool with cap [c]
    retains [min (n, c)] of them; [addFruit] answers ExceedNumber for each
    of the over-cap fruits, and the returned slice is nil throughout. *)
Theorem AddRemoteFruits_reports_sign_check_only env fruits :
  length (fst (AddRemoteFruits env fruits)) = length fruits /\
  (forall (i : nat) (f : SnailBlock),
     fruits !! i = Some f ->
     fst (AddRemoteFruits env fruits) !! i = Some (validateFruit env f)) /\
  (forall e, In e (fst (AddRemoteFruits env fruits)) ->
     e = None \/ e = Some ErrInvalidSign) /\
  snd (AddRemoteFruits env fruits)
    = List.filter (fun f => bool_decide (validateFruit env f = None)) fruits /\
  (forall fruitCount,
     0 <= fruitCount ->
     NoDup (map Block.FastHash fruits) ->
     Forall (fun f => admissible env f = true) fruits ->
     Forall (fun f => validateFruit env f = None) fruits ->
     let k := Nat.min (length fruits) (Z.to_nat fruitCount) in
     AddRemoteFruits env fruits = (replicate (length fruits) None, fruits) /\
     exists pool',
       addFruitErrs env (NewSnailPool env fruitCount) fruits
         = Ok (pool', replicate k None
                      ++ replicate (length fruits - k) (Some ErrExceedNumber)) /\
       loopNewFruits env (NewSnailPool env fruitCount) fruits = Ok pool' /\
       lenAll pool' = Z.min (Z.of_nat (length fruits)) fruitCount).
Proof.
  split; [apply AddRemoteFruits_length|].
  split; [apply AddRemoteFruits_aligned|].
  split; [apply AddRemoteFruits_errors|].
  split; [apply AddRemoteFruits_queue|].
  intros fruitCount. apply remote_batch_into_new_pool.
Qed.

End PoolRemoteAdd.

(** *** The batch of the examples *)

Section PoolBatch.

Import core examples.

Lemma batch_length n : length (batch n) = n.
Proof. unfold batch. rewrite length_map, length_seq. reflexivity. Qed.

Lemma batch_keys_NoDup n : NoDup (map Block.FastHash (batch n)).
Proof.
  unfold batch. rewrite map_map. simpl.
  assert (Hinj : Inj eq eq (fun i : nat => Z.of_nat i + 100))
    by (intros i j Hij; lia).
  apply (NoDup_fmap_2 (fun i : nat => Z.of_nat i + 100)). apply NoDup_seq.
Qed.

Lemma batch_admissible n :
  Forall (fun f => admissible (poolEnv newHead) f = true) (batch n).
Proof.
  unfold batch. apply Forall_forall. intros f Hf.
  apply list_elem_of_In, in_map_iff in Hf as (i & <- & _).
  unfold admissible, beyondHead. simpl.
  rewrite orb_true_r, andb_true_r. unfold fruitOf, Block.FastNumber. simpl.
  apply Z.ltb_lt. lia.
Qed.

Lemma batch_valid n :
  Forall (fun f => validateFruit (poolEnv newHead) f = None) (batch n).
Proof.
  unfold batch. apply Forall_forall. intros f Hf.
  apply list_elem_of_In, in_map_iff in Hf as (i & <- & _). reflexivity.
Qed.

End PoolBatch.

(** The theorem at three fruits pushed into a new pool with cap 2. *)
Lemma AddRemoteFruits_reports_sign_check_only_witness :
  0 <= 2 /\
  NoDup (map Block.FastHash (examples.batch 3)) /\
  Forall (fun f => core.admissible (examples.poolEnv examples.newHead) f = true)
    (examples.batch 3) /\
  Forall (fun f => core.validateFruit (examples.poolEnv examples.newHead) f = None)
    (examples.batch 3) /\
  core.AddRemoteFruits (examples.poolEnv examples.newHead) (examples.batch 3)
    = ([None; None; None], examples.batch 3) /\
  exists pool',
    core.addFruitErrs (examples.poolEnv examples.newHead)
      (core.NewSnailPool (examples.poolEnv examples.newHead) 2) (examples.batch 3)
      = Ok (pool', [None; None; Some ErrExceedNumber]) /\
    core.loopNewFruits (examples.poolEnv examples.newHead)
      (core.NewSnailPool (examples.poolEnv examples.newHead) 2) (examples.batch 3)
      = Ok pool' /\
    core.lenAll pool' = 2.
Proof.
  assert (H0 : 0 <= 2) by lia.
  pose proof (batch_keys_NoDup 3) as H1.
  pose proof (batch_admissible 3) as H2.
  pose proof (batch_valid 3) as H3.
  split; [exact H0|]. split; [exact H1|]. split; [exact H2|]. split; [exact H3|].
  destruct (AddRemoteFruits_reports_sign_check_only
              (examples.poolEnv examples.newHead) (examples.batch 3))
    as (_ & _ & _ & _ & Hscenario).
  exact (Hscenario 2 H0 H1 H2 H3).
Defined.

(** The sentence on the over-cap fruits fails as the spec states it.  Nine
    thousand unique, valid, admissible fruits are pushed into a new pool
    with cap 8192: the pool retains 8192 of them and [addFruit] answers
    ExceedNumber for the last 808, but the slice [AddRemoteFruits] returns
    is nil at every index: no entry of it is ExceedNumber. *)
Lemma AddRemoteFruits_hides_ExceedNumber :
  exists pool',
    length (examples.batch (Z.to_nat 9000)) = Z.to_nat 9000 /\
    NoDup (map Block.FastHash (examples.batch (Z.to_nat 9000))) /\
    core.addFruitErrs (examples.poolEnv examples.newHead)
      (core.NewSnailPool (examples.poolEnv examples.newHead) 8192)
      (examples.batch (Z.to_nat 9000))
      = Ok (pool', replicate (Z.to_nat 8192) None
                   ++ replicate (Z.to_nat 808) (Some ErrExceedNumber)) /\
    core.lenAll pool' = 8192 /\
    fst (core.AddRemoteFruits (examples.poolEnv examples.newHead)
           (examples.batch (Z.to_nat 9000)))
      = replicate (Z.to_nat 9000) None /\
    ~ In (Some ErrExceedNumber)
        (fst (core.AddRemoteFruits (examples.poolEnv examples.newHead)
                (examples.batch (Z.to_nat 9000)))).
Proof.
  destruct (remote_batch_into_new_pool (examples.poolEnv examples.newHead) 8192
              (examples.batch (Z.to_nat 9000)))
    as (Hadd & pool' & Herrs & _ & Hlen);
    [lia|apply batch_keys_NoDup|apply batch_admissible|apply batch_valid|].
  rewrite batch_length in *.
  replace (Nat.min (Z.to_nat 9000) (Z.to_nat 8192)) with (Z.to_nat 8192) in Herrs by lia.
  replace (Z.to_nat 9000 - Z.to_nat 8192)%nat with (Z.to_nat 808) in Herrs by lia.
  exists pool'. split; [reflexivity|]. split; [apply batch_keys_NoDup|].
  split; [exact Herrs|]. split; [lia|].
  split; [rewrite Hadd; reflexivity|].
  intros Hin. apply AddRemoteFruits_errors in Hin as [H|H]; discriminate H.
Qed.

(** ** The election engine: panics on nil and on an empty fruit list *)

Section ElectionPanics.

Import election.

Ltac runM :=
  unfold mbind, ret, gets, modify, lift, panic, send,
    ReadCommittee, WriteCommittee, ReadCommitteeStates, WriteCommitteeStates;
  simpl.

(** C10.  [getLastNumber] indexes the last fruit of the end-election snail
    block without testing for emptiness: when both blocks of the window are
    on the chain it panics exactly when the end block has no fruits, it
    never returns an error for that block, and it returns the last fruit's
    fast number plus the switchover number otherwise.  The period boundary
    of [loop], which calls it, panics with it. *)
Theorem getLastNumber_needs_a_fruit P env beginSnail endSnail b e :
  snailGetBlockByNumber env (Uint64 beginSnail) = Some b ->
  snailGetBlockByNumber env (Uint64 endSnail) = Some e ->
  (Block.Fruits e = [] <-> getLastNumber P env beginSnail endSnail = Panic) /\
  (forall v, getLastNumber P env beginSnail endSnail = Ok v ->
     exists lf, last (Block.Fruits e) = Some lf /\
                v = Some (Block.FastNumber lf + ElectionSwitchoverNumber P)) /\
  (Block.Fruits e = [] ->
   forall st cc blk,
     curCommittee st = Some cc ->
     switchCheckNumber cc = Block.Number blk ->
     endSnail = Block.Number blk - SnailConfirmInterval P ->
     beginSnail = (if endSnail <? ElectionPeriodNumber P then 1
                   else endSnail - ElectionPeriodNumber P + 1) ->
     loopSnailEvent P env (Some blk) st = Panic).
Proof.
  intros Hb He.
  assert (Hcases : (Block.Fruits e = [] /\ getLastNumber P env beginSnail endSnail = Panic)
                   \/ exists lf, last (Block.Fruits e) = Some lf /\
                        getLastNumber P env beginSnail endSnail
                          = Ok (Some (Block.FastNumber lf + ElectionSwitchoverNumber P))).
  { unfold getLastNumber. rewrite Hb, He.
    destruct (last (Block.Fruits e)) as [lf|] eqn:Hlast.
    - right. exists lf. split; reflexivity.
    - left. apply last_None in Hlast. split; [assumption|reflexivity]. }
  split; [|split].
  - destruct Hcases as [[Hnil Hp]|(lf & Hlast & Hok)]; split; intros H; try assumption.
    + rewrite H in Hlast. discriminate.
    + rewrite Hok in H. discriminate.
  - intros v Hv. destruct Hcases as [[Hnil Hp]|(lf & Hlast & Hok)].
    + rewrite Hp in Hv. discriminate.
    + exists lf. split; [assumption|]. rewrite Hok in Hv. inversion Hv. reflexivity.
  - intros Hnil st cc blk Hcur Hcheck Hend Hbegin.
    destruct Hcases as [[_ Hp]|(lf & Hlast & _)];
      [|rewrite Hnil in Hlast; discriminate].
    unfold loopSnailEvent. runM. rewrite Hcur. simpl.
    rewrite Hcheck, Z.eqb_refl. rewrite <- Hend, <- Hbegin, Hp. reflexivity.
Qed.

(** C9.  A fast block carries a non-empty switch info whose committee id
    is not the id of the current committee, and there is no next committee:
    [updateMembers] dereferences the nil next committee and panics, and so
    does [switchLoop] on the block.  The warn-and-reject branch is reached
    only from states in which a next committee exists. *)
Theorem updateMembers_nil_next_panics env fastNum infos st cc :
  Vals infos <> [] ->
  curCommittee st = Some cc ->
  CID infos <> Uint64 (committeeId cc) ->
  nextCommittee st = None ->
  updateMembers env fastNum (Some infos) st = Panic /\
  (forall h, switchLoopEvent env (Some (mkFastBlock fastNum h infos)) st = Panic) /\
  (forall fastNum' infos' st0 st',
     updateMembers env fastNum' infos' st0 = Ok (UpdateRejected, st') ->
     exists nc cc0 i,
       nextCommittee st0 = Some nc /\ curCommittee st0 = Some cc0 /\
       infos' = Some i /\
       CID i <> Uint64 (committeeId cc0) /\ CID i <> Uint64 (committeeId nc)).
Proof.
  intros Hvals Hcur Hcid Hnext.
  assert (Hp : updateMembers env fastNum (Some infos) st = Panic).
  { unfold updateMembers. destruct (Vals infos) as [|v vs]; [congruence|].
    runM. rewrite Hcur. simpl.
    destruct (Z.eqb_spec (CID infos) (Uint64 (committeeId cc))); [contradiction|].
    runM. rewrite Hnext. reflexivity. }
  split; [exact Hp|]. split.
  - intros h. unfold switchLoopEvent. cbn [switchInfos fastNumber].
    destruct (Vals infos) as [|v vs] eqn:Hv; [congruence|]. exact Hp.
  - intros fastNum' infos' st0 st' H. unfold updateMembers in H.
    destruct infos' as [i|]; [|discriminate].
    destruct (Vals i) as [|v vs]; [discriminate|].
    revert H. runM. destruct (curCommittee st0) as [cc0|]; [|discriminate]. simpl.
    destruct (Z.eqb_spec (CID i) (Uint64 (committeeId cc0))) as [|Hne0].
    + unfold applyUpdate. runM.
      destruct (filterWithSwitchInfo env _); simpl; discriminate.
    + runM. destruct (nextCommittee st0) as [nc|]; [|discriminate]. simpl.
      destruct (Z.eqb_spec (CID i) (Uint64 (committeeId nc))) as [|Hne1].
      * unfold applyUpdate. runM.
        destruct (filterWithSwitchInfo env _); simpl; discriminate.
      * intros _. exists nc, cc0, i. repeat split; assumption.
Qed.

End ElectionPanics.

(** The theorem on a chain whose block 168, the end of the first election
    window, has no fruits. *)
Lemma getLastNumber_needs_a_fruit_witness :
  election.snailGetBlockByNumber (examples.electionEnv (examples.snailChainWithout 168))
    (Uint64 1) = Some (examples.plainBlock 1) /\
  election.snailGetBlockByNumber (examples.electionEnv (examples.snailChainWithout 168))
    (Uint64 168) = Some (examples.snailBlockAt 168 0 0 []) /\
  election.getLastNumber examples.params
    (examples.electionEnv (examples.snailChainWithout 168)) 1 168 = Panic.
Proof.
  assert (H1 : election.snailGetBlockByNumber
                 (examples.electionEnv (examples.snailChainWithout 168)) (Uint64 1)
               = Some (examples.plainBlock 1)) by reflexivity.
  assert (H2 : election.snailGetBlockByNumber
                 (examples.electionEnv (examples.snailChainWithout 168)) (Uint64 168)
               = Some (examples.snailBlockAt 168 0 0 [])) by reflexivity.
  split; [exact H1|]. split; [exact H2|].
  apply (getLastNumber_needs_a_fruit examples.params _ 1 168 _ _ H1 H2).
  reflexivity.
Defined.

(** The theorem at an engine that runs committee 1 and has no next
    committee, for a switch info of committee 7. *)
Lemma updateMembers_nil_next_panics_witness :
  election.Vals examples.strayInfos <> [] /\
  election.curCommittee (examples.engineWith (Some examples.committeeOne) None)
    = Some examples.committeeOne /\
  election.CID examples.strayInfos <> Uint64 (election.committeeId examples.committeeOne) /\
  election.nextCommittee (examples.engineWith (Some examples.committeeOne) None) = None /\
  election.updateMembers (examples.electionEnv (examples.snailChainWithout 0)) 1800
    (Some examples.strayInfos) (examples.engineWith (Some examples.committeeOne) None)
    = Panic.
Proof.
  assert (H1 : election.Vals examples.strayInfos <> []) by discriminate.
  assert (H2 : election.curCommittee (examples.engineWith (Some examples.committeeOne) None)
               = Some examples.committeeOne) by reflexivity.
  assert (H3 : election.CID examples.strayInfos
               <> Uint64 (election.committeeId examples.committeeOne))
    by (vm_compute; discriminate).
  assert (H4 : election.nextCommittee (examples.engineWith (Some examples.committeeOne) None)
               = None) by reflexivity.
  split; [exact H1|]. split; [exact H2|]. split; [exact H3|]. split; [exact H4|].
  exact (proj1 (updateMembers_nil_next_panics
                  (examples.electionEnv (examples.snailChainWithout 0)) 1800
                  examples.strayInfos _ _ H1 H2 H3 H4)).
Defined.

(** ** The election engine: the split into members and backups *)

Section ElectionSplit.

Import election.

Lemma Forall_markWorked (l : list CommitteeMember) :
  Forall (fun m => Flag m = StateUsedFlag /\ MType m = TypeWorked) (map markWorked l).
Proof. induction l; simpl; constructor; auto. Qed.

Lemma Forall_markBack (l : list CommitteeMember) :
  Forall (fun m => MType m = TypeBack) (map markBack l).
Proof. induction l; simpl; constructor; auto. Qed.

Lemma markWorked_identity (l : list CommitteeMember) :
  map Publickey (map markWorked l) = map Publickey l /\
  map Coinbase (map markWorked l) = map Coinbase l.
Proof. rewrite !map_map. split; reflexivity. Qed.

Lemma markBack_identity (l : list CommitteeMember) :
  map Publickey (map markBack l) = map Publickey l /\
  map Coinbase (map markBack l) = map Coinbase l /\
  map Flag (map markBack l) = map Flag l.
Proof. rewrite !map_map. repeat split; reflexivity. Qed.

(** C6.  Let [drawn] be the list the lottery draws for the window.  If it
    has more than [MinimumCommitteeNumber] entries, its first
    [MinimumCommitteeNumber] entries are the elected members and the
    remainder the elected backups, in draw order; otherwise all of it is
    elected members.  Every elected member gets [flag = used] and
    [type = worked], every elected backup gets [type = back], and keys,
    coinbases and the backups' flags are kept.  If at least 4 members were
    elected they are the committee's members and the default (genesis)
    committee is appended to the backups; otherwise the genesis committee
    itself becomes the members. *)
Theorem electCommittee_splits_drawn P env e snailBegin snailEnd drawn :
  drawnMembers P env e snailBegin snailEnd = Ok drawn ->
  let n := MinimumCommitteeNumber P in
  let elected := if (n <? length drawn)%nat then firstn n drawn else drawn in
  let rest := if (n <? length drawn)%nat then skipn n drawn else [] in
  exists c,
    electCommittee P env e snailBegin snailEnd = Ok c /\
    elected ++ rest = drawn /\
    ((n < length drawn)%nat -> length elected = n) /\
    Forall (fun m => Flag m = StateUsedFlag /\ MType m = TypeWorked)
      (map markWorked elected) /\
    Forall (fun m => MType m = TypeBack) (map markBack rest) /\
    map Publickey (map markWorked elected) = map Publickey elected /\
    map Coinbase (map markWorked elected) = map Coinbase elected /\
    map Publickey (map markBack rest) = map Publickey rest /\
    map Coinbase (map markBack rest) = map Coinbase rest /\
    ((4 <= length elected)%nat ->
       Members c = map markWorked elected /\
       Backups c = map markBack rest ++ defaultMembers e) /\
    ((length elected < 4)%nat ->
       Members c = genesisCommittee e /\
       Backups c = map markBack rest).
Proof.
  intros Hdrawn n elected rest.
  unfold drawnMembers in Hdrawn. unfold electCommittee.
  destruct (getCandinates P env snailBegin snailEnd) as [found|]; cbn [bind] in *;
    [|discriminate].
  injection Hdrawn as Hd.
  assert (Hsplit :
    (match found with
     | None => mkElectionCommittee [] []
     | Some (seed, candidates) =>
       if (MinimumCommitteeNumber P <? length (elect P env e candidates seed))%nat
       then mkElectionCommittee
              (firstn (MinimumCommitteeNumber P) (elect P env e candidates seed))
              (skipn (MinimumCommitteeNumber P) (elect P env e candidates seed))
       else mkElectionCommittee (elect P env e candidates seed) []
     end) = mkElectionCommittee elected rest).
  { subst elected rest n. destruct found as [[seed candidates]|]; subst drawn.
    - destruct (Nat.ltb _ _); reflexivity.
    - reflexivity. }
  rewrite Hsplit. cbn [Members Backups].
  assert (Hlen : length (map markWorked elected) = length elected) by apply length_map.
  rewrite Hlen.
  destruct (Nat.leb_spec 4 (length elected)) as [Hfour|Hfew];
    eexists; (split; [reflexivity|]); cbn [Members Backups].
  all: split; [subst elected rest; destruct (Nat.ltb_spec n (length drawn));
                 [apply take_drop|apply app_nil_r]|].
  all: split; [intros Hn; subst elected;
                 destruct (Nat.ltb_spec n (length drawn)); [|lia];
                 rewrite length_firstn; lia|].
  all: split; [apply Forall_markWorked|].
  all: split; [apply Forall_markBack|].
  all: split; [apply markWorked_identity|].
  all: split; [apply markWorked_identity|].
  all: split; [apply markBack_identity|].
  all: split; [apply markBack_identity|].
  all: split; intros H; try lia; split; reflexivity.
Qed.

End ElectionSplit.

(** The theorem on the window of the examples: six keys are drawn, the
    first four are the members, the last two lead the backups. *)
Lemma electCommittee_splits_drawn_witness :
  election.drawnMembers examples.params (examples.lotteryEnv examples.lotteryChain)
    (examples.engineWith None None) 1 3
    = Ok (map examples.drawnOf [11; 12; 13; 14; 15; 16]) /\
  exists c,
    election.electCommittee examples.params (examples.lotteryEnv examples.lotteryChain)
      (examples.engineWith None None) 1 3 = Ok c /\
    election.Members c
      = map election.markWorked (map examples.drawnOf [11; 12; 13; 14]) /\
    election.Backups c
      = map election.markBack (map examples.drawnOf [15; 16])
        ++ election.defaultMembers (examples.engineWith None None).
Proof.
  assert (H : election.drawnMembers examples.params
                (examples.lotteryEnv examples.lotteryChain)
                (examples.engineWith None None) 1 3
              = Ok (map examples.drawnOf [11; 12; 13; 14; 15; 16]))
    by (vm_compute; reflexivity).
  split; [exact H|].
  destruct (electCommittee_splits_drawn examples.params
              (examples.lotteryEnv examples.lotteryChain)
              (examples.engineWith None None) 1 3 _ H)
    as (c & Hc & _ & _ & _ & _ & _ & _ & _ & _ & Hfour & _).
  exists c. split; [exact Hc|]. apply Hfour. simpl. lia.
Defined.

(** ** The election engine: determinism in the window *)

Section ElectionDeterminism.

Import election.

Variable P : Params.
Variable env : Env.
Variables get1 get2 : Z -> option SnailBlock.

(** Candidate collection reads the snail chain at the block numbers of the
    window only. *)
Lemma collectBlocks_window (n : nat) :
  forall (blockNumber : Z) (seed : list byte)
         (acc : list candidateMember * gmap Address Z),
    (forall i, blockNumber <= i < blockNumber + Z.of_nat n ->
               get1 (Uint64 i) = get2 (Uint64 i)) ->
    collectBlocks (withSnailChain env get1) n blockNumber seed acc
      = collectBlocks (withSnailChain env get2) n blockNumber seed acc.
Proof.
  induction n as [|n IH]; intros blockNumber seed acc Hagree; [reflexivity|].
  cbn [collectBlocks]. cbn [snailGetBlockByNumber withSnailChain].
  rewrite (Hagree blockNumber) by lia.
  destruct (get2 (Uint64 blockNumber)) as [block|]; [|reflexivity].
  change (SnailHash (withSnailChain env get1)) with (SnailHash (withSnailChain env get2)).
  change (collectFruits (withSnailChain env get1)) with (collectFruits (withSnailChain env get2)).
  apply IH. intros i Hi. apply Hagree. lia.
Qed.

Lemma getCandinates_window (snailBegin snailEnd : Z) :
  (forall n, snailBegin <= n <= snailEnd -> get1 (Uint64 n) = get2 (Uint64 n)) ->
  getCandinates P (withSnailChain env get1) snailBegin snailEnd
    = getCandinates P (withSnailChain env get2) snailBegin snailEnd.
Proof.
  intros Hagree. unfold getCandinates.
  rewrite (collectBlocks_window (Z.to_nat (snailEnd - snailBegin + 1))
             snailBegin [] ([], ∅)).
  - reflexivity.
  - intros i Hi. apply Hagree. lia.
Qed.

(** The lottery does not read the snail chain. *)
Lemma electRounds_chain (defaults : gset Address) (candidates : list candidateMember)
    (seed : Hash) (n : nat) :
  forall (round : Z) (st : gset Address * list CommitteeMember),
    electRounds (withSnailChain env get1) defaults candidates seed n round st
      = electRounds (withSnailChain env get2) defaults candidates seed n round st.
Proof.
  induction n as [|n IH]; intros round st; [reflexivity|].
  cbn [electRounds]. rewrite IH. reflexivity.
Qed.

Lemma elect_chain (e : Election) (candidates : list candidateMember) (seed : Hash) :
  elect P (withSnailChain env get1) e candidates seed
    = elect P (withSnailChain env get2) e candidates seed.
Proof. unfold elect. apply electRounds_chain. Qed.

(** C8.  Two runs of the committee election over snail chains that hold
    the same blocks, with the same fruits, at every height of the window
    [[first-election-snail, last-election-snail]] agree at every stage: the
    candidates with their ranges and the seed, the list the lottery draws,
    and the elected committee, whose members lists are equal. *)
Theorem electCommittee_same_window (e : Election) (snailBegin snailEnd : Z) :
  (forall n, snailBegin <= n <= snailEnd -> get1 (Uint64 n) = get2 (Uint64 n)) ->
  getCandinates P (withSnailChain env get1) snailBegin snailEnd
    = getCandinates P (withSnailChain env get2) snailBegin snailEnd /\
  drawnMembers P (withSnailChain env get1) e snailBegin snailEnd
    = drawnMembers P (withSnailChain env get2) e snailBegin snailEnd /\
  electCommittee P (withSnailChain env get1) e snailBegin snailEnd
    = electCommittee P (withSnailChain env get2) e snailBegin snailEnd /\
  (forall c1 c2,
     electCommittee P (withSnailChain env get1) e snailBegin snailEnd = Ok c1 ->
     electCommittee P (withSnailChain env get2) e snailBegin snailEnd = Ok c2 ->
     Members c1 = Members c2 /\ Backups c1 = Backups c2).
Proof.
  intros Hagree.
  pose proof (getCandinates_window snailBegin snailEnd Hagree) as Hc.
  assert (Hd : drawnMembers P (withSnailChain env get1) e snailBegin snailEnd
               = drawnMembers P (withSnailChain env get2) e snailBegin snailEnd).
  { unfold drawnMembers. rewrite Hc.
    destruct (getCandinates P (withSnailChain env get2) snailBegin snailEnd)
      as [[[seed candidates]|]|]; cbn [bind]; try reflexivity.
    rewrite elect_chain. reflexivity. }
  assert (He : electCommittee P (withSnailChain env get1) e snailBegin snailEnd
               = electCommittee P (withSnailChain env get2) e snailBegin snailEnd).
  { unfold electCommittee. rewrite Hc.
    destruct (getCandinates P (withSnailChain env get2) snailBegin snailEnd)
      as [[[seed candidates]|]|]; cbn [bind]; try reflexivity.
    rewrite elect_chain. reflexivity. }
  repeat split; try assumption.
  - rewrite He in H. congruence.
  - rewrite He in H. congruence.
Qed.

End ElectionDeterminism.

(** The theorem for the window [[1, 3]] on a chain of three blocks and on a
    chain of nine that starts with the same three. *)
Lemma electCommittee_same_window_witness :
  (forall n, 1 <= n <= 3 ->
     examples.lotteryChain (Uint64 n) = examples.longerChain (Uint64 n)) /\
  election.electCommittee examples.params
    (election.withSnailChain (examples.lotteryEnv examples.lotteryChain)
       examples.lotteryChain)
    (examples.engineWith None None) 1 3
  = election.electCommittee examples.params
      (election.withSnailChain (examples.lotteryEnv examples.lotteryChain)
         examples.longerChain)
      (examples.engineWith None None) 1 3.
Proof.
  assert (H : forall n, 1 <= n <= 3 ->
                examples.lotteryChain (Uint64 n) = examples.longerChain (Uint64 n)).
  { intros n Hn. rewrite Uint64_small by lia. unfold examples.longerChain.
    destruct (Z.leb_spec 1 n); [|lia]. destruct (Z.leb_spec n 3); [|lia]. reflexivity. }
  split; [exact H|].
  apply (electCommittee_same_window examples.params
           (examples.lotteryEnv examples.lotteryChain)
           examples.lotteryChain examples.longerChain
           (examples.engineWith None None) 1 3 H).
Defined.

(** ** The election engine: the effective member set *)

Section ElectionEffective.

Import election.















End ElectionEffective.



(** ** The election engine: the election window and its trigger *)

Section ElectionWindow.

Import election.

Variable P : Params.
Variable env : Env.
Hypothesis period_pos : 0 < ElectionPeriodNumber P.

Ltac runM :=
  repeat (progress (unfold mbind, ret, gets, modify, lift, panic, send,
                      ReadCommittee, WriteCommittee, ReadCommitteeStates,
                      WriteCommitteeStates;
                    cbn beta iota)).

Lemma windowBegin_max (endNumber : Z) :
  windowBegin P endNumber = Z.max 1 (endNumber - ElectionPeriodNumber P + 1).
Proof. unfold windowBegin. cbn zeta. destruct (Z.leb_spec (endNumber - ElectionPeriodNumber P + 1) 0); lia. Qed.

Lemma loop_start_max (snailEndNumber : Z) :
  (if snailEndNumber <? ElectionPeriodNumber P then 1
   else snailEndNumber - ElectionPeriodNumber P + 1)
  = Z.max 1 (snailEndNumber - ElectionPeriodNumber P + 1).
Proof. destruct (Z.ltb_spec snailEndNumber (ElectionPeriodNumber P)); lia. Qed.

Lemma period_div (k : Z) : bigDiv (k * ElectionPeriodNumber P) (ElectionPeriodNumber P) = Ok k.
Proof. rewrite bigDiv_pos by assumption. rewrite Z.div_mul by lia. reflexivity. Qed.

(** With a positive period [getElectionMembers] panics only where
    [getCandinates] does. *)
Lemma getElectionMembers_total (snailBegin snailEnd : Z) (st : Election) found :
  getCandinates P env snailBegin snailEnd = Ok found ->
  exists elected st', getElectionMembers P env snailBegin snailEnd st = Ok (elected, st').
Proof.
  intros Hc.
  destruct (getElectionMembers P env snailBegin snailEnd st) as [[elected st1]|] eqn:H;
    [eauto|exfalso].
  revert H. unfold getElectionMembers. runM.
  rewrite bigDiv_pos by assumption. cbn beta iota.
  destruct (lruGet _ (commiteeCache st)) as [[cached cache']|]; [discriminate|].
  cbn beta iota.
  destruct (dbCommittee st !! _) as [stored|]; [discriminate|].
  unfold electCommittee. rewrite Hc. cbn [bind].
  destruct (Nat.leb 4 _); discriminate.
Qed.

(** [getElectionMembers] writes the cache and the store only. *)
Lemma getElectionMembers_committees (snailBegin snailEnd : Z) (st : Election)
    elected st1 :
  getElectionMembers P env snailBegin snailEnd st = Ok (elected, st1) ->
  nextCommittee st1 = nextCommittee st /\ curCommittee st1 = curCommittee st.
Proof.
  unfold getElectionMembers. runM.
  rewrite bigDiv_pos by assumption. cbn beta iota.
  destruct (lruGet _ (commiteeCache st)) as [[cached cache']|]; cbn beta iota.
  - intros H. injection H as _ <-. split; reflexivity.
  - destruct (dbCommittee st !! _) as [stored|]; cbn beta iota.
    + intros H. injection H as _ <-. split; reflexivity.
    + destruct (electCommittee P env st snailBegin snailEnd); cbn beta iota;
        [|discriminate].
      intros H. injection H as _ <-. split; reflexivity.
Qed.

(** The committees [getCommittee] builds. *)
Lemma getCommittee_window (fastNum snailNum : Z) (st : Election) (c : committee) st' :
  getCommittee P env fastNum snailNum st = Ok (Some c, st') ->
  1 <= committeeId c ->
  lastElectionNumber c = specLastElection P (committeeId c) /\
  firstElectionNumber c = specFirstElection P (committeeId c) /\
  switchCheckNumber c = (committeeId c + 1) * ElectionPeriodNumber P.
Proof.
  unfold getCommittee, specFirstElection, specLastElection. runM.
  rewrite bigDiv_pos by assumption. cbn beta iota.
  set (cn := snailNum / ElectionPeriodNumber P).
  destruct (Z.eqb_spec cn 0) as [Hzero|Hnz].
  - intros H Hid. injection H as <- _. simpl in Hid. lia.
  - destruct (getLastNumber P env _ _) as [[lastFast|]|]; cbn beta iota;
      [|discriminate|discriminate].
    destruct (fastNum <=? lastFast).
    + destruct (Z.eqb_spec cn 1) as [Hone|Hnone].
      * intros H Hid. injection H as <- _. simpl in Hid. lia.
      * destruct (getLastNumber P env _ _) as [[preEndFast|]|]; cbn beta iota;
          [|discriminate|discriminate].
        destruct (getElectionMembers P env _ _ st) as [[elected st1]|]; cbn beta iota;
          [|discriminate].
        intros H Hid. injection H as <- _. cbn [committeeId lastElectionNumber
          firstElectionNumber switchCheckNumber] in *.
        rewrite windowBegin_max. repeat split; lia.
    + destruct (getElectionMembers P env _ _ st) as [[elected st1]|]; cbn beta iota;
        [|discriminate].
      intros H Hid. injection H as <- _. cbn [committeeId lastElectionNumber
        firstElectionNumber switchCheckNumber] in *.
      rewrite windowBegin_max. repeat split; lia.
Qed.

(** What a snail event does, for a current committee whose switch check is
    the end of its period. *)
Lemma loopSnailEvent_cases (st : Election) (cc : committee) (blk : SnailBlock) out st' :
  curCommittee st = Some cc ->
  switchCheckNumber cc = (committeeId cc + 1) * ElectionPeriodNumber P ->
  loopSnailEvent P env (Some blk) st = Ok (out, st') ->
  (Block.Number blk <> (committeeId cc + 1) * ElectionPeriodNumber P ->
     out = SnailIgnored /\ st' = st) /\
  (forall next, out = SnailElected next ->
     Block.Number blk = (committeeId cc + 1) * ElectionPeriodNumber P /\
     nextCommittee st' = Some next /\
     committeeId next = committeeId cc + 1 /\
     lastElectionNumber next = specLastElection P (committeeId cc + 1) /\
     firstElectionNumber next = specFirstElection P (committeeId cc + 1) /\
     switchCheckNumber next = (committeeId cc + 2) * ElectionPeriodNumber P).
Proof.
  intros Hcur Hcheck. unfold loopSnailEvent. runM. rewrite Hcur. cbn beta iota.
  destruct (Z.eqb_spec (switchCheckNumber cc) (Block.Number blk)) as [Heq|Hne].
  - rewrite loop_start_max.
    destruct (getLastNumber P env _ _) as [[lastFast|]|]; cbn beta iota;
      [|discriminate|discriminate].
    destruct (getElectionMembers P env _ _ _) as [[elected st1]|]; cbn beta iota;
      [|discriminate].
    cbn [switchCheckNumber withEndFastNumber]. rewrite Hcheck, period_div. cbn beta iota.
    destruct (match nextCommittee st1 with
              | Some nc => committeeId nc =? committeeId cc + 1
              | None => false
              end).
    + intros H. injection H as <- <-. split; [intros; lia|intros next Hn; discriminate].
    + intros H. injection H as <- <-. split; [intros; lia|].
      intros next Hn. injection Hn as <-.
      cbn [nextCommittee setCommittees committeeId lastElectionNumber
           firstElectionNumber switchCheckNumber].
      unfold specFirstElection, specLastElection.
      repeat split; lia.
  - intros H. injection H as <- <-. split; [auto|intros next Hn; discriminate].
Qed.

(** At the end of the period the next committee is elected. *)
Lemma loopSnailEvent_elects (st : Election) (cc : committee) (blk : SnailBlock)
    (v : Z) found :
  curCommittee st = Some cc ->
  switchCheckNumber cc = (committeeId cc + 1) * ElectionPeriodNumber P ->
  Block.Number blk = (committeeId cc + 1) * ElectionPeriodNumber P ->
  nextCommittee st = None ->
  getLastNumber P env (specFirstElection P (committeeId cc + 1))
    (specLastElection P (committeeId cc + 1)) = Ok (Some v) ->
  getCandinates P env (specFirstElection P (committeeId cc + 1))
    (specLastElection P (committeeId cc + 1)) = Ok found ->
  exists next st',
    loopSnailEvent P env (Some blk) st = Ok (SnailElected next, st') /\
    nextCommittee st' = Some next /\
    committeeId next = committeeId cc + 1 /\
    beginFastNumber next = v + 1.
Proof.
  intros Hcur Hcheck Hnum Hnext Hlast Hcand.
  unfold loopSnailEvent. runM. rewrite Hcur. cbn beta iota.
  rewrite Hcheck, Hnum, Z.eqb_refl, loop_start_max.
  unfold specFirstElection, specLastElection in *.
  rewrite Hlast. cbn beta iota.
  match goal with
  | |- context [getElectionMembers P env ?b ?e ?s] =>
    destruct (getElectionMembers_total b e s found Hcand) as (elected & st1 & Hel);
    destruct (getElectionMembers_committees b e s elected st1 Hel) as [Hn1 _]
  end.
  cbn [nextCommittee setCommittees] in Hn1. rewrite Hnext in Hn1.
  rewrite Hel. cbn beta iota.
  cbn [switchCheckNumber withEndFastNumber]. rewrite Hcheck, period_div. cbn beta iota.
  rewrite Hn1. eexists _, _. split; [reflexivity|].
  cbn [nextCommittee setCommittees committeeId beginFastNumber].
  repeat split.
Qed.

End ElectionWindow.

(** C5 (as amended).  With a positive election period: every committee
    with id [k >= 1] that the engine builds has
    [last-election-snail = k * ElectionPeriodNumber - SnailConfirmInterval]
    and [first-election-snail = max (1, last-election-snail -
    ElectionPeriodNumber + 1)], and its own switch-check-snail is
    [(k + 1) * ElectionPeriodNumber].  While committee [k] runs, a snail
    head event elects the next committee only at the height
    [(k + 1) * ElectionPeriodNumber]; the committee elected there has id
    [k + 1], the window of [k + 1] and the switch check
    [(k + 2) * ElectionPeriodNumber]; and at that height the election does
    take place when the window's blocks are on the chain, the end block has
    a fruit, the candidates can be collected and no next committee is
    pending. *)
Theorem election_window_and_trigger (P : election.Params) (env : election.Env) :
  0 < election.ElectionPeriodNumber P ->
  (forall fastNum snailNum st c st',
     election.getCommittee P env fastNum snailNum st = Ok (Some c, st') ->
     1 <= election.committeeId c ->
     election.lastElectionNumber c = election.specLastElection P (election.committeeId c) /\
     election.firstElectionNumber c = election.specFirstElection P (election.committeeId c) /\
     election.switchCheckNumber c
       = (election.committeeId c + 1) * election.ElectionPeriodNumber P) /\
  (forall st cc blk out st',
     election.curCommittee st = Some cc ->
     election.switchCheckNumber cc
       = (election.committeeId cc + 1) * election.ElectionPeriodNumber P ->
     election.loopSnailEvent P env (Some blk) st = Ok (out, st') ->
     (Block.Number blk <> (election.committeeId cc + 1) * election.ElectionPeriodNumber P ->
        out = election.SnailIgnored /\ st' = st) /\
     (forall next, out = election.SnailElected next ->
        Block.Number blk = (election.committeeId cc + 1) * election.ElectionPeriodNumber P /\
        election.nextCommittee st' = Some next /\
        election.committeeId next = election.committeeId cc + 1 /\
        election.lastElectionNumber next
          = election.specLastElection P (election.committeeId cc + 1) /\
        election.firstElectionNumber next
          = election.specFirstElection P (election.committeeId cc + 1) /\
        election.switchCheckNumber next
          = (election.committeeId cc + 2) * election.ElectionPeriodNumber P)) /\
  (forall st cc blk v found,
     election.curCommittee st = Some cc ->
     election.switchCheckNumber cc
       = (election.committeeId cc + 1) * election.ElectionPeriodNumber P ->
     Block.Number blk = (election.committeeId cc + 1) * election.ElectionPeriodNumber P ->
     election.nextCommittee st = None ->
     election.getLastNumber P env
       (election.specFirstElection P (election.committeeId cc + 1))
       (election.specLastElection P (election.committeeId cc + 1)) = Ok (Some v) ->
     election.getCandinates P env
       (election.specFirstElection P (election.committeeId cc + 1))
       (election.specLastElection P (election.committeeId cc + 1)) = Ok found ->
     exists next st',
       election.loopSnailEvent P env (Some blk) st = Ok (election.SnailElected next, st') /\
       election.nextCommittee st' = Some next /\
       election.committeeId next = election.committeeId cc + 1 /\
       election.beginFastNumber next = v + 1).
Proof.
  intros Hpos. split; [|split].
  - intros fastNum snailNum st c st'. apply getCommittee_window. exact Hpos.
  - intros st cc blk out st'. apply loopSnailEvent_cases. exact Hpos.
  - intros st cc blk v found. apply loopSnailEvent_elects. exact Hpos.
Qed.

(** The theorem for period 180 and confirm interval 12, at an engine that
    runs committee 1: the snail head 360 elects committee 2, whose first
    fast block follows the last fruit of the snail block 348 by the
    switchover number. *)
Lemma election_window_and_trigger_witness :
  0 < election.ElectionPeriodNumber examples.params /\
  exists next st',
    election.loopSnailEvent examples.params
      (examples.electionEnv (examples.snailChainWithout 0))
      (Some (examples.plainBlock 360))
      (examples.engineWith (Some examples.committeeOne) None)
      = Ok (election.SnailElected next, st') /\
    election.nextCommittee st' = Some next /\
    election.committeeId next = election.committeeId examples.committeeOne + 1 /\
    election.beginFastNumber next = 3530 + 1.
Proof.
  assert (H : 0 < election.ElectionPeriodNumber examples.params) by (simpl; lia).
  split; [exact H|].
  destruct (election_window_and_trigger examples.params
              (examples.electionEnv (examples.snailChainWithout 0)) H)
    as (_ & _ & Helects).
  apply (Helects (examples.engineWith (Some examples.committeeOne) None)
           examples.committeeOne (examples.plainBlock 360) 3530 None);
    vm_compute; reflexivity.
Defined.

(** The sentence on the trigger fails as the spec states it, for [k = 1]
    with period 180: committee 1, as [getCommittee] builds it, has the
    switch check 360; the snail head 180 = [k * ElectionPeriodNumber] does
    not elect committee 2, the snail head 360 does. *)
Lemma election_of_next_committee_not_at_k_periods :
  match election.getCommittee examples.params
          (examples.electionEnv (examples.snailChainWithout 0)) 5000 200
          (examples.engineWith None None) with
  | Ok (Some c, _) => c = examples.committeeOne
  | _ => False
  end /\
  election.committeeId examples.committeeOne = 1 /\
  election.loopSnailEvent examples.params
    (examples.electionEnv (examples.snailChainWithout 0))
    (Some (examples.plainBlock (1 * 180)))
    (examples.engineWith (Some examples.committeeOne) None)
    = Ok (election.SnailIgnored, examples.engineWith (Some examples.committeeOne) None) /\
  match election.loopSnailEvent examples.params
          (examples.electionEnv (examples.snailChainWithout 0))
          (Some (examples.plainBlock (2 * 180)))
          (examples.engineWith (Some examples.committeeOne) None) with
  | Ok (election.SnailElected next, _) => election.committeeId next = 2
  | _ => False
  end.
Proof.
  split; [vm_compute; reflexivity|].
  split; [reflexivity|].
  split; [vm_compute; reflexivity|].
  vm_compute. reflexivity.
Qed.

(** ** The election engine: the order of the switch blocks *)

Section ElectionSwitchOrder.

Import election.

Ltac runM :=
  repeat (progress (unfold mbind, ret, gets, modify, lift, panic, send,
                      ReadCommittee, WriteCommittee, ReadCommitteeStates,
                      WriteCommitteeStates;
                    cbn beta iota)).

Lemma StronglySorted_snoc (l : list Z) (x : Z) :
  StronglySorted Z.le l -> Forall (fun y => y <= x) l -> StronglySorted Z.le (l ++ [x]).
Proof.
  induction l as [|y l IH]; intros Hs Hall; simpl.
  - repeat constructor.
  - apply StronglySorted_inv in Hs as [Hs Hy]. inversion Hall; subst.
    constructor; [apply IH; assumption|].
    apply Forall_app. split; [assumption|]. constructor; [assumption|constructor].
Qed.

(** [updateMembers] appends the number of the fast block to the switches
    of the committee the switch info names, and touches no other switch
    list. *)
Lemma updateMembers_appends env fastNum infos st st' :
  updateMembers env fastNum infos st = Ok (UpdateApplied, st') ->
  (exists cc,
     curCommittee st = Some cc /\
     curCommittee st' = Some (withSwitches cc (switches cc ++ [Uint64 fastNum])) /\
     nextCommittee st' = nextCommittee st) \/
  (exists nc,
     nextCommittee st = Some nc /\
     nextCommittee st' = Some (withSwitches nc (switches nc ++ [Uint64 fastNum])) /\
     curCommittee st' = curCommittee st).
Proof.
  unfold updateMembers. destruct infos as [i|]; [|discriminate].
  destruct (Vals i) as [|v vs]; [discriminate|]. runM.
  destruct (curCommittee st) as [cc|] eqn:Hcur; [|discriminate].
  destruct (CID i =? Uint64 (committeeId cc)).
  - unfold applyUpdate. runM.
    destruct (filterWithSwitchInfo env _) as [[ms bs]|]; cbn beta iota; [|discriminate].
    intros H. injection H as <-. left. exists cc. repeat split.
  - runM. destruct (nextCommittee st) as [nc|] eqn:Hnext; [|discriminate].
    destruct (CID i =? Uint64 (committeeId nc)); [|discriminate].
    unfold applyUpdate. runM.
    destruct (filterWithSwitchInfo env _) as [[ms bs]|]; cbn beta iota; [|discriminate].
    intros H. injection H as <-. right. exists nc. repeat split.
    cbn [curCommittee setCommittees setDbStates]. exact Hcur.
Qed.

(** Switch infos that arrive in the order of their fast blocks keep the
    switch lists ascending. *)
Lemma updateMembers_keeps_ascending env fastNum infos st st' :
  updateMembers env fastNum infos st = Ok (UpdateApplied, st') ->
  (forall c, curCommittee st = Some c \/ nextCommittee st = Some c ->
     StronglySorted Z.le (switches c) /\
     Forall (fun num => num <= Uint64 fastNum) (switches c)) ->
  forall c', curCommittee st' = Some c' \/ nextCommittee st' = Some c' ->
    StronglySorted Z.le (switches c').
Proof.
  intros Hupd Hinv c' Hc'.
  apply updateMembers_appends in Hupd
    as [(cc & Hcur & Hcur' & Hnext')|(nc & Hnext & Hnext' & Hcur')].
  - destruct Hc' as [Hc'|Hc'].
    + rewrite Hcur' in Hc'. injection Hc' as <-. simpl.
      destruct (Hinv cc) as [Hs Hall]; [left; exact Hcur|].
      apply StronglySorted_snoc; assumption.
    + rewrite Hnext' in Hc'. apply (Hinv c'). right. exact Hc'.
  - destruct Hc' as [Hc'|Hc'].
    + rewrite Hcur' in Hc'. apply (Hinv c'). left. exact Hc'.
    + rewrite Hnext' in Hc'. injection Hc' as <-. simpl.
      destruct (Hinv nc) as [Hs Hall]; [right; exact Hnext|].
      apply StronglySorted_snoc; assumption.
Qed.

End ElectionSwitchOrder.

(** ** The fruit pool: what one addition changes *)

Section PoolAddition.

Import core.

Lemma appendFruit_error pool fruit b pool' (e : error) :
  appendFruit pool fruit b = (pool', Some e) -> pool' = pool /\ e = ErrExceedNumber.
Proof.
  unfold appendFruit. destruct (FruitCount pool <=? lenAll pool); intros H.
  - injection H as <- <-. auto.
  - discriminate.
Qed.

Lemma appendFruit_stored pool fruit b pool' :
  appendFruit pool fruit b = (pool', None) ->
  lenAll pool < FruitCount pool /\
  pool' = mkSnailPool (FruitCount pool)
            (<[Block.FastHash fruit := fruit]> (allFruits pool))
            (if b then <[Block.FastHash fruit := fruit]> (fruitPending pool)
             else fruitPending pool)
            (poolHeader pool).
Proof.
  unfold appendFruit. destruct (FruitCount pool <=? lenAll pool) eqn:Hcap; intros H.
  - discriminate.
  - injection H as <-. split; [apply Z.leb_gt in Hcap; lia|reflexivity].
Qed.

(** The outcome of the first check of [addFruit]. *)
Lemma addFruit_not_stale env pool fruit r :
  addFruit env pool fruit = Ok r ->
  r = (pool, None) \/ (beyondHead env fruit = true /\ r = addFruitLocked env pool fruit).
Proof.
  unfold addFruit, beyondHead, lastFruit, bind.
  destruct (0 <? Block.NumberU64 (CurrentBlock (chain env))); simpl.
  - destruct (last (Block.Fruits (CurrentBlock (chain env)))) as [lf|]; [|discriminate].
    destruct (Block.FastNumber fruit <=? Block.FastNumber lf) eqn:Hle; intros [= <-]; auto.
    right. split; [|reflexivity]. apply Z.leb_gt in Hle. apply Z.ltb_lt. lia.
  - intros [= <-]. auto.
Qed.

(** A failed addition has no effect, and the error is the cap error, the
    missing fast block or the validator's verdict. *)
Lemma addFruit_error env pool fruit pool' (e : error) :
  addFruit env pool fruit = Ok (pool', Some e) ->
  pool' = pool /\
  (e = ErrExceedNumber \/ e = ErrNotExist \/ ValidateFruit env fruit = Some e).
Proof.
  intros H. apply addFruit_not_stale in H as [H|[_ H]]; [discriminate|].
  symmetry in H. unfold addFruitLocked in H.
  repeat case_match; simplify_eq;
    try match goal with
        | H : appendFruit _ _ _ = (_, Some _) |- _ =>
          apply appendFruit_error in H as [-> ->]
        end; auto.
Qed.

(** X1.  An addition touches one key only: the cap, the recorded head and
    every entry under another fast hash stay, and under the fruit's own fast
    hash each map keeps its entry or holds the fruit. A failed addition has
    no effect at all, and its error is the cap error, the missing fast block
    or the validator's verdict. *)
Theorem addFruit_frame env pool fruit pool' err :
  addFruit env pool fruit = Ok (pool', err) ->
  FruitCount pool' = FruitCount pool /\
  poolHeader pool' = poolHeader pool /\
  (forall h, h <> Block.FastHash fruit ->
     allFruits pool' !! h = allFruits pool !! h /\
     fruitPending pool' !! h = fruitPending pool !! h) /\
  (allFruits pool' !! Block.FastHash fruit = allFruits pool !! Block.FastHash fruit \/
   allFruits pool' !! Block.FastHash fruit = Some fruit) /\
  (fruitPending pool' !! Block.FastHash fruit = fruitPending pool !! Block.FastHash fruit \/
   fruitPending pool' !! Block.FastHash fruit = Some fruit) /\
  (forall e, err = Some e ->
     pool' = pool /\
     (e = ErrExceedNumber \/ e = ErrNotExist \/ ValidateFruit env fruit = Some e)).
Proof.
  intros H.
  assert (Herr : forall e, err = Some e ->
            pool' = pool /\
            (e = ErrExceedNumber \/ e = ErrNotExist \/ ValidateFruit env fruit = Some e)).
  { intros e ->. by apply addFruit_error. }
  split; [|split; [|split; [|split; [|split; [|exact Herr]]]]].
  all: apply addFruit_cases in H as [->|[b H]]; try reflexivity; try (by left);
    try (intros h Hh; by split).
  all: destruct err as [e0|]; symmetry in H;
    [apply appendFruit_error in H as [-> _]; try reflexivity; try (by left);
       try (intros h Hh; by split)
    |apply appendFruit_stored in H as [_ ->]; simpl].
  - reflexivity.
  - reflexivity.
  - intros h Hh. split; [by rewrite lookup_insert_ne|].
    destruct b; [by rewrite lookup_insert_ne|reflexivity].
  - right. apply lookup_insert_eq.
  - destruct b; [right; apply lookup_insert_eq|by left].
Qed.

(** X2.  The pending map changes only for a fruit that passed every check:
    it is beyond the head, its fast block is known and not ahead of the fast
    head, and the validator accepted it. *)
Theorem addFruit_pending_validated env pool fruit pool' err :
  addFruit env pool fruit = Ok (pool', err) ->
  fruitPending pool' <> fruitPending pool ->
  comparable env fruit = true /\ err = None /\ pool' = withFruit pool fruit.
Proof.
  intros H Hne. apply addFruit_not_stale in H as [H|[Hb H]]; [by simplify_eq|].
  symmetry in H. unfold addFruitLocked in H. unfold comparable. rewrite Hb.
  destruct err as [e|].
  { exfalso. apply Hne.
    repeat case_match; simplify_eq; try reflexivity;
      match goal with
      | H : appendFruit _ _ _ = (_, Some _) |- _ =>
        apply appendFruit_error in H as [-> ->]; reflexivity
      end. }
  repeat case_match; simplify_eq;
    try (exfalso; apply Hne; reflexivity);
    match goal with
    | H : appendFruit _ _ false = (_, None) |- _ =>
      apply appendFruit_stored in H as [_ ->]; exfalso; apply Hne; reflexivity
    | H : appendFruit _ _ true = (_, None) |- _ =>
      apply appendFruit_stored in H as [_ ->]
    end;
    (split; [|split; reflexivity]);
    repeat match goal with
           | H : (_ <? _) = false |- _ => apply Z.ltb_ge in H
           | H : negb _ = false |- _ => apply negb_false_iff in H
           end;
    rewrite andb_true_iff, andb_true_iff; (split; [split|]);
    try reflexivity; try assumption; try (apply Z.leb_le; lia);
    try (apply bool_decide_eq_true; assumption).
Qed.

Lemma appendFruit_again pool fruit b :
  fst (appendFruit (fst (appendFruit pool fruit b)) fruit b) = fst (appendFruit pool fruit b).
Proof.
  unfold appendFruit at 2 3.
  destruct (FruitCount pool <=? lenAll pool) eqn:Hcap; simpl.
  - unfold appendFruit. rewrite Hcap. reflexivity.
  - unfold appendFruit. simpl. case_match; simpl; [reflexivity|].
    rewrite insert_insert_eq. destruct b; [by rewrite insert_insert_eq|reflexivity].
Qed.

Lemma addFruitLocked_again env pool fruit :
  fst (addFruitLocked env (fst (addFruitLocked env pool fruit)) fruit)
    = fst (addFruitLocked env pool fruit).
Proof.
  destruct (addFruitLocked env pool fruit) as [p1 e1] eqn:H1. simpl.
  assert (Hsame : p1 = pool -> fst (addFruitLocked env p1 fruit) = p1).
  { intros ->. by rewrite H1. }
  assert (Hstored : forall b, appendFruit pool fruit b = (p1, e1) ->
            p1 = pool \/ allFruits p1 !! Block.FastHash fruit = Some fruit).
  { intros b Hb. destruct e1 as [e|].
    - apply appendFruit_error in Hb as [-> _]. by left.
    - apply appendFruit_stored in Hb as [_ ->]. right. simpl. apply lookup_insert_eq. }
  unfold addFruitLocked in H1.
  destruct (fastCurrentNumber (fastchain env) <? Block.FastNumber fruit) eqn:Hfuture.
  { replace p1 with (fst (appendFruit pool fruit false)) by (by rewrite H1).
    unfold addFruitLocked. rewrite Hfuture. apply appendFruit_again. }
  destruct (negb _) eqn:Hknown; [apply Hsame; by simplify_eq|].
  destruct (allFruits pool !! Block.FastHash fruit) as [f|] eqn:Hf.
  - destruct (ValidateFruit env fruit) as [err|] eqn:Hv; [apply Hsame; by simplify_eq|].
    assert (Happ : p1 = pool \/ appendFruit pool fruit true = (p1, e1)).
    { repeat case_match; simplify_eq; auto. }
    destruct Happ as [Hp|Happ]; [by apply Hsame|].
    destruct (Hstored _ Happ) as [Hp|Hl]; [by apply Hsame|].
    unfold addFruitLocked. rewrite Hfuture, Hknown, Hl, Hv.
    rewrite Z.ltb_irrefl, Z.eqb_refl.
    by rewrite (proj2 (Z.leb_le _ _) (Z.le_refl _)).
  - destruct (ValidateFruit env fruit) as [err|] eqn:Hv.
    + destruct (decide (err = ErrSnailHeightNotYet)); [|apply Hsame; by simplify_eq].
      destruct (Hstored _ H1) as [Hp|Hl]; [by apply Hsame|].
      unfold addFruitLocked. by rewrite Hfuture, Hknown, Hl, Hv.
    + destruct (Hstored _ H1) as [Hp|Hl]; [by apply Hsame|].
      unfold addFruitLocked. rewrite Hfuture, Hknown, Hl, Hv.
      rewrite Z.ltb_irrefl, Z.eqb_refl.
      by rewrite (proj2 (Z.leb_le _ _) (Z.le_refl _)).
Qed.

(** X3.  Adding a fruit a second time leaves the pool as the first addition
    left it. *)
Theorem addFruit_twice env pool fruit pool' err :
  addFruit env pool fruit = Ok (pool', err) ->
  exists err', addFruit env pool' fruit = Ok (pool', err').
Proof.
  intros H. unfold addFruit in *.
  destruct (if 0 <? Block.NumberU64 (CurrentBlock (chain env)) then _ else _)
    as [[|]|]; simpl in *; [| |discriminate].
  - injection H as <- <-. by eexists.
  - injection H as H. exists (snd (addFruitLocked env pool' fruit)).
    f_equal. apply injective_projections; [|reflexivity]. simpl.
    replace pool' with (fst (addFruitLocked env pool fruit)) by (by rewrite H).
    apply addFruitLocked_again.
Qed.

(** The local entry point queues and reports as the remote one does. *)
Lemma AddLocals_as_AddRemoteFruits env fruits :
  AddLocals env fruits = AddRemoteFruits env fruits.
Proof.
  unfold AddLocals. induction fruits as [|fruit rest IH]; [reflexivity|].
  simpl. rewrite IH. reflexivity.
Qed.

(** X4.  [compareFruit] is a strict order: a fruit is better than another
    when its fruit difficulty is higher, or equal with a lower block hash;
    no fruit is better than itself, and of two fruits with different hashes
    one is the better. *)
Theorem compareFruit_strict_order env :
  (forall f1 f2, compareFruit env f1 f2 = 1 \/ compareFruit env f1 f2 = -1) /\
  (forall f1 f2, compareFruit env f1 f2 = 1 <->
     Block.FruitDifficulty f2 < Block.FruitDifficulty f1 \/
     (Block.FruitDifficulty f1 = Block.FruitDifficulty f2 /\
      SnailHash env f1 < SnailHash env f2)) /\
  (forall f, compareFruit env f f = -1) /\
  (forall f1 f2, compareFruit env f1 f2 = 1 -> compareFruit env f2 f1 = -1) /\
  (forall f1 f2 f3, compareFruit env f1 f2 = 1 -> compareFruit env f2 f3 = 1 ->
     compareFruit env f1 f3 = 1) /\
  (forall f1 f2, SnailHash env f1 <> SnailHash env f2 ->
     compareFruit env f1 f2 = 1 \/ compareFruit env f2 f1 = 1).
Proof.
  assert (Hspec : forall f1 f2, compareFruit env f1 f2 = 1 <->
     Block.FruitDifficulty f2 < Block.FruitDifficulty f1 \/
     (Block.FruitDifficulty f1 = Block.FruitDifficulty f2 /\
      SnailHash env f1 < SnailHash env f2)).
  { intros f1 f2. unfold compareFruit.
    destruct (Z.ltb_spec (Block.FruitDifficulty f1) (Block.FruitDifficulty f2));
      [split; [discriminate|lia]|].
    destruct (Z.eqb_spec (Block.FruitDifficulty f1) (Block.FruitDifficulty f2));
      [|split; [lia|reflexivity]].
    destruct (Z.leb_spec (SnailHash env f2) (SnailHash env f1));
      split; try discriminate; try lia; reflexivity. }
  assert (Hcases : forall f1 f2, compareFruit env f1 f2 = 1 \/ compareFruit env f1 f2 = -1).
  { intros f1 f2. unfold compareFruit. repeat case_match; auto. }
  repeat split.
  - exact Hcases.
  - apply Hspec.
  - apply Hspec.
  - intros f. destruct (Hcases f f) as [H|H]; [|exact H]. apply Hspec in H. lia.
  - intros f1 f2 H. destruct (Hcases f2 f1) as [H'|H']; [|exact H'].
    apply Hspec in H, H'. lia.
  - intros f1 f2 f3 H12 H23. apply Hspec in H12, H23. apply Hspec. lia.
  - intros f1 f2 Hne. rewrite !Hspec. lia.
Qed.

End PoolAddition.

Lemma addFruit_frame_witness :
  core.addFruit (examples.poolEnv examples.newHead) examples.poolWithRoom
    examples.betterFruit
    = Ok (core.withFruit examples.poolWithRoom examples.betterFruit, None) /\
  core.FruitCount (core.withFruit examples.poolWithRoom examples.betterFruit) = 8 /\
  core.allFruits (core.withFruit examples.poolWithRoom examples.betterFruit) !! 106
    = core.allFruits examples.poolWithRoom !! 106.
Proof.
  assert (H : core.addFruit (examples.poolEnv examples.newHead) examples.poolWithRoom
                examples.betterFruit
              = Ok (core.withFruit examples.poolWithRoom examples.betterFruit, None))
    by (vm_compute; reflexivity).
  split; [exact H|].
  destruct (addFruit_frame _ _ _ _ _ H) as (Hcount & _ & Hother & _).
  split; [exact Hcount|].
  apply Hother. vm_compute. discriminate.
Defined.

Lemma addFruit_pending_validated_witness :
  core.addFruit (examples.poolEnv examples.newHead) examples.poolWithRoom
    examples.betterFruit
    = Ok (core.withFruit examples.poolWithRoom examples.betterFruit, None) /\
  core.fruitPending (core.withFruit examples.poolWithRoom examples.betterFruit)
    <> core.fruitPending examples.poolWithRoom /\
  core.comparable (examples.poolEnv examples.newHead) examples.betterFruit = true.
Proof.
  assert (H : core.addFruit (examples.poolEnv examples.newHead) examples.poolWithRoom
                examples.betterFruit
              = Ok (core.withFruit examples.poolWithRoom examples.betterFruit, None))
    by (vm_compute; reflexivity).
  assert (Hne : core.fruitPending (core.withFruit examples.poolWithRoom examples.betterFruit)
                <> core.fruitPending examples.poolWithRoom).
  { intros Heq. apply (f_equal (fun m => m !! 105)) in Heq.
    vm_compute in Heq. discriminate Heq. }
  split; [exact H|]. split; [exact Hne|].
  exact (proj1 (addFruit_pending_validated _ _ _ _ _ H Hne)).
Defined.

Lemma addFruit_twice_witness :
  core.addFruit (examples.poolEnv examples.newHead) examples.poolWithRoom
    examples.betterFruit
    = Ok (core.withFruit examples.poolWithRoom examples.betterFruit, None) /\
  exists err',
    core.addFruit (examples.poolEnv examples.newHead)
      (core.withFruit examples.poolWithRoom examples.betterFruit) examples.betterFruit
    = Ok (core.withFruit examples.poolWithRoom examples.betterFruit, err').
Proof.
  assert (H : core.addFruit (examples.poolEnv examples.newHead) examples.poolWithRoom
                examples.betterFruit
              = Ok (core.withFruit examples.poolWithRoom examples.betterFruit, None))
    by (vm_compute; reflexivity).
  split; [exact H|].
  exact (addFruit_twice _ _ _ _ _ H).
Defined.

(** ** The fruit pool: removals and [reset] *)

Section PoolRemoval.

Import core.









(** *** [reset] returns *)

Lemma NumberU64_range (b : SnailBlock) : 0 <= Block.NumberU64 b < 2 ^ 64.
Proof. unfold Block.NumberU64, Uint64. apply Z.mod_pos_bound. lia. Qed.

Lemma parentOf_number env b b' :
  numbered env -> 0 < Block.NumberU64 b -> parentOf env b = Some b' ->
  Block.NumberU64 b' = Block.NumberU64 b - 1.
Proof.
  intros [Hn _] Hpos. unfold parentOf. intros H. apply Hn in H. rewrite H.
  pose proof (NumberU64_range b). unfold wrap64. apply Z.mod_small. lia.
Qed.

Lemma parentOf_genesis env b :
  numbered env -> Block.NumberU64 b = 0 -> parentOf env b = None.
Proof.
  intros [_ Hg] H0. unfold parentOf. rewrite H0.
  replace (wrap64 (0 - 1)) with (2 ^ 64 - 1) by reflexivity. apply Hg.
Qed.

Lemma walkHigher_returns env (Hn : numbered env) (other : Z) :
  forall fuel b acc,
    (Z.to_nat (Block.NumberU64 b - other) <= fuel)%nat ->
    walkHigher env fuel b other acc = Some None \/
    exists b' acc', walkHigher env fuel b other acc = Some (Some (b', acc')) /\
                    Block.NumberU64 b' <= Block.NumberU64 b /\
                    Block.NumberU64 b' <= other /\
                    (other <= Block.NumberU64 b -> 0 <= other -> Block.NumberU64 b' = other).
Proof.
  induction fuel as [|fuel IH]; intros b acc Hfuel.
  - simpl. destruct (Z.ltb_spec other (Block.NumberU64 b)); [lia|].
    right. exists b, acc. repeat split; lia.
  - simpl. destruct (Z.ltb_spec other (Block.NumberU64 b)) as [Hlt|Hge].
    + destruct (parentOf env b) as [b'|] eqn:Hp; [|by left].
      pose proof (NumberU64_range b'). 
      destruct (Z_lt_le_dec 0 (Block.NumberU64 b)) as [Hpos|Hzero].
      * pose proof (parentOf_number env b b' Hn Hpos Hp) as Hnum.
        destruct (IH b' (acc ++ Block.Fruits b)) as [Hw|(b2 & acc2 & Hw & H1 & H2 & H3)];
          [lia|by left|].
        right. exists b2, acc2. repeat split; try assumption; lia.
      * pose proof (NumberU64_range b).
        rewrite (parentOf_genesis env b Hn) in Hp by lia. discriminate.
    + right. exists b, acc. repeat split; lia.
Qed.

Lemma walkBoth_returns env (Hn : numbered env) :
  forall fuel rem add discarded included,
    Block.NumberU64 rem = Block.NumberU64 add ->
    (Z.to_nat (Block.NumberU64 rem) < fuel)%nat ->
    is_Some (walkBoth env fuel rem add discarded included).
Proof.
  induction fuel as [|fuel IH]; intros rem add d i Heq Hfuel; [lia|].
  simpl. case_decide; [by eexists|].
  pose proof (NumberU64_range rem).
  destruct (Z_lt_le_dec 0 (Block.NumberU64 rem)) as [Hpos|Hzero].
  - destruct (parentOf env rem) as [rem'|] eqn:Hr; [|by eexists].
    destruct (parentOf env add) as [add'|] eqn:Ha; [|by eexists].
    apply IH.
    + rewrite (parentOf_number env rem rem' Hn Hpos Hr).
      rewrite (parentOf_number env add add' Hn) by (assumption || lia). lia.
    + rewrite (parentOf_number env rem rem' Hn Hpos Hr). lia.
  - rewrite (parentOf_genesis env rem Hn) by lia. by eexists.
Qed.

(** X8.  On a chain whose lookups are consistent, the walks of [reset] end:
    [reset] finishes (it returns, or panics on a nil new head) once the fuel
    exceeds the heights of both heads. *)
Theorem reset_returns env fuel pool oldHead newHead :
  numbered env ->
  (forall old, oldHead = Some old -> (Z.to_nat (Block.NumberU64 old) < fuel)%nat) ->
  (forall new, newHead = Some new -> (Z.to_nat (Block.NumberU64 new) < fuel)%nat) ->
  is_Some (reset env fuel pool oldHead newHead).
Proof.
  intros Hn Hold Hnew. unfold reset.
  destruct oldHead as [old|]; [|by eexists].
  destruct newHead as [new|]; [|by eexists].
  specialize (Hold old eq_refl). specialize (Hnew new eq_refl).
  case_decide; [by eexists|]. destruct (64 <? _); [by eexists|].
  assert (is_Some (walkReorg env fuel old new)) as [r ->]; [|destruct r as [[]|]; by eexists].
  unfold walkReorg.
  pose proof (NumberU64_range old). pose proof (NumberU64_range new).
  destruct (walkHigher_returns env Hn (Block.NumberU64 new) fuel old [])
    as [->|(rem & d & -> & Hr1 & Hr2 & _)]; [lia|by eexists|].
  pose proof (NumberU64_range rem).
  destruct (walkHigher_returns env Hn (Block.NumberU64 rem) fuel new [])
    as [->|(add & i & -> & Ha1 & Ha2 & Ha3)]; [lia|by eexists|].
  apply walkBoth_returns; [assumption| |lia].
  symmetry. apply Ha3; lia.
Qed.

End PoolRemoval.

Section PoolExamples.

Import core examples.


Lemma poolEnv_numbered head : numbered (poolEnv head).
Proof.
  split; simpl.
  - intros h n b. destruct (h =? snailHashOf parentBlock); simpl; [|discriminate].
    destruct (Z.eqb_spec n 0) as [->|]; [|discriminate]. by intros [= <-].
  - intros h. by rewrite andb_false_r.
Qed.

End PoolExamples.




Lemma reset_returns_witness :
  core.numbered (examples.poolEnv examples.newHead) /\
  is_Some (core.reset (examples.poolEnv examples.newHead) 2 examples.poolOfTwo
             (Some examples.oldHead) (Some examples.newHead)).
Proof.
  split; [apply poolEnv_numbered|].
  apply reset_returns; [apply poolEnv_numbered| |].
  - intros old [= <-]. vm_compute. lia.
  - intros new [= <-]. vm_compute. lia.
Defined.

(** ** The fruit pool: reachable states and the readers *)

Section PoolReaders.

Import core.

Lemma appendFruit_pendingKeyed pool fruit b :
  pendingKeyed pool -> pendingKeyed (fst (appendFruit pool fruit b)).
Proof.
  unfold pendingKeyed, appendFruit. intros H.
  destruct (FruitCount pool <=? lenAll pool); simpl; [assumption|].
  destruct b; [|assumption].
  intros h f. rewrite lookup_insert. case_decide as Hk.
  - intros [= <-]. assumption.
  - apply H.
Qed.

Lemma discard_pendingKeyed pool h : pendingKeyed pool -> pendingKeyed (discard pool h).
Proof.
  unfold pendingKeyed, discard. simpl. intros H k f Hk.
  apply lookup_delete_Some in Hk as [_ Hk]. eauto.
Qed.

Lemma insertRestFruits_pendingKeyed pool reinject :
  pendingKeyed pool -> pendingKeyed (insertRestFruits pool reinject).
Proof.
  unfold insertRestFruits. revert pool.
  induction reinject as [|f l IH]; intros pool H; simpl; [assumption|].
  apply IH. unfold pendingKeyed in *. simpl.
  intros h g. rewrite lookup_insert. case_decide.
  - intros [= <-]. assumption.
  - apply H.
Qed.

Lemma insertRestFruits_FruitCount pool reinject :
  FruitCount (insertRestFruits pool reinject) = FruitCount pool.
Proof.
  unfold insertRestFruits. revert pool.
  induction reinject as [|f l IH]; intros pool; simpl; [reflexivity|].
  by rewrite IH.
Qed.

Lemma step_pendingKeyed pool pool' :
  step pool pool' -> pendingKeyed pool -> pendingKeyed pool'.
Proof.
  intros Hs Hp. destruct Hs.
  - eapply (addFruit_keeps pendingKeyed); eauto using appendFruit_pendingKeyed.
  - eapply (reset_keeps pendingKeyed);
      eauto using discard_pendingKeyed, insertRestFruits_pendingKeyed.
  - apply insertRestFruits_pendingKeyed; assumption.
  - apply removeWithLock_keeps; auto using discard_pendingKeyed.
  - apply removeUnfreshFruit_keeps; auto using discard_pendingKeyed.
  - apply discard_pendingKeyed; assumption.
Qed.

Lemma step_FruitCount pool pool' :
  step pool pool' -> FruitCount pool' = FruitCount pool.
Proof.
  intros Hs.
  pose (I := fun p => FruitCount p = FruitCount pool).
  assert (Hd : forall p h, I p -> I (discard p h)) by (intros p h Hp; exact Hp).
  assert (Hh : forall p hd, I p ->
            I (mkSnailPool (FruitCount p) (allFruits p) (fruitPending p) hd))
    by (intros p hd Hp; exact Hp).
  assert (Hi : forall p l, I p -> I (insertRestFruits p l))
    by (intros p l Hp; unfold I; by rewrite insertRestFruits_FruitCount).
  assert (Ha : forall p f b, I p -> I (fst (appendFruit p f b)))
    by (intros p f b Hp; unfold I; by rewrite appendFruit_FruitCount).
  destruct Hs.
  - by eapply (addFruit_keeps I); eauto.
  - by eapply (reset_keeps I); eauto.
  - by apply Hi.
  - by apply removeWithLock_keeps.
  - by apply removeUnfreshFruit_keeps.
  - by apply Hd.
Qed.

(** X9.  In every state the pool reaches from [NewSnailPool], by additions,
    resets, re-injections and removals, the pending keys are keys of
    [allFruits], both maps store each fruit under its own fast hash, and the
    cap is the configured one. *)
Theorem reachable_invariants fruitCount pool :
  reachable fruitCount pool ->
  pendingSubset pool /\ keyedByFastHash pool /\ pendingKeyed pool /\
  FruitCount pool = fruitCount.
Proof.
  intros Hr. induction Hr as [env|pool pool' Hr (IH1 & IH2 & IH3 & IH4) Hs].
  - unfold NewSnailPool. repeat split.
    + apply resetTail_keeps; auto using discard_pendingSubset.
      unfold pendingSubset. simpl. set_solver.
    + apply resetTail_keeps; auto using discard_keyed.
      intros h f. simpl. by rewrite lookup_empty.
    + apply resetTail_keeps; auto using discard_pendingKeyed.
      intros h f. simpl. by rewrite lookup_empty.
    + by apply (resetTail_keeps (fun p => FruitCount p = fruitCount)).
  - repeat split.
    + eapply step_pendingSubset; eassumption.
    + eapply step_keyed; eassumption.
    + eapply step_pendingKeyed; eassumption.
    + by rewrite (step_FruitCount _ _ Hs).
Qed.

Lemma reachable_pendingKeyed fruitCount pool :
  reachable fruitCount pool -> pendingKeyed pool.
Proof.
  induction 1 as [env|pool pool' Hr IH Hs].
  - unfold NewSnailPool. apply resetTail_keeps; auto using discard_pendingKeyed.
    intros h f. simpl. by rewrite lookup_empty.
  - eapply step_pendingKeyed; eassumption.
Qed.

Lemma reachable_pendingSubset fruitCount pool :
  reachable fruitCount pool -> pendingSubset pool.
Proof.
  induction 1 as [env|pool pool' Hr IH Hs].
  - unfold NewSnailPool. apply resetTail_keeps; auto using discard_pendingSubset.
    unfold pendingSubset. simpl. set_solver.
  - eapply step_pendingSubset; eassumption.
Qed.

Lemma fold_insert_lookup (l : list (Hash * SnailBlock)) :
  forall (acc : gmap Hash SnailBlock) (h : Hash),
    NoDup l.*1 ->
    (forall k v, (k, v) ∈ l -> Block.FastHash v = k) ->
    fold_left (fun rt kv => <[Block.FastHash (snd kv) := snd kv]> rt) l acc !! h
      = match (list_to_map l : gmap Hash SnailBlock) !! h with
        | Some f => Some f
        | None => acc !! h
        end.
Proof.
  induction l as [|[k v] l IH]; intros acc h Hnd Hkey; simpl.
  { by rewrite lookup_empty. }
  apply NoDup_cons in Hnd as [Hk Hnd].
  rewrite IH; [|assumption|intros k' v' Hl; apply Hkey; by right].
  rewrite (Hkey k v) by (by left).
  destruct (decide (k = h)) as [<-|Hne].
  - rewrite (not_elem_of_list_to_map_1 _ _ Hk). by rewrite !lookup_insert_eq.
  - by rewrite !(lookup_insert_ne _ _ _ _ Hne).
Qed.

(** X10.  [PendingFruits] returns the pending map: the fresh map has the
    keys and the fruits of [fruitPending]. *)
Theorem PendingFruits_copy fruitCount pool :
  reachable fruitCount pool -> PendingFruits pool = fruitPending pool.
Proof.
  intros Hr. apply reachable_pendingKeyed in Hr as Hkeyed.
  apply map_eq. intros h. unfold PendingFruits.
  rewrite fold_insert_lookup.
  - rewrite list_to_map_to_list, lookup_empty. by destruct (fruitPending pool !! h).
  - apply NoDup_fst_map_to_list.
  - intros k v Hkv. apply elem_of_map_to_list in Hkv. by apply Hkeyed.
Qed.

(** X11.  [Stats] in a reachable state: the second count is not negative,
    the two counts add up to the size of [allFruits], and the second is the
    number of fast hashes that are stored but not pending. *)
Theorem Stats_counts fruitCount pool :
  reachable fruitCount pool ->
  0 <= snd (Stats pool) /\
  fst (Stats pool) + snd (Stats pool) = lenAll pool /\
  snd (Stats pool)
    = Z.of_nat (size (dom (allFruits pool) ∖ dom (fruitPending pool))).
Proof.
  intros Hr. apply reachable_pendingSubset in Hr as Hsub.
  unfold Stats, lenAll, pendingSubset in *. simpl.
  pose proof (subseteq_size _ _ Hsub) as Hle.
  rewrite (size_difference _ _ Hsub).
  rewrite !size_dom in *. lia.
Qed.

End PoolReaders.

(** The theorem at the pool left by two additions (the fruit of the fast
    block 7, and the fruit of the future fast block 11), the reorganisation
    from [oldHead] to [newHead], which puts the fruits of the fast blocks 5
    and 6 back, and the removal of the fast hash 105. *)
Lemma reachable_invariants_witness :
  exists p1 p2 p3,
    core.addFruit (examples.poolEnv examples.oldHead)
      (core.NewSnailPool (examples.poolEnv examples.oldHead) 8) (examples.fruitOf 7 107 1)
      = Ok (p1, None) /\
    core.addFruit (examples.poolEnv examples.oldHead) p1 (examples.fruitOf 11 111 1)
      = Ok (p2, None) /\
    core.reset (examples.poolEnv examples.newHead) 2 p2
      (Some examples.oldHead) (Some examples.newHead) = Some (Ok p3) /\
    core.reachable 8 (core.RemovePendingFruitByFastHash p3 105) /\
    (core.pendingSubset (core.RemovePendingFruitByFastHash p3 105) /\
     core.keyedByFastHash (core.RemovePendingFruitByFastHash p3 105) /\
     core.pendingKeyed (core.RemovePendingFruitByFastHash p3 105) /\
     core.FruitCount (core.RemovePendingFruitByFastHash p3 105) = 8) /\
    dom (core.allFruits (core.RemovePendingFruitByFastHash p3 105))
      = ({[106; 107; 111]} : gset Hash) /\
    dom (core.fruitPending (core.RemovePendingFruitByFastHash p3 105))
      = ({[106; 107]} : gset Hash).
Proof.
  destruct (core.addFruit (examples.poolEnv examples.oldHead)
              (core.NewSnailPool (examples.poolEnv examples.oldHead) 8)
              (examples.fruitOf 7 107 1)) as [[p1 [e|]]|] eqn:H1;
    [exfalso; vm_compute in H1; discriminate| |exfalso; vm_compute in H1; discriminate].
  destruct (core.addFruit (examples.poolEnv examples.oldHead) p1
              (examples.fruitOf 11 111 1)) as [[p2 [e|]]|] eqn:H2;
    [exfalso; vm_compute in H1; injection H1 as <-; vm_compute in H2; discriminate|
    |exfalso; vm_compute in H1; injection H1 as <-; vm_compute in H2; discriminate].
  destruct (core.reset (examples.poolEnv examples.newHead) 2 p2
              (Some examples.oldHead) (Some examples.newHead)) as [[p3|]|] eqn:H3;
    [|exfalso; vm_compute in H1; injection H1 as <-; vm_compute in H2; injection H2 as <-;
      vm_compute in H3; discriminate..].
  exists p1, p2, p3.
  assert (Hr : core.reachable 8 (core.RemovePendingFruitByFastHash p3 105)).
  { eapply core.reachable_step; [|apply core.step_RemovePending].
    eapply core.reachable_step; [|eapply core.step_reset; exact H3].
    eapply core.reachable_step; [|eapply core.step_addFruit; exact H2].
    eapply core.reachable_step; [apply core.reachable_new|].
    eapply core.step_addFruit; exact H1. }
  split; [reflexivity|]. split; [exact H2|]. split; [exact H3|].
  split; [exact Hr|]. split; [exact (reachable_invariants _ _ Hr)|].
  vm_compute in H1; injection H1 as <-; vm_compute in H2; injection H2 as <-;
    vm_compute in H3; injection H3 as <-.
  split; vm_compute; reflexivity.
Defined.

Lemma PendingFruits_copy_witness :
  exists pool',
    core.addFruit (examples.poolEnv examples.newHead)
      (core.NewSnailPool (examples.poolEnv examples.newHead) 8) examples.pooledFruit
      = Ok (pool', None) /\
    core.reachable 8 pool' /\
    core.PendingFruits pool' = core.fruitPending pool' /\
    core.fruitPending pool' !! 105 = Some examples.pooledFruit.
Proof.
  destruct (core.addFruit (examples.poolEnv examples.newHead)
              (core.NewSnailPool (examples.poolEnv examples.newHead) 8)
              examples.pooledFruit) as [[pool' [e|]]|] eqn:Hadd;
    [exfalso; vm_compute in Hadd; discriminate| |exfalso; vm_compute in Hadd; discriminate].
  exists pool'. split; [reflexivity|].
  assert (Hr : core.reachable 8 pool').
  { eapply core.reachable_step; [apply core.reachable_new|].
    eapply core.step_addFruit. exact Hadd. }
  split; [exact Hr|]. split; [exact (PendingFruits_copy _ _ Hr)|].
  vm_compute in Hadd. injection Hadd as <-. vm_compute. reflexivity.
Defined.

(** The theorem at the pool left by the fruit of the fast block 7, which
    is verified, and the fruit of the future fast block 11, which is not:
    one pending fruit and one queued fruit. *)
Lemma Stats_counts_witness :
  exists p1 p2,
    core.addFruit (examples.poolEnv examples.oldHead)
      (core.NewSnailPool (examples.poolEnv examples.oldHead) 8) (examples.fruitOf 7 107 1)
      = Ok (p1, None) /\
    core.addFruit (examples.poolEnv examples.oldHead) p1 (examples.fruitOf 11 111 1)
      = Ok (p2, None) /\
    core.reachable 8 p2 /\
    (0 <= snd (core.Stats p2) /\
     fst (core.Stats p2) + snd (core.Stats p2) = core.lenAll p2 /\
     snd (core.Stats p2)
       = Z.of_nat (size (dom (core.allFruits p2) ∖ dom (core.fruitPending p2)))) /\
    core.Stats p2 = (1, 1).
Proof.
  destruct (core.addFruit (examples.poolEnv examples.oldHead)
              (core.NewSnailPool (examples.poolEnv examples.oldHead) 8)
              (examples.fruitOf 7 107 1)) as [[p1 [e|]]|] eqn:H1;
    [exfalso; vm_compute in H1; discriminate| |exfalso; vm_compute in H1; discriminate].
  destruct (core.addFruit (examples.poolEnv examples.oldHead) p1
              (examples.fruitOf 11 111 1)) as [[p2 [e|]]|] eqn:H2;
    [exfalso; vm_compute in H1; injection H1 as <-; vm_compute in H2; discriminate|
    |exfalso; vm_compute in H1; injection H1 as <-; vm_compute in H2; discriminate].
  exists p1, p2.
  assert (Hr : core.reachable 8 p2).
  { eapply core.reachable_step; [|eapply core.step_addFruit; exact H2].
    eapply core.reachable_step; [apply core.reachable_new|].
    eapply core.step_addFruit; exact H1. }
  split; [reflexivity|]. split; [exact H2|]. split; [exact Hr|].
  split; [exact (Stats_counts _ _ Hr)|].
  vm_compute in H1; injection H1 as <-; vm_compute in H2; injection H2 as <-.
  vm_compute. reflexivity.
Defined.

(** ** The election engine: member lookups and signature checks *)

Section ElectionMembers.

Import election.

Ltac runM :=
  repeat (progress (unfold mbind, ret, gets, modify, lift, panic, send,
                      ReadCommittee, WriteCommittee, ReadCommitteeStates,
                      WriteCommitteeStates;
                    cbn beta iota)).

Lemma find_first {A : Type} (p : A -> bool) (l : list A) :
  match List.find p l with
  | Some x => exists pre post, l = pre ++ x :: post /\ p x = true /\
                               Forall (fun y => p y = false) pre
  | None => Forall (fun y => p y = false) l
  end.
Proof.
  induction l as [|a l IH]; simpl; [constructor|].
  destruct (p a) eqn:Hp.
  - exists [], l. repeat split; [exact Hp|constructor].
  - destruct (List.find p l) as [x|].
    + destruct IH as (pre & post & -> & Hx & Hpre).
      exists (a :: pre), post. repeat split; [exact Hx|by constructor].
    + by constructor.
Qed.

Lemma GetMemberByPubkey_find (ms : list CommitteeMember) (pk : list byte) :
  GetMemberByPubkey ms pk = List.find (fun member => bool_decide (pk = Publickey member)) ms.
Proof. by destruct ms. Qed.

(** X13.  [GetMemberByPubkey] returns the first member with the key, and nil
    when there is none; [GetMemberFlag] is the flag of that member, [0] when
    there is none; [IsCommitteeMember] tells whether that flag is "used". *)
Theorem member_lookup_first (ms : list CommitteeMember) (pk : list byte) :
  match GetMemberByPubkey ms pk with
  | Some m => exists pre post, ms = pre ++ m :: post /\ Publickey m = pk /\
                               Forall (fun x => Publickey x <> pk) pre
  | None => Forall (fun x => Publickey x <> pk) ms
  end /\
  GetMemberFlag ms pk = from_option Flag (FlagOther 0) (GetMemberByPubkey ms pk) /\
  IsCommitteeMember ms pk
    = bool_decide (Flag <$> GetMemberByPubkey ms pk = Some StateUsedFlag).
Proof.
  split; [|split].
  - rewrite GetMemberByPubkey_find.
    pose proof (find_first (fun member => bool_decide (pk = Publickey member)) ms) as H.
    destruct (List.find _ ms) as [m|].
    + destruct H as (pre & post & -> & Hm & Hpre). exists pre, post.
      repeat split; [by apply bool_decide_eq_true in Hm|].
      eapply Forall_impl; [exact Hpre|]. simpl. intros x Hx Heq.
      apply bool_decide_eq_false in Hx. by apply Hx.
    + eapply Forall_impl; [exact H|]. simpl. intros x Hx Heq.
      apply bool_decide_eq_false in Hx. by apply Hx.
  - rewrite GetMemberByPubkey_find. destruct ms; [reflexivity|].
    unfold GetMemberFlag. by destruct (List.find _ _).
  - unfold IsCommitteeMember.
    assert (Hflag : GetMemberFlag ms pk
                    = from_option Flag (FlagOther 0) (GetMemberByPubkey ms pk)).
    { rewrite GetMemberByPubkey_find. destruct ms; [reflexivity|].
      unfold GetMemberFlag. by destruct (List.find _ _). }
    rewrite Hflag. destruct (GetMemberByPubkey ms pk) as [m|]; simpl.
    + apply bool_decide_ext. split; [by intros ->|by intros [= ->]].
    + reflexivity.
Qed.

Lemma setFirstState_find (pk : list byte) (flag : MemberFlag) (ms : list CommitteeMember) :
  let lookup := fun (l : list CommitteeMember) (k : list byte) =>
                  List.find (fun member => bool_decide (k = Publickey member)) l in
  map Publickey (setFirstState pk flag ms) = map Publickey ms /\
  map Coinbase (setFirstState pk flag ms) = map Coinbase ms /\
  (forall pk', pk' <> pk -> lookup (setFirstState pk flag ms) pk' = lookup ms pk') /\
  match lookup ms pk with
  | Some m =>
    lookup (setFirstState pk flag ms) pk
      = Some (mkCommitteeMember (Coinbase m) pk flag TypeUnset)
  | None => setFirstState pk flag ms = ms
  end.
Proof.
  intros lookup. unfold lookup.
  induction ms as [|m ms (IH1 & IH2 & IH3 & IH4)]; simpl; [by repeat split|].
  destruct (decide (Publickey m = pk)) as [Hm|Hm]; simpl.
  - repeat split.
    + intros pk' Hne.
      rewrite (bool_decide_eq_false_2 (pk' = Publickey m)) by congruence.
      reflexivity.
    + rewrite (bool_decide_eq_true_2 (pk = Publickey m)) by done. by rewrite Hm.
  - rewrite IH1, IH2. repeat split.
    + intros pk' Hne. by rewrite (IH3 pk' Hne).
    + rewrite (bool_decide_eq_false_2 (pk = Publickey m)) by done.
      destruct (List.find _ ms); [exact IH4|by rewrite IH4].
Qed.

Lemma setFirstState_spec (pk : list byte) (flag : MemberFlag) (ms : list CommitteeMember) :
  map Publickey (setFirstState pk flag ms) = map Publickey ms /\
  map Coinbase (setFirstState pk flag ms) = map Coinbase ms /\
  (forall pk', pk' <> pk ->
     GetMemberByPubkey (setFirstState pk flag ms) pk' = GetMemberByPubkey ms pk') /\
  match GetMemberByPubkey ms pk with
  | Some m =>
    GetMemberByPubkey (setFirstState pk flag ms) pk
      = Some (mkCommitteeMember (Coinbase m) pk flag TypeUnset)
  | None => setFirstState pk flag ms = ms
  end.
Proof.
  destruct (setFirstState_find pk flag ms) as (H1 & H2 & H3 & H4).
  repeat split; [exact H1|exact H2| |].
  - intros pk' Hne. rewrite !GetMemberByPubkey_find. by apply H3.
  - rewrite !GetMemberByPubkey_find. exact H4.
Qed.

(** X14.  [setMemberState] keeps the keys and the coinbases of both lists,
    in order, and the answer of the lookup of every other key; the lookup of
    the key itself then returns the member with the new flag and with no
    member type; a list without the key is unchanged. *)
Theorem setMemberState_lookup (c : committee) (pk : list byte) (flag : MemberFlag) :
  let c' := setMemberState c pk flag in
  (map Publickey (members c') = map Publickey (members c) /\
   map Coinbase (members c') = map Coinbase (members c) /\
   (forall pk', pk' <> pk ->
      GetMemberByPubkey (members c') pk' = GetMemberByPubkey (members c) pk') /\
   match GetMemberByPubkey (members c) pk with
   | Some m => GetMemberByPubkey (members c') pk
               = Some (mkCommitteeMember (Coinbase m) pk flag TypeUnset)
   | None => members c' = members c
   end) /\
  (map Publickey (backupMembers c') = map Publickey (backupMembers c) /\
   map Coinbase (backupMembers c') = map Coinbase (backupMembers c) /\
   (forall pk', pk' <> pk ->
      GetMemberByPubkey (backupMembers c') pk' = GetMemberByPubkey (backupMembers c) pk') /\
   match GetMemberByPubkey (backupMembers c) pk with
   | Some m => GetMemberByPubkey (backupMembers c') pk
               = Some (mkCommitteeMember (Coinbase m) pk flag TypeUnset)
   | None => backupMembers c' = backupMembers c
   end) /\
  committeeId c' = committeeId c /\ switches c' = switches c.
Proof.
  simpl. split; [apply setFirstState_spec|]. split; [apply setFirstState_spec|].
  split; reflexivity.
Qed.

Lemma verifySignsLoop_index (SigToPub : PbftSign -> list byte)
    (committeeMembers : list CommitteeMember) (signs : list PbftSign)
    (i : nat) (s : PbftSign) :
  signs !! i = Some s ->
  match fst (verifySignsLoop SigToPub committeeMembers signs) !! i with
  | Some (Some m) =>
    snd (verifySignsLoop SigToPub committeeMembers signs) !! i = Some None /\
    exists pre post, committeeMembers = pre ++ m :: post /\
                     Publickey m = SigToPub s /\
                     Forall (fun x => Publickey x <> SigToPub s) pre
  | Some None =>
    snd (verifySignsLoop SigToPub committeeMembers signs) !! i
      = Some (Some ErrInvalidMember) /\
    Forall (fun x => Publickey x <> SigToPub s) committeeMembers
  | None => False
  end.
Proof.
  intros Hs. unfold verifySignsLoop. cbn [fst snd].
  rewrite !list_lookup_fmap, Hs. cbn [fmap option_fmap option_map].
  rewrite GetMemberByPubkey_find.
  pose proof (find_first (fun member => bool_decide (SigToPub s = Publickey member))
                committeeMembers) as H.
  destruct (List.find _ committeeMembers) as [m|].
  - split; [reflexivity|].
    destruct H as (pre & post & -> & Hm & Hpre). exists pre, post.
    repeat split; [by apply bool_decide_eq_true in Hm|].
    eapply Forall_impl; [exact Hpre|]. simpl. intros x Hx Heq.
    apply bool_decide_eq_false in Hx. by apply Hx.
  - split; [reflexivity|].
    eapply Forall_impl; [exact H|]. simpl. intros x Hx Heq.
    apply bool_decide_eq_false in Hx. by apply Hx.
Qed.

(** X15.  [VerifySigns] on no signature returns two empty lists.  Otherwise
    it asks [GetCommittee] for the committee of the fast height of the
    first signature, and leaves the engine as that call leaves it.  The two
    lists it returns are as long as the signatures.  When the committee is
    nil or empty, every signature gets no member and the error "get
    committee failed".  When it has members, a signature gets the first
    member of that committee whose key is the recovered one, and no error;
    a signature whose recovered key no member of the committee has gets no
    member and the error "invalid committee member".  A panic of
    [GetCommittee] is a panic of [VerifySigns]. *)
Theorem VerifySigns_aligned P env (SigToPub : PbftSign -> list byte) (st : Election) :
  VerifySigns P env SigToPub [] st = Ok (([], []), st) /\
  forall (first : PbftSign) (rest : list PbftSign),
    match GetCommittee P env (FastHeight first) st with
    | Panic => VerifySigns P env SigToPub (first :: rest) st = Panic
    | Ok (found, st1) =>
      exists ms errs,
        VerifySigns P env SigToPub (first :: rest) st = Ok ((ms, errs), st1) /\
        length ms = length (first :: rest) /\
        length errs = length (first :: rest) /\
        forall (i : nat) (s : PbftSign),
          (first :: rest) !! i = Some s ->
          (default [] found = [] ->
           ms !! i = Some None /\ errs !! i = Some (Some ErrCommittee)) /\
          (default [] found <> [] ->
           match ms !! i with
           | Some (Some m) =>
             errs !! i = Some None /\
             exists pre post, default [] found = pre ++ m :: post /\
                              Publickey m = SigToPub s /\
                              Forall (fun x => Publickey x <> SigToPub s) pre
           | Some None =>
             errs !! i = Some (Some ErrInvalidMember) /\
             Forall (fun x => Publickey x <> SigToPub s) (default [] found)
           | None => False
           end)
    end.
Proof.
  split; [reflexivity|]. intros first rest.
  unfold VerifySigns. runM.
  destruct (GetCommittee P env (FastHeight first) st) as [[found st1]|];
    cbn beta iota; [|reflexivity].
  destruct (default [] found) as [|cm cms] eqn:Hfound; runM.
  - exists (map (fun _ => None) (first :: rest)),
           (map (fun _ => Some ErrCommittee) (first :: rest)).
    split; [reflexivity|]. rewrite !length_map.
    split; [reflexivity|]. split; [reflexivity|].
    intros i s Hs. split; [|by intros H].
    intros _. rewrite !list_lookup_fmap, Hs. by split.
  - exists (fst (verifySignsLoop SigToPub (cm :: cms) (first :: rest))),
           (snd (verifySignsLoop SigToPub (cm :: cms) (first :: rest))).
    split; [by destruct (verifySignsLoop SigToPub (cm :: cms) (first :: rest))|].
    split; [unfold verifySignsLoop; cbn [fst]; by rewrite length_map|].
    split; [unfold verifySignsLoop; cbn [snd]; by rewrite length_map|].
    intros i s Hs. split; [discriminate|]. intros _.
    exact (verifySignsLoop_index SigToPub (cm :: cms) (first :: rest) i s Hs).
Qed.

End ElectionMembers.

(** The theorem at two signatures for the fast height 1745 of the committee
    whose member 2 is removed at the fast block 1740: the key of member 1
    gets member 1, the key of member 2 gets no member and the error
    "invalid committee member". *)
Lemma VerifySigns_aligned_witness :
  exists st1 ms errs,
    election.GetCommittee examples.params examples.switchEnv 1745
      (examples.engineWith (Some examples.switchedCommittee) None)
    = Ok (Some [examples.memberOf 1; examples.memberOf 3; examples.memberOf 4], st1) /\
    election.VerifySigns examples.params examples.switchEnv Sign
      [mkPbftSign 1745 0 0 [byte_of_Z 1]; mkPbftSign 1745 0 0 [byte_of_Z 2]]
      (examples.engineWith (Some examples.switchedCommittee) None)
    = Ok ((ms, errs), st1) /\
    length ms = 2%nat /\
    ms = [Some (examples.memberOf 1); None] /\
    errs = [None; Some election.ErrInvalidMember].
Proof.
  pose proof (proj2 (VerifySigns_aligned examples.params examples.switchEnv Sign
                       (examples.engineWith (Some examples.switchedCommittee) None))
                (mkPbftSign 1745 0 0 [byte_of_Z 1])
                [mkPbftSign 1745 0 0 [byte_of_Z 2]]) as H.
  cbn [FastHeight] in H.
  destruct (election.GetCommittee examples.params examples.switchEnv 1745
              (examples.engineWith (Some examples.switchedCommittee) None))
    as [[found st1]|] eqn:Hg; [|exfalso; vm_compute in Hg; discriminate].
  destruct H as (ms & errs & Hv & Hlen & _).
  exists st1, ms, errs.
  assert (Hfound : found = Some [examples.memberOf 1; examples.memberOf 3;
                                 examples.memberOf 4]).
  { vm_compute in Hg. injection Hg as <- _. vm_compute. reflexivity. }
  split; [by rewrite Hfound|]. split; [exact Hv|]. split; [exact Hlen|].
  vm_compute in Hv. injection Hv as <- <-. split; vm_compute; reflexivity.
Defined.

(** ** The election engine: the committee cache and the store *)

Section ElectionStore.

Import election.

Variable P : Params.

Ltac runM :=
  repeat (progress (unfold mbind, ret, gets, modify, lift, panic, send,
                      ReadCommittee, WriteCommittee, ReadCommitteeStates,
                      WriteCommitteeStates;
                    cbn beta iota)).

Lemma lruAdd_hit (k : Z) (v : ElectionCommittee) (c : list (Z * ElectionCommittee)) :
  exists c', lruGet k (lruAdd k v c) = Some (v, c').
Proof.
  unfold lruAdd. change committeeCacheLimit with (S 255). rewrite firstn_cons.
  unfold lruGet. simpl. rewrite Z.eqb_refl. by eexists.
Qed.

Lemma lruGet_again (k : Z) (v : ElectionCommittee) (c c' : list (Z * ElectionCommittee)) :
  lruGet k c = Some (v, c') -> exists c'', lruGet k c' = Some (v, c'').
Proof.
  unfold lruGet. destruct (List.find _ c) as [kv|] eqn:Hfind; [|discriminate].
  intros [= <- <-]. apply find_some in Hfind as [_ Hk].
  simpl. rewrite Hk. by eexists.
Qed.

Lemma getElectionMembers_hit env (snailBegin snailEnd : Z) st q c c' :
  bigDiv (snailEnd + SnailConfirmInterval P) (ElectionPeriodNumber P) = Ok q ->
  lruGet (Uint64 (if snailEnd + SnailConfirmInterval P <? ElectionPeriodNumber P
                  then 0 else q)) (commiteeCache st) = Some (c, c') ->
  getElectionMembers P env snailBegin snailEnd st = Ok (c, setCache c' st).
Proof.
  intros Hdiv Hget. unfold getElectionMembers. runM. rewrite Hdiv. cbn beta iota.
  by rewrite Hget.
Qed.

(** [getElectionMembers] leaves the switch lists of the store and the
    switchover state. *)
Lemma getElectionMembers_states env (snailBegin snailEnd : Z) st c st1 :
  getElectionMembers P env snailBegin snailEnd st = Ok (c, st1) ->
  dbCommitteeStates st1 = dbCommitteeStates st /\
  curCommittee st1 = curCommittee st /\
  nextCommittee st1 = nextCommittee st /\
  startSwitchover st1 = startSwitchover st.
Proof.
  unfold getElectionMembers. runM.
  destruct (bigDiv _ _) as [q|]; cbn beta iota; [|discriminate].
  destruct (lruGet _ (commiteeCache st)) as [[cached cache']|]; cbn beta iota.
  - intros [= _ <-]. by repeat split.
  - destruct (dbCommittee st !! _) as [stored|]; cbn beta iota.
    + intros [= _ <-]. by repeat split.
    + destruct (electCommittee P env st snailBegin snailEnd); cbn beta iota;
        [|discriminate].
      intros [= _ <-]. by repeat split.
Qed.

(** X16.  Elections are memoised by the end of their window: once
    [getElectionMembers] has answered, a later call for the same end number
    returns the same committee from the cache, whatever the chain then
    holds, and leaves the store as it is. *)
Theorem getElectionMembers_memo env (snailBegin snailEnd : Z) st c st1 :
  getElectionMembers P env snailBegin snailEnd st = Ok (c, st1) ->
  forall env' snailBegin',
    exists st2,
      getElectionMembers P env' snailBegin' snailEnd st1 = Ok (c, st2) /\
      dbCommittee st2 = dbCommittee st1.
Proof.
  intros H env' b'.
  assert (Hhit : exists q c',
            bigDiv (snailEnd + SnailConfirmInterval P) (ElectionPeriodNumber P) = Ok q /\
            lruGet (Uint64 (if snailEnd + SnailConfirmInterval P <? ElectionPeriodNumber P
                            then 0 else q)) (commiteeCache st1) = Some (c, c')).
  { revert H. unfold getElectionMembers. runM.
    destruct (bigDiv _ _) as [q|]; cbn beta iota; [|discriminate].
    set (k := Uint64 (if _ <? _ then 0 else q)).
    destruct (lruGet k (commiteeCache st)) as [[committee cache']|] eqn:Hget.
    - intros [= -> <-]. destruct (lruGet_again _ _ _ _ Hget) as [c'' Hc''].
      by exists q, c''.
    - destruct (dbCommittee st !! k) as [members|] eqn:Hdb.
      + intros [= -> <-]. destruct (lruAdd_hit k c (commiteeCache st)) as [c'' Hc''].
        by exists q, c''.
      + destruct (electCommittee P env st snailBegin snailEnd) as [members|];
          cbn beta iota; [|discriminate].
        intros [= -> <-]. destruct (lruAdd_hit k c (commiteeCache st)) as [c'' Hc''].
        by exists q, c''. }
  destruct Hhit as (q & c' & Hdiv & Hget).
  exists (setCache c' st1). split; [|reflexivity].
  by apply (getElectionMembers_hit env' b' snailEnd st1 q).
Qed.

(** X17.  [getElectionMembers] never replaces a stored committee: it writes
    the store only under a number that had no entry, and then what it
    returns; the switch lists, the committees and the feed stay. *)
Theorem getElectionMembers_keeps_store env (snailBegin snailEnd : Z) st c st1 :
  getElectionMembers P env snailBegin snailEnd st = Ok (c, st1) ->
  (forall k x, dbCommittee st !! k = Some x -> dbCommittee st1 !! k = Some x) /\
  (forall k x, dbCommittee st1 !! k = Some x ->
     dbCommittee st !! k = Some x \/ (dbCommittee st !! k = None /\ x = c)) /\
  dbCommitteeStates st1 = dbCommitteeStates st /\
  electionFeed st1 = electionFeed st /\
  curCommittee st1 = curCommittee st /\
  nextCommittee st1 = nextCommittee st /\
  startSwitchover st1 = startSwitchover st.
Proof.
  unfold getElectionMembers. runM.
  destruct (bigDiv _ _) as [q|]; cbn beta iota; [|discriminate].
  set (k := Uint64 (if _ <? _ then 0 else q)).
  destruct (lruGet k (commiteeCache st)) as [[committee cache']|] eqn:Hget.
  { intros [= <- <-]. simpl. repeat split; auto. }
  destruct (dbCommittee st !! k) as [members|] eqn:Hdb.
  { intros [= <- <-]. simpl. repeat split; auto. }
  destruct (electCommittee P env st snailBegin snailEnd) as [members|];
    cbn beta iota; [|discriminate].
  intros [= <- <-]. simpl. repeat split.
  - intros k' x Hx. rewrite lookup_insert_ne; [exact Hx|]. intros <-. congruence.
  - intros k' x. rewrite lookup_insert. case_decide as Hk.
    + intros [= <-]. subst k'. by right.
    + by left.
Qed.

End ElectionStore.

Lemma getElectionMembers_memo_witness :
  exists c st1 st2,
    election.getElectionMembers examples.params (examples.lotteryEnv examples.lotteryChain)
      1 3 (examples.engineWith None None) = Ok (c, st1) /\
    election.getElectionMembers examples.params (examples.electionEnv (fun _ => None))
      7 3 st1 = Ok (c, st2).
Proof.
  destruct (election.getElectionMembers examples.params
              (examples.lotteryEnv examples.lotteryChain) 1 3
              (examples.engineWith None None)) as [[c st1]|] eqn:H;
    [|exfalso; vm_compute in H; discriminate].
  destruct (getElectionMembers_memo _ _ _ _ _ _ _ H
              (examples.electionEnv (fun _ => None)) 7) as (st2 & H2 & _).
  exists c, st1, st2. split; [reflexivity|exact H2].
Defined.

Lemma getElectionMembers_keeps_store_witness :
  exists c st1,
    election.getElectionMembers examples.params (examples.lotteryEnv examples.lotteryChain)
      1 3 (examples.engineWith None None) = Ok (c, st1) /\
    election.dbCommitteeStates st1
      = election.dbCommitteeStates (examples.engineWith None None).
Proof.
  destruct (election.getElectionMembers examples.params
              (examples.lotteryEnv examples.lotteryChain) 1 3
              (examples.engineWith None None)) as [[c st1]|] eqn:H;
    [|exfalso; vm_compute in H; discriminate].
  exists c, st1. split; [reflexivity|].
  exact (proj1 (proj2 (proj2 (getElectionMembers_keeps_store _ _ _ _ _ _ _ H)))).
Defined.

(** ** The election engine: promotion, switch infos and the store *)

Section ElectionEvents.

Import election.

Ltac runM :=
  repeat (progress (unfold mbind, ret, gets, modify, lift, panic, send,
                      ReadCommittee, WriteCommittee, ReadCommitteeStates,
                      WriteCommitteeStates;
                    cbn beta iota)).

(** X18.  What a fast-chain event does, case by case.  A nil block, a
    block while no switchover is open, and a block whose number is not the
    end of the current committee leave the engine as it is.  While a
    switchover is open, the block whose number is the end of the current
    committee promotes the next committee: the engine sends the stop of the
    current committee and after it the start of the next, the next
    committee becomes the current one, no next committee is left and the
    switchover is closed; nothing else changes.  The event is a nil
    dereference exactly when a switchover is open and there is no current
    committee, or the current committee has no end, or the block is the end
    of the current committee and there is no next committee. *)
Theorem loopFastEvent_promotes (b : FastBlock) (st : Election) :
  loopFastEvent None st = Ok (tt, st) /\
  (startSwitchover st = false -> loopFastEvent (Some b) st = Ok (tt, st)) /\
  (forall cc endFast,
     startSwitchover st = true -> curCommittee st = Some cc ->
     endFastNumber cc = Some endFast -> endFast <> fastNumber b ->
     loopFastEvent (Some b) st = Ok (tt, st)) /\
  (forall cc nc,
     startSwitchover st = true -> curCommittee st = Some cc ->
     endFastNumber cc = Some (fastNumber b) -> nextCommittee st = Some nc ->
     exists st',
       loopFastEvent (Some b) st = Ok (tt, st') /\
       curCommittee st' = Some nc /\
       nextCommittee st' = None /\
       startSwitchover st' = false /\
       electionFeed st' =
         electionFeed st ++
           [mkElectionEvent CommitteeStop (committeeId cc) (beginFastNumber cc)
              (endFastNumber cc) (members cc) (backupMembers cc);
            mkElectionEvent CommitteeStart (committeeId nc) (beginFastNumber nc)
              None (members nc) (backupMembers nc)] /\
       genesisCommittee st' = genesisCommittee st /\
       defaultMembers st' = defaultMembers st /\
       commiteeCache st' = commiteeCache st /\
       electionMode st' = electionMode st /\
       singleNode st' = singleNode st /\
       dbCommittee st' = dbCommittee st /\
       dbCommitteeStates st' = dbCommitteeStates st) /\
  (loopFastEvent (Some b) st = Panic <->
   startSwitchover st = true /\
   (curCommittee st = None \/
    (exists cc, curCommittee st = Some cc /\ endFastNumber cc = None) \/
    (exists cc, curCommittee st = Some cc /\ endFastNumber cc = Some (fastNumber b) /\
                nextCommittee st = None))).
Proof.
  split; [reflexivity|]. split; [|split; [|split]].
  - intros Hsw. unfold loopFastEvent. runM. by rewrite Hsw.
  - intros cc endFast Hsw Hcur Hend Hne. unfold loopFastEvent. runM.
    rewrite Hsw, Hcur. cbn beta iota. rewrite Hend.
    by destruct (Z.eqb_spec endFast (fastNumber b)).
  - intros cc nc Hsw Hcur Hend Hnext. unfold loopFastEvent. runM.
    rewrite Hsw, Hcur. cbn beta iota. rewrite Hend, Z.eqb_refl. runM.
    rewrite Hnext. runM.
    eexists. split; [reflexivity|]. simpl. rewrite <- app_assoc.
    by repeat split.
  - unfold loopFastEvent. runM.
    destruct (startSwitchover st) eqn:Hsw; [|split; [discriminate|by intros [? _]]].
    destruct (curCommittee st) as [cc|] eqn:Hcur; [|split; [by auto|reflexivity]].
    destruct (endFastNumber cc) as [endFast|] eqn:Hend.
    + destruct (Z.eqb_spec endFast (fastNumber b)) as [->|Hne].
      * runM. destruct (nextCommittee st) as [nc|] eqn:Hnext; runM.
        -- split; [discriminate|].
           intros [_ [H|[(cc' & [= <-] & H)|(cc' & [= <-] & _ & H)]]]; congruence.
        -- split; [|reflexivity]. intros _. split; [reflexivity|].
           right. right. by exists cc.
      * split; [discriminate|].
        intros [_ [H|[(cc' & [= <-] & H)|(cc' & [= <-] & H & _)]]]; congruence.
    + split; [|reflexivity]. intros _. split; [reflexivity|].
      right. left. by exists cc.
Qed.

(** X19.  An applied switch info is persisted and announced: the committee
    it names, current or next, ends its switch list with the number of the
    block, the store holds that list under the id of the info, and the last
    event sent is the update of that committee with the member lists of
    [filterWithSwitchInfo]. *)
Theorem updateMembers_persists env (fastNum : Z) (infos : SwitchInfos) st st' :
  updateMembers env fastNum (Some infos) st = Ok (UpdateApplied, st') ->
  exists c ms bs,
    (curCommittee st' = Some c \/ nextCommittee st' = Some c) /\
    CID infos = Uint64 (committeeId c) /\
    last (switches c) = Some (Uint64 fastNum) /\
    dbCommitteeStates st' !! CID infos = Some (switches c) /\
    filterWithSwitchInfo env c = Ok (ms, bs) /\
    last (electionFeed st') =
      Some (mkElectionEvent CommitteeUpdate (committeeId c) fastNum
              (Some (default 0 (endFastNumber c))) ms bs).
Proof.
  unfold updateMembers.
  destruct (Vals infos) as [|v vs]; [discriminate|]. runM.
  destruct (curCommittee st) as [cc|] eqn:Hcur; [|discriminate].
  destruct (Z.eqb_spec (CID infos) (Uint64 (committeeId cc))) as [Hid|Hid].
  - unfold applyUpdate. runM.
    destruct (filterWithSwitchInfo env _) as [[ms bs]|] eqn:Hf; cbn beta iota;
      [|discriminate].
    intros [= <-].
    exists (withSwitches cc (switches cc ++ [Uint64 fastNum])), ms, bs. simpl.
    repeat split; try assumption.
    + by left.
    + by rewrite last_snoc.
    + by rewrite lookup_insert_eq.
    + rewrite last_snoc. by destruct (endFastNumber cc).
  - runM. destruct (nextCommittee st) as [nc|] eqn:Hnext; [|discriminate].
    destruct (Z.eqb_spec (CID infos) (Uint64 (committeeId nc))) as [Hid'|Hid'];
      [|discriminate].
    unfold applyUpdate. runM.
    destruct (filterWithSwitchInfo env _) as [[ms bs]|] eqn:Hf; cbn beta iota;
      [|discriminate].
    intros [= <-].
    exists (withSwitches nc (switches nc ++ [Uint64 fastNum])), ms, bs. simpl.
    repeat split; try assumption.
    + by right.
    + by rewrite last_snoc.
    + by rewrite lookup_insert_eq.
    + rewrite last_snoc. by destruct (endFastNumber nc).
Qed.

(** X20.  [NewElection]: in single-node mode the genesis committee is its
    first member, and creation fails without one; otherwise it is the
    genesis committee of the chain. The default members are the genesis
    committee with the flag "unused", and no committee is current yet. *)
Theorem NewElection_defaults (genesis : list CommitteeMember) (nodeType : bool)
    (db : gmap Z ElectionCommittee) (dbStates : gmap Z (list Z)) :
  match NewElection genesis nodeType db dbStates with
  | Ok e =>
    genesisCommittee e = (if nodeType then firstn 1 genesis else genesis) /\
    (nodeType = true -> length (genesisCommittee e) = 1%nat) /\
    map Publickey (defaultMembers e) = map Publickey (genesisCommittee e) /\
    map Coinbase (defaultMembers e) = map Coinbase (genesisCommittee e) /\
    map MType (defaultMembers e) = map MType (genesisCommittee e) /\
    Forall (fun m => Flag m = StateUnusedFlag) (defaultMembers e) /\
    curCommittee e = None /\ nextCommittee e = None /\
    electionMode e = ElectModeEtrue /\ electionFeed e = []
  | Panic => nodeType = true /\ genesis = []
  end.
Proof.
  unfold NewElection. destruct nodeType; [destruct genesis as [|g rest]|]; simpl.
  - by split.
  - repeat split; auto; repeat constructor.
  - repeat split; try discriminate.
    + rewrite map_map. reflexivity.
    + rewrite map_map. reflexivity.
    + rewrite map_map. reflexivity.
    + apply List.Forall_forall. intros m Hm. apply in_map_iff in Hm as (? & <- & _).
      reflexivity.
Qed.

End ElectionEvents.

(** The theorem at the last fast block, 1800, of committee 1 while the
    switchover to committee 2 is open. *)
Lemma loopFastEvent_promotes_witness :
  exists st',
    election.loopFastEvent
      (Some (election.mkFastBlock 1800 0 (election.mkSwitchInfos 0 [])))
      (election.setCommittees
         (Some (election.withEndFastNumber examples.committeeOne 1800))
         (Some examples.committeeTwo) true (examples.engineWith None None))
    = Ok (tt, st') /\
    election.curCommittee st' = Some examples.committeeTwo /\
    election.nextCommittee st' = None /\
    election.startSwitchover st' = false /\
    map election.Option (election.electionFeed st')
      = [election.CommitteeStop; election.CommitteeStart].
Proof.
  destruct (loopFastEvent_promotes
              (election.mkFastBlock 1800 0 (election.mkSwitchInfos 0 []))
              (election.setCommittees
                 (Some (election.withEndFastNumber examples.committeeOne 1800))
                 (Some examples.committeeTwo) true (examples.engineWith None None)))
    as (_ & _ & _ & Hpromote & _).
  destruct (Hpromote (election.withEndFastNumber examples.committeeOne 1800)
              examples.committeeTwo eq_refl eq_refl eq_refl eq_refl)
    as (st' & Hrun & Hcur & Hnext & Hsw & Hfeed & _).
  exists st'. split; [exact Hrun|]. split; [exact Hcur|]. split; [exact Hnext|].
  split; [exact Hsw|]. rewrite Hfeed. reflexivity.
Defined.

Lemma updateMembers_persists_witness :
  exists st',
    election.updateMembers examples.switchEnv 1740
      (Some (election.mkSwitchInfos 1
               [election.mkSwitchEnter [byte_of_Z 2] election.StateRemovedFlag]))
      (examples.engineWith (Some examples.committeeOne) None)
    = Ok (election.UpdateApplied, st') /\
    exists c ms bs,
      (election.curCommittee st' = Some c \/ election.nextCommittee st' = Some c) /\
      1 = Uint64 (election.committeeId c) /\
      last (election.switches c) = Some (Uint64 1740) /\
      election.dbCommitteeStates st' !! 1 = Some (election.switches c) /\
      election.filterWithSwitchInfo examples.switchEnv c = Ok (ms, bs) /\
      last (election.electionFeed st') =
        Some (election.mkElectionEvent election.CommitteeUpdate (election.committeeId c)
                1740 (Some (default 0 (election.endFastNumber c))) ms bs).
Proof.
  destruct (election.updateMembers examples.switchEnv 1740
              (Some (election.mkSwitchInfos 1
                       [election.mkSwitchEnter [byte_of_Z 2] election.StateRemovedFlag]))
              (examples.engineWith (Some examples.committeeOne) None))
    as [[[| |] st']|] eqn:H; try (exfalso; vm_compute in H; discriminate).
  exists st'. split; [reflexivity|].
  exact (updateMembers_persists _ _ _ _ _ H).
Defined.

(** ** The election engine: [Start] *)

Section ElectionStart.

Import election.

Variable P : Params.
Variable env : Env.

Ltac runM :=
  repeat (progress (unfold mbind, ret, gets, modify, lift, panic, send,
                      ReadCommittee, WriteCommittee, ReadCommitteeStates,
                      WriteCommitteeStates;
                    cbn beta iota)).

Ltac fields :=
  cbn [curCommittee nextCommittee startSwitchover dbCommitteeStates dbCommittee
       electionFeed commiteeCache setCommittees setDbStates setDbCommittee setCache
       committeeId switches withSwitches endFastNumber beginFastNumber
       firstElectionNumber lastElectionNumber switchCheckNumber members
       backupMembers] in *.

Lemma rewindSwitches_kept (fastHead : Z) (sw : list Z) :
  match rewindSwitches fastHead sw with
  | Some kept =>
    Forall (fun n => n <= fastHead) kept /\
    exists s rest, sw = kept ++ s :: rest /\ fastHead < s
  | None => Forall (fun n => n <= fastHead) sw
  end.
Proof.
  induction sw as [|s sw IH]; simpl; [constructor|].
  destruct (Z.ltb_spec fastHead s) as [Hlt|Hge].
  - split; [constructor|]. by exists s, sw.
  - destruct (rewindSwitches fastHead sw) as [kept|].
    + destruct IH as (Hk & s' & rest & -> & Hs'). split; [by constructor|].
      by exists s', rest.
    + by constructor.
Qed.

Lemma Uint64_succ_ne (x : Z) : Uint64 (x + 1) <> Uint64 x.
Proof.
  unfold Uint64. intros H.
  assert (Hd : (Z.abs (x + 1) - Z.abs x) mod 2 ^ 64 = 0).
  { rewrite Zminus_mod, H, Z.sub_diag. reflexivity. }
  assert (Hc : Z.abs (x + 1) - Z.abs x = 1 \/ Z.abs (x + 1) - Z.abs x = -1) by lia.
  destruct Hc as [Hc|Hc]; rewrite Hc in Hd; vm_compute in Hd; discriminate.
Qed.

(** The committee [getCommittee] builds carries the switch list the store
    holds under its id. *)
Lemma getCommittee_persisted (fastNum snailNum : Z) (st : Election) (c : committee) st1 :
  getCommittee P env fastNum snailNum st = Ok (Some c, st1) ->
  persisted st1 c /\
  dbCommitteeStates st1 = dbCommitteeStates st /\
  nextCommittee st1 = nextCommittee st /\
  startSwitchover st1 = startSwitchover st.
Proof.
  unfold getCommittee, persisted. runM.
  destruct (bigDiv snailNum _) as [cn|]; cbn beta iota; [|discriminate].
  destruct (Z.eqb_spec cn 0) as [Hzero|Hnz].
  { intros [= <- <-]. by repeat split. }
  destruct (getLastNumber P env _ _) as [[lastFast|]|]; cbn beta iota;
    [|discriminate|discriminate].
  destruct (fastNum <=? lastFast).
  - destruct (Z.eqb_spec cn 1) as [Hone|Hnone].
    { intros [= <- <-]. by repeat split. }
    destruct (getLastNumber P env _ _) as [[preEndFast|]|]; cbn beta iota;
      [|discriminate|discriminate].
    destruct (getElectionMembers P env _ _ st) as [[elected st2]|] eqn:Hel;
      cbn beta iota; [|discriminate].
    apply (getElectionMembers_states P) in Hel as (Hs & _ & Hn & Hsw).
    intros [= <- <-]. fields. by repeat split.
  - destruct (getElectionMembers P env _ _ st) as [[elected st2]|] eqn:Hel;
      cbn beta iota; [|discriminate].
    apply (getElectionMembers_states P) in Hel as (Hs & _ & Hn & Hsw).
    intros [= <- <-]. fields. by repeat split.
Qed.

Lemma rewindCommittee_spec (fastHead : Z) (found cur : committee) (st st2 : Election) :
  rewindCommittee fastHead found st = Ok (cur, st2) ->
  persisted st found ->
  Forall (fun n => n <= Uint64 fastHead) (switches cur) /\
  persisted st2 cur /\
  cur = withSwitches found (switches cur) /\
  nextCommittee st2 = nextCommittee st /\
  startSwitchover st2 = startSwitchover st.
Proof.
  unfold rewindCommittee, persisted.
  pose proof (rewindSwitches_kept (Uint64 fastHead) (switches found)) as Hrw.
  destruct (rewindSwitches _ _) as [kept|]; runM.
  - intros [= <- <-] _. destruct Hrw as [Hk _]. fields.
    rewrite lookup_insert_eq. by repeat split.
  - intros [= <- <-] Hp. repeat split; try assumption. by destruct found.
Qed.

Lemma electOnStart_spec (fastHead : Z) (cur : committee) (st st' : Election) :
  electOnStart P env fastHead cur st = Ok (StartDone, st') ->
  curCommittee st = Some cur ->
  nextCommittee st = None ->
  startSwitchover st = false ->
  persisted st cur ->
  Forall (fun n => n <= Uint64 fastHead) (switches cur) ->
  exists cur',
    curCommittee st' = Some cur' /\
    Forall (fun n => n <= Uint64 fastHead) (switches cur') /\
    persisted st' cur' /\
    match nextCommittee st' with
    | Some nc =>
      cur' = cur /\
      startSwitchover st' = true /\
      switches nc = [] /\
      persisted st' nc /\
      committeeId nc = committeeId cur + 1 /\
      (exists e, endFastNumber cur = Some e /\ 0 < e /\ e <> fastHead /\
                 beginFastNumber nc = e + 1) /\
      firstElectionNumber nc = lastElectionNumber cur + 1 /\
      lastElectionNumber nc = lastElectionNumber cur + ElectionPeriodNumber P
    | None => startSwitchover st' = false
    end.
Proof.
  unfold electOnStart, persisted. intros H Hcur Hnext Hsw Hp Hle.
  destruct (endFastNumber cur) as [e|] eqn:Hend; [|discriminate].
  destruct (Z.ltb_spec 0 e) as [Hpos|Hnpos]; revert H; runM.
  2: { intros [= <-]. exists cur. rewrite Hnext. by repeat split. }
  destruct (getElectionMembers P env _ _ st) as [[elected st1]|] eqn:Hel;
    cbn beta iota; [|discriminate].
  apply (getElectionMembers_states P) in Hel as (Hs & Hc1 & Hn1 & Hsw1).
  destruct (default [] (dbCommitteeStates st1 !! Uint64 (committeeId cur + 1)))
    as [|s0 sw0] eqn:Hread; runM;
    (destruct (Z.eqb_spec e fastHead) as [He|He]; runM; intros [= <-]; fields).
  - eexists. split; [reflexivity|]. fields. split; [constructor|].
    split; [exact Hread|reflexivity].
  - exists cur. split; [reflexivity|]. split; [exact Hle|].
    split; [by rewrite Hs|]. repeat split; try reflexivity.
    + exact Hread.
    + exists e. by repeat split.
    + lia.
  - eexists. split; [reflexivity|]. fields. split; [constructor|].
    split; [by rewrite lookup_insert_eq|reflexivity].
  - exists cur. split; [reflexivity|]. split; [exact Hle|].
    split; [rewrite lookup_insert_ne by apply Uint64_succ_ne; by rewrite Hs|].
    repeat split; try reflexivity.
    + by rewrite lookup_insert_eq.
    + exists e. by repeat split.
    + lia.
Qed.

(** X21.  After [Start] the engine has a current committee none of whose
    switch entries is above the fast head, and the store holds the switch
    lists the committees carry. A next committee, when [Start] elects one,
    opens the switchover: it is the committee after the current one, begins
    after the current one's last fast block, has no switch entry, and is
    elected over the period that follows the current one's window; a current
    committee that ended at the fast head is replaced by it at once. *)
Theorem Start_state (fastHead snailHead : Z) (st st' : Election) :
  nextCommittee st = None ->
  startSwitchover st = false ->
  Start P env fastHead snailHead st = Ok (StartDone, st') ->
  exists cur,
    curCommittee st' = Some cur /\
    Forall (fun n => n <= Uint64 fastHead) (switches cur) /\
    persisted st' cur /\
    match nextCommittee st' with
    | Some nc =>
      startSwitchover st' = true /\
      switches nc = [] /\
      persisted st' nc /\
      committeeId nc = committeeId cur + 1 /\
      (exists e, endFastNumber cur = Some e /\ 0 < e /\ e <> fastHead /\
                 beginFastNumber nc = e + 1) /\
      firstElectionNumber nc = lastElectionNumber cur + 1 /\
      lastElectionNumber nc = lastElectionNumber cur + ElectionPeriodNumber P
    | None => startSwitchover st' = false
    end.
Proof.
  intros Hnext Hsw. unfold Start. runM.
  destruct (getCommittee P env fastHead snailHead st) as [[[found|] st1]|] eqn:Hgc;
    cbn beta iota; [|discriminate|discriminate].
  apply getCommittee_persisted in Hgc as (Hp1 & _ & Hn1 & Hsw1).
  destruct (rewindCommittee fastHead found st1) as [[cur st2]|] eqn:Hrw;
    cbn beta iota; [|discriminate].
  apply rewindCommittee_spec in Hrw as (Hle & Hp2 & _ & Hn2 & Hsw2); [|exact Hp1].
  intros H. apply electOnStart_spec in H; fields.
  - destruct H as (cur' & Hc & Hl & Hp & H). exists cur'.
    split; [exact Hc|]. split; [exact Hl|]. split; [exact Hp|].
    destruct (nextCommittee st') as [nc|]; [|exact H].
    destruct H as (-> & H). exact H.
  - reflexivity.
  - congruence.
  - congruence.
  - exact Hp2.
  - exact Hle.
Qed.

End ElectionStart.

Lemma Start_state_witness :
  election.nextCommittee (examples.engineWith None None) = None /\
  election.startSwitchover (examples.engineWith None None) = false /\
  exists st',
    election.Start examples.params (examples.electionEnv (examples.snailChainWithout 0))
      1000 200 (examples.engineWith None None) = Ok (election.StartDone, st') /\
    exists cur,
      election.curCommittee st' = Some cur /\
      Forall (fun n => n <= Uint64 1000) (election.switches cur) /\
      election.persisted st' cur /\
      match election.nextCommittee st' with
      | Some nc =>
        election.startSwitchover st' = true /\
        election.switches nc = [] /\
        election.persisted st' nc /\
        election.committeeId nc = election.committeeId cur + 1 /\
        (exists e, election.endFastNumber cur = Some e /\ 0 < e /\ e <> 1000 /\
                   election.beginFastNumber nc = e + 1) /\
        election.firstElectionNumber nc = election.lastElectionNumber cur + 1 /\
        election.lastElectionNumber nc
          = election.lastElectionNumber cur + election.ElectionPeriodNumber examples.params
      | None => election.startSwitchover st' = false
      end.
Proof.
  split; [reflexivity|]. split; [reflexivity|].
  destruct (election.Start examples.params
              (examples.electionEnv (examples.snailChainWithout 0)) 1000 200
              (examples.engineWith None None)) as [[[|] st']|] eqn:H;
    try (exfalso; vm_compute in H; discriminate).
  exists st'. split; [reflexivity|].
  exact (Start_state examples.params _ 1000 200 (examples.engineWith None None) st'
           eq_refl eq_refl H).
Defined.

(** ** The election engine: the update event and the effective members *)

Section ElectionUpdateEvent.

Import election.

Ltac runM :=
  repeat (progress (unfold mbind, ret, gets, modify, lift, panic, send,
                      ReadCommittee, WriteCommittee, ReadCommitteeStates,
                      WriteCommitteeStates;
                    cbn beta iota)).

Lemma flagged_effective (states : gmap (list byte) MemberFlag)
    (ms bs : list CommitteeMember) :
  Forall (fun m => Flag m <> StateRemovedFlag) ms ->
  Forall (fun m => Flag m <> StateUsedFlag) bs ->
  map Publickey
    (List.filter (fun m => negb (bool_decide (Flag m = StateRemovedFlag)))
       (map (fun m => match states !! Publickey m with
                      | Some StateRemovedFlag => setFlag m StateRemovedFlag
                      | _ => m
                      end) ms)
     ++ List.filter (fun m => bool_decide (Flag m = StateUsedFlag))
          (map (fun m => match states !! Publickey m with
                         | Some StateAppendFlag => setFlag m StateUsedFlag
                         | Some StateRemovedFlag => setFlag m StateRemovedFlag
                         | _ => m
                         end) bs))
  = map Publickey (effectiveMembers states ms bs).
Proof.
  intros Hms Hbs. unfold effectiveMembers. rewrite !map_app. f_equal.
  - induction Hms as [|m ms Hm Hms IH]; [reflexivity|]. simpl.
    destruct (states !! Publickey m) as [[]|]; simpl;
      try (rewrite (bool_decide_eq_false_2 _ Hm); simpl; by rewrite IH).
    exact IH.
  - induction Hbs as [|m bs Hm Hbs IH]; [reflexivity|]. simpl.
    destruct (states !! Publickey m) as [[]|]; simpl;
      try (rewrite (bool_decide_eq_false_2 _ Hm); simpl; exact IH).
    + exact IH.
    + by rewrite IH.
Qed.

(** X22.  The member lists of an update event give the committee
    [GetCommittee] returns for a fast block after the last switch: for a
    committee whose members are not flagged "removed" and whose backups are
    not flagged "used", the members the event does not flag "removed",
    followed by the backups it flags "used", have the keys of
    [GetCommittee]'s members, in order. *)
Theorem filterWithSwitchInfo_effective P env (fastNum : Z) (c : committee) st st' ms bs :
  electedCommittee P env fastNum st = Ok (Some c, st') ->
  Forall (fun n => n < Uint64 fastNum) (switches c) ->
  filterWithSwitchInfo env c = Ok (ms, bs) ->
  Forall (fun m => Flag m <> StateRemovedFlag) (members c) ->
  Forall (fun m => Flag m <> StateUsedFlag) (backupMembers c) ->
  exists eff,
    GetCommittee P env fastNum st = Ok (Some eff, st') /\
    map Publickey eff
      = map Publickey
          (List.filter (fun m => negb (bool_decide (Flag m = StateRemovedFlag))) ms
           ++ List.filter (fun m => bool_decide (Flag m = StateUsedFlag)) bs) /\
    map Publickey ms = map Publickey (members c) /\
    map Publickey bs = map Publickey (backupMembers c).
Proof.
  intros Hel Hbelow Hf Hms Hbs. unfold GetCommittee. runM. rewrite Hel. cbn beta iota.
  unfold filterWithSwitchInfo in Hf.
  destruct (switches c) as [|s sw] eqn:Hsw.
  - injection Hf as <- <-. simpl. eexists. split; [reflexivity|].
    split; [|by split].
    assert (H1 : List.filter (fun m => negb (bool_decide (Flag m = StateRemovedFlag)))
                   (members c) = members c).
    { induction Hms as [|m l Hm Hl IH]; [reflexivity|]. simpl.
      rewrite (bool_decide_eq_false_2 _ Hm). simpl. by rewrite IH. }
    assert (H2 : List.filter (fun m => bool_decide (Flag m = StateUsedFlag))
                   (backupMembers c) = []).
    { induction Hbs as [|m l Hm Hl IH]; [reflexivity|]. simpl.
      by rewrite (bool_decide_eq_false_2 _ Hm). }
    by rewrite H1, H2, app_nil_r.
  - destruct (last (s :: sw)) as [lastSwitch|] eqn:Hlast;
      [|by apply last_None in Hlast].
    assert (Hlt : lastSwitch <? Uint64 fastNum = true).
    { apply Z.ltb_lt. apply last_Some_elem_of in Hlast.
      by apply (proj1 (Forall_forall _ _) Hbelow). }
    rewrite Hlt. unfold bind in Hf.
    destruct (replayAll env (s :: sw) ∅) as [states|]; [|discriminate].
    injection Hf as <- <-. runM. eexists. split; [reflexivity|].
    split; [symmetry; by apply flagged_effective|].
    split; rewrite map_map; apply map_ext; intros m;
      by destruct (states !! Publickey m) as [[]|].
Qed.

End ElectionUpdateEvent.

Section ElectionUpdateEventExample.

Import election.

Lemma filterWithSwitchInfo_effective_witness :
  exists st' ms bs eff,
    election.electedCommittee examples.params examples.switchEnv 1760
      (examples.engineWith (Some examples.switchedWithBackups) None)
      = Ok (Some examples.switchedWithBackups, st') /\
    Forall (fun n => n < Uint64 1760) (election.switches examples.switchedWithBackups) /\
    election.filterWithSwitchInfo examples.switchEnv examples.switchedWithBackups
      = Ok (ms, bs) /\
    election.GetCommittee examples.params examples.switchEnv 1760
      (examples.engineWith (Some examples.switchedWithBackups) None) = Ok (Some eff, st') /\
    map election.Publickey eff
      = map election.Publickey
          (List.filter (fun m => negb (bool_decide (election.Flag m
                                                    = election.StateRemovedFlag))) ms
           ++ List.filter (fun m => bool_decide (election.Flag m
                                                 = election.StateUsedFlag)) bs).
Proof.
  destruct (election.electedCommittee examples.params examples.switchEnv 1760
              (examples.engineWith (Some examples.switchedWithBackups) None))
    as [[[c|] st']|] eqn:Hel; try (exfalso; vm_compute in Hel; discriminate).
  assert (Hc : c = examples.switchedWithBackups).
  { vm_compute in Hel. injection Hel as <- _. reflexivity. }
  subst c.
  destruct (election.filterWithSwitchInfo examples.switchEnv examples.switchedWithBackups)
    as [[ms bs]|] eqn:Hf; [|exfalso; vm_compute in Hf; discriminate].
  assert (Hbelow : Forall (fun n => n < Uint64 1760)
                     (election.switches examples.switchedWithBackups)).
  { repeat constructor. }
  assert (Hms : Forall (fun m => election.Flag m <> election.StateRemovedFlag)
                  (election.members examples.switchedWithBackups)).
  { repeat constructor; discriminate. }
  assert (Hbs : Forall (fun m => election.Flag m <> election.StateUsedFlag)
                  (election.backupMembers examples.switchedWithBackups)).
  { repeat constructor; discriminate. }
  destruct (filterWithSwitchInfo_effective _ _ _ _ _ _ _ _ Hel Hbelow Hf Hms Hbs)
    as (eff & Hg & Heff & _).
  exists st', ms, bs, eff. repeat split; assumption.
Defined.

End ElectionUpdateEventExample.

(** ** The election engine: the lottery *)

Section ElectionLottery.

Import election.

Variable P : Params.
Variable env : Env.

Lemma electRound_draws (defaults : gset Address) (candidates : list candidateMember)
    (seed : Hash) (round : Z) (st : gset Address * list CommitteeMember)
    (drawn : list candidateMember) :
  snd st = map (fun cm => mkCommitteeMember (coinbase cm) (publickey cm)
                            StateUnusedFlag TypeUnset) drawn ->
  (forall a, a ∈ fst st <-> a ∈ map address drawn) ->
  NoDup (map address drawn) ->
  Forall (fun cm => cm ∈ candidates /\ address cm ∉ defaults) drawn ->
  exists drawn',
    snd (electRound env defaults candidates seed round st)
      = map (fun cm => mkCommitteeMember (coinbase cm) (publickey cm)
                         StateUnusedFlag TypeUnset) drawn' /\
    (forall a, a ∈ fst (electRound env defaults candidates seed round st)
               <-> a ∈ map address drawn') /\
    NoDup (map address drawn') /\
    Forall (fun cm => cm ∈ candidates /\ address cm ∉ defaults) drawn' /\
    (length drawn' <= S (length drawn))%nat.
Proof.
  intros Hacc Hseen Hnd Hall. unfold electRound.
  destruct (List.find _ candidates) as [cm|] eqn:Hfind;
    [|exists drawn; repeat split; by (assumption || apply Hseen || lia)].
  destruct (decide (address cm ∈ defaults));
    [exists drawn; repeat split; by (assumption || apply Hseen || lia)|].
  destruct (decide (address cm ∈ fst st)) as [Hin|Hnin];
    [exists drawn; repeat split; by (assumption || apply Hseen || lia)|].
  exists (drawn ++ [cm]). simpl. rewrite Hacc, !map_app. simpl.
  split; [reflexivity|]. split; [|split; [|split]].
  - intros a. rewrite elem_of_union, elem_of_singleton, elem_of_app, Hseen.
    rewrite list_elem_of_singleton. tauto.
  - apply NoDup_app. split; [exact Hnd|]. split; [|apply NoDup_singleton].
    intros a Ha Ha'. apply list_elem_of_singleton in Ha' as ->.
    apply Hnin. by apply Hseen.
  - apply Forall_app. split; [exact Hall|]. constructor; [|constructor].
    split; [|assumption]. apply find_some in Hfind as [Hin _]. by apply list_elem_of_In.
  - rewrite length_app. simpl. lia.
Qed.

Lemma electRounds_draws (defaults : gset Address) (candidates : list candidateMember)
    (seed : Hash) (n : nat) :
  forall (round : Z) (st : gset Address * list CommitteeMember)
         (drawn : list candidateMember),
    snd st = map (fun cm => mkCommitteeMember (coinbase cm) (publickey cm)
                              StateUnusedFlag TypeUnset) drawn ->
    (forall a, a ∈ fst st <-> a ∈ map address drawn) ->
    NoDup (map address drawn) ->
    Forall (fun cm => cm ∈ candidates /\ address cm ∉ defaults) drawn ->
    exists drawn',
      electRounds env defaults candidates seed n round st
        = map (fun cm => mkCommitteeMember (coinbase cm) (publickey cm)
                           StateUnusedFlag TypeUnset) drawn' /\
      NoDup (map address drawn') /\
      Forall (fun cm => cm ∈ candidates /\ address cm ∉ defaults) drawn' /\
      (length drawn' <= n + length drawn)%nat.
Proof.
  induction n as [|n IH]; intros round st drawn Hacc Hseen Hnd Hall; simpl.
  - exists drawn. repeat split; try assumption. lia.
  - destruct (electRound_draws defaults candidates seed round st drawn
                Hacc Hseen Hnd Hall) as (d1 & H1 & H2 & H3 & H4 & H5).
    destruct (IH (round + 1) _ d1 H1 H2 H3 H4) as (d2 & G1 & G2 & G3 & G4).
    exists d2. repeat split; try assumption. lia.
Qed.

(** X23.  The lottery draws each address at most once and never the address
    of a default member: the list [elect] returns is built, in order, from
    candidates with distinct addresses, none of them the address of a
    default member, each as a member flagged "unused"; it has at most [max
    (1, MaximumCommitteeNumber)] entries. *)
Theorem elect_draws (e : Election) (candidates : list candidateMember) (seed : Hash) :
  exists drawn,
    elect P env e candidates seed
      = map (fun cm => mkCommitteeMember (coinbase cm) (publickey cm)
                         StateUnusedFlag TypeUnset) drawn /\
    NoDup (map address drawn) /\
    Forall (fun cm => cm ∈ candidates /\
                      forall g, g ∈ defaultMembers e ->
                                address cm <> PubkeyToAddress env (Publickey g)) drawn /\
    (length drawn <= Z.to_nat (Z.max 1 (MaximumCommitteeNumber P)))%nat.
Proof.
  unfold elect.
  destruct (electRounds_draws
              (list_to_set (map (fun g => PubkeyToAddress env (Publickey g))
                              (defaultMembers e)))
              candidates seed (Z.to_nat (Z.max 1 (MaximumCommitteeNumber P))) 1 (∅, []) [])
    as (drawn & H1 & H2 & H3 & H4).
  - reflexivity.
  - intros a. simpl. rewrite elem_of_empty. split; [tauto|]. by intros ?%elem_of_nil.
  - constructor.
  - constructor.
  - exists drawn. split; [exact H1|]. split; [exact H2|]. split; [|simpl in H4; lia].
    eapply Forall_impl; [exact H3|]. simpl. intros cm [Hc Hd]. split; [exact Hc|].
    intros g Hg Heq. apply Hd. apply elem_of_list_to_set.
    rewrite Heq. apply (list_elem_of_fmap_2 (fun g => PubkeyToAddress env (Publickey g))).
    exact Hg.
Qed.

(** *** The ranges of the candidates *)

Lemma fold_difficulty_shift (l : list candidateMember) (a : Z) :
  fold_left (fun td member => td + difficulty member) l a
    = a + fold_left (fun td member => td + difficulty member) l 0.
Proof.
  revert a. induction l as [|m l IH]; intros a; simpl; [lia|].
  rewrite (IH (a + difficulty m)), (IH (0 + difficulty m)). lia.
Qed.

Lemma fold_difficulty_nonneg (l : list candidateMember) :
  Forall (fun c => 0 <= difficulty c) l ->
  0 <= fold_left (fun td member => td + difficulty member) l 0.
Proof.
  induction 1 as [|m l Hm Hl IH]; simpl; [lia|].
  rewrite fold_difficulty_shift. lia.
Qed.

Lemma assignRanges_difficulty (rate dd : Z) (l : list candidateMember) :
  map difficulty (assignRanges rate dd l) = map difficulty l.
Proof.
  revert dd. induction l as [|m l IH]; intros dd; [reflexivity|].
  simpl. by rewrite IH.
Qed.

Lemma assignRanges_lower (rate : Z) (l : list candidateMember) :
  0 <= rate ->
  Forall (fun c => 0 <= difficulty c) l ->
  forall dd, Forall (fun c => rate * dd <= lower c) (assignRanges rate dd l).
Proof.
  intros Hrate. induction 1 as [|m l Hm Hl IH]; intros dd; [constructor|].
  simpl. constructor; [simpl; lia|].
  eapply Forall_impl; [apply IH|]. simpl. intros c Hc. nia.
Qed.

Lemma assignRanges_hit (rate : Z) (l : list candidateMember) :
  0 <= rate ->
  Forall (fun c => 0 <= difficulty c) l ->
  l <> [] ->
  forall dd prop,
    rate * dd <= prop < maxUint256 ->
    rate * (dd + fold_left (fun td member => td + difficulty member) l 0) <= maxUint256 ->
    exists pre c post,
      assignRanges rate dd l = pre ++ c :: post /\
      lower c <= prop < upper c /\
      Forall (fun x => upper x <= prop) pre /\
      Forall (fun x => prop < lower x) post.
Proof.
  intros Hrate. induction 1 as [|m l Hm Hl IH]; intros Hne dd prop Hprop Hsum; [done|].
  simpl in Hsum. rewrite fold_difficulty_shift in Hsum.
  destruct l as [|m' l'].
  { exists [], (setRange m (rate * dd) maxUint256), []. simpl.
    repeat split; try lia; constructor. }
  destruct (Z_lt_le_dec prop (rate * (dd + difficulty m))) as [Hin|Hout].
  - exists [], (setRange m (rate * dd) (rate * (dd + difficulty m))),
           (assignRanges rate (dd + difficulty m) (m' :: l')).
    split; [reflexivity|]. split; [simpl; lia|]. split; [constructor|].
    eapply Forall_impl; [by apply assignRanges_lower|]. simpl. intros c Hc. lia.
  - destruct (IH ltac:(done) (dd + difficulty m) prop) as (pre & c & post & Heq & Hc & Hpre & Hpost).
    + lia.
    + etransitivity; [|exact Hsum]. apply Z.mul_le_mono_nonneg_l; lia.
    + exists (setRange m (rate * dd) (rate * (dd + difficulty m)) :: pre), c, post.
      split; [|split; [exact Hc|split; [|exact Hpost]]].
      * change (assignRanges rate dd (m :: m' :: l'))
          with (setRange m (rate * dd) (rate * (dd + difficulty m))
                  :: assignRanges rate (dd + difficulty m) (m' :: l')).
        by rewrite Heq.
      * constructor; [simpl; lia|exact Hpre].
Qed.

(** X24.  The ranges [getCandinates] assigns split the 256-bit space: when
    no candidate has a negative difficulty, every value below [2^256] lies
    in the range of exactly one candidate, the one the draw finds. *)
Theorem getCandinates_ranges (snailBegin snailEnd : Z) (seed : Hash)
    (candidates : list candidateMember) (prop : Z) :
  getCandinates P env snailBegin snailEnd = Ok (Some (seed, candidates)) ->
  Forall (fun c => 0 <= difficulty c) candidates ->
  0 <= prop < maxUint256 ->
  exists pre c post,
    candidates = pre ++ c :: post /\
    lower c <= prop < upper c /\
    Forall (fun x => ~ (lower x <= prop < upper x)) (pre ++ post) /\
    List.find (fun cm => (lower cm <=? prop) && (prop <? upper cm)) candidates = Some c.
Proof.
  unfold getCandinates. intros H Hdiff Hprop.
  destruct (collectBlocks env _ _ _ _) as [[sd [members fruitsCount]]|]; [|discriminate].
  set (cands := List.filter _ members) in H.
  destruct cands as [|c0 cs] eqn:Hcands; [discriminate|].
  set (td := fold_left _ (c0 :: cs) 0) in H.
  unfold bigDiv, bind in H. destruct (Z.eqb_spec td 0) as [Hz|Hnz]; [discriminate|].
  assert (Hc : candidates = assignRanges (Z.sgn td * (maxUint256 / Z.abs td)) 0 (c0 :: cs))
    by congruence.
  clear H. subst candidates.
  assert (Hd0 : Forall (fun c => 0 <= difficulty c) (c0 :: cs)).
  { apply (proj1 (List.Forall_map difficulty (fun d => 0 <= d) _)).
    rewrite <- (assignRanges_difficulty (Z.sgn td * (maxUint256 / Z.abs td)) 0 (c0 :: cs)).
    apply (proj2 (List.Forall_map difficulty (fun d => 0 <= d) _)). exact Hdiff. }
  assert (Htd : 0 < td).
  { pose proof (fold_difficulty_nonneg _ Hd0). fold td in H. lia. }
  assert (Hrate : Z.sgn td * (maxUint256 / Z.abs td) = maxUint256 / td).
  { rewrite Z.sgn_pos, Z.abs_eq by lia. lia. }
  rewrite Hrate in *.
  assert (Hr0 : 0 <= maxUint256 / td) by (apply Z.div_pos; [done|lia]).
  destruct (assignRanges_hit (maxUint256 / td) (c0 :: cs) Hr0 Hd0 ltac:(done) 0 prop)
    as (pre & c & post & Heq & Hc & Hpre & Hpost).
  - lia.
  - rewrite Z.add_0_l. fold td. rewrite Z.mul_comm. apply Z.mul_div_le. lia.
  - exists pre, c, post. split; [exact Heq|]. split; [exact Hc|]. split.
    + apply Forall_app. split.
      * eapply Forall_impl; [exact Hpre|]. simpl. lia.
      * eapply Forall_impl; [exact Hpost|]. simpl. lia.
    + rewrite Heq. clear Heq. induction Hpre as [|x pre Hx Hpre IH]; simpl.
      * by rewrite (proj2 (Z.leb_le _ _) (proj1 Hc)), (proj2 (Z.ltb_lt _ _) (proj2 Hc)).
      * rewrite (proj2 (Z.ltb_ge _ _) Hx), andb_false_r. exact IH.
Qed.

End ElectionLottery.

Lemma getCandinates_ranges_witness :
  exists seed candidates,
    election.getCandinates examples.params (examples.lotteryEnv examples.lotteryChain) 1 3
      = Ok (Some (seed, candidates)) /\
    Forall (fun c => 0 <= election.difficulty c) candidates /\
    0 <= 5 < election.maxUint256 /\
    exists pre c post,
      candidates = pre ++ c :: post /\
      election.lower c <= 5 < election.upper c /\
      Forall (fun x => ~ (election.lower x <= 5 < election.upper x)) (pre ++ post) /\
      List.find (fun cm => (election.lower cm <=? 5) && (5 <? election.upper cm)) candidates
        = Some c.
Proof.
  destruct (election.getCandinates examples.params
              (examples.lotteryEnv examples.lotteryChain) 1 3)
    as [[[seed candidates]|]|] eqn:H; try (exfalso; vm_compute in H; discriminate).
  assert (Hd : Forall (fun c => 0 <= election.difficulty c) candidates).
  { vm_compute in H. injection H as _ <-. repeat constructor; vm_compute; discriminate. }
  assert (Hp : 0 <= 5 < election.maxUint256) by (split; [lia|reflexivity]).
  exists seed, candidates. split; [reflexivity|]. split; [exact Hd|]. split; [exact Hp|].
  exact (getCandinates_ranges _ _ _ _ _ _ _ H Hd Hp).
Defined.

(** ** The sealer: [Seal], [ConSeal] and the nonces *)

Section SealerEntryPoints.

Import minerva.

Variable m : Minerva.

Lemma sealWait_nil (signals : list sealSignal) (r : option SnailBlock) :
  sealWait signals = Some r -> r = None.
Proof.
  induction signals as [|[|] rest IH]; simpl; [discriminate|by intros [= <-]|exact IH].
Qed.

Lemma sealWait_stop (signals : list sealSignal) :
  In SignalStop signals -> sealWait signals = Some None.
Proof.
  induction signals as [|[|] rest IH]; simpl; [tauto|reflexivity|].
  intros [H|H]; [discriminate|by apply IH].
Qed.

(** X25.  [Seal] returns a block only in a fake mode, of the engine or of an
    engine it shares, and then at once: the template with nonce and mix
    digest zero. An engine in a real mode with no shared engine returns the
    nil block when it is stopped, whatever its workers find. *)
Theorem Seal_returns_fake_or_nil (e : Engine) (block : SnailBlock)
    (signals : list sealSignal) :
  (forall b, Seal e block signals = Some (Some b) ->
     b = Block.WithSeal block (fakeHeader (Block.Header block)) /\
     Nonce (header b) = 0 /\ MixDigest (header b) = 0 /\
     fruits b = fruits block /\ Block.IsFruit b = Block.IsFruit block) /\
  (fakeMode e = true ->
   Seal e block signals
     = Some (Some (Block.WithSeal block (fakeHeader (Block.Header block))))) /\
  (fakeMode e = false -> shared e = None ->
   (forall r, Seal e block signals = Some r -> r = None) /\
   (In SignalStop signals -> Seal e block signals = Some None)).
Proof.
  split; [|split].
  - revert e. fix IH 1. intros [fake [s|]] b; simpl; destruct fake;
      try (intros [= <-]; by repeat split).
    + apply IH.
    + intros H. apply sealWait_nil in H. discriminate.
  - destruct e as [fake sh]. simpl. by intros ->.
  - destruct e as [fake sh]. simpl. intros -> ->. split.
    + intros r. apply sealWait_nil.
    + apply sealWait_stop.
Qed.

Lemma mineloop_fruits (block : SnailBlock) (found : list SnailBlock)
    (rest : list sealEvent) :
  fruits block <> None ->
  Forall (fun r => Block.IsFruit r = true) found ->
  mineloop block (map SealFound found ++ rest) = found ++ mineloop block rest.
Proof.
  intros Hf Hall. induction Hall as [|r found Hr Hall IH]; [reflexivity|].
  simpl. destruct (fruits block); [|done]. rewrite Hr. simpl. by rewrite IH.
Qed.

(** X26.  The results [ConSeal] forwards. For a template without fruits it
    sends the first result it receives and ends; for a full template it
    sends every fruit it receives up to the first block, sends that block
    and ends. Nothing is sent after a stop. *)
Theorem mineloop_forwards (block : SnailBlock) (events : list sealEvent) :
  (fruits block = None -> (length (mineloop block events) <= 1)%nat) /\
  (fruits block = None -> forall r rest,
     events = SealFound r :: rest -> mineloop block events = [r]) /\
  (fruits block <> None ->
   forall found rest,
     events = map SealFound found ++ rest ->
     Forall (fun r => Block.IsFruit r = true) found ->
     mineloop block events = found ++ mineloop block rest) /\
  (fruits block <> None ->
   forall r rest, Block.IsFruit r = false ->
     mineloop block (SealFound r :: rest) = [r]) /\
  (forall rest, mineloop block (SealStop :: rest) = []).
Proof.
  repeat split.
  - intros Hf. destruct events as [|[|r|] rest]; simpl; try lia. rewrite Hf. simpl. lia.
  - intros Hf r rest ->. simpl. by rewrite Hf.
  - intros Hf found rest -> Hall. by apply mineloop_fruits.
  - intros Hf r rest Hr. simpl. destruct (fruits block); [|done]. by rewrite Hr.
Qed.

Lemma search_fruits_then_block (fuel : nat) (block : SnailBlock) (hash : list byte)
    (target fruitTarget : Z) :
  forall (header : SnailHeader) (nonce : Z),
    Forall (fun s => Block.IsFruit s = true)
      (map snd (search m fuel block hash target fruitTarget header nonce)) \/
    exists found b,
      map snd (search m fuel block hash target fruitTarget header nonce) = found ++ [b] /\
      Forall (fun s => Block.IsFruit s = true) found /\
      Block.IsFruit b = false.
Proof.
  induction fuel as [|fuel IH]; intros header nonce; [left; constructor|].
  simpl search.
  destruct (truehashFull m hash nonce) as [digest result].
  destruct (SetBytes (firstn 16 result) <=? target).
  - destruct (fruits block); [|apply IH].
    right. exists [], (Block.WithSeal block (sealHeader header nonce digest false)).
    repeat split. constructor.
  - destruct (negb _); [|apply IH].
    destruct (SetBytes (skipn 16 result) <=? fruitTarget); [|apply IH].
    destruct (IH (sealHeader header nonce digest true) (wrap64 (nonce + 1)))
      as [H|(found & b & Heq & Hf & Hb)].
    + left. simpl. by constructor.
    + right. exists (Block.WithSeal block (sealHeader header nonce digest true) :: found), b.
      simpl map. rewrite Heq. repeat split; [|exact Hb].
      by constructor.
Qed.

(** X27.  With one worker on a full template, [ConSeal] forwards every seal
    the worker offers, in order, when it is stopped after them: the fruits
    and, last, the block. Of the seals a worker offers on a template without
    fruits it forwards the first only. *)
Theorem mineloop_single_worker (fuel : nat) (block : SnailBlock) (seed : Z)
    (seals : list (Z * SnailBlock)) :
  mineSnail m fuel block seed = Ok seals ->
  (fruits block <> None ->
   mineloop block (map SealFound (map snd seals) ++ [SealStop]) = map snd seals) /\
  (fruits block = None ->
   mineloop block (map SealFound (map snd seals) ++ [SealStop])
     = firstn 1 (map snd seals)).
Proof.
  unfold mineSnail, bind.
  destruct (bigDiv maxUint128 _) as [target|]; [|discriminate].
  destruct (bigDiv maxUint128 _) as [fruitTarget|]; [|discriminate].
  intros [= <-]. split.
  - intros Hf.
    destruct (search_fruits_then_block fuel block
                (HashBytes (HashNoNonce m (Block.Header block))) target fruitTarget
                (Block.Header block) seed) as [Hall|(found & b & Heq & Hall & Hb)].
    + rewrite (mineloop_fruits block _ [SealStop] Hf Hall). simpl. apply app_nil_r.
    + simpl in Heq. rewrite Heq, map_app, <- app_assoc.
      rewrite (mineloop_fruits block found _ Hf Hall).
      f_equal. simpl. destruct (fruits block); [|done]. by rewrite Hb.
  - intros Hf.
    destruct (map snd (search m fuel block _ target fruitTarget _ seed)) as [|s rest];
      simpl; [reflexivity|]. by rewrite Hf.
Qed.

(** X28.  The nonces of the seals a worker offers are nonces it tried, in
    the order it tried them: [seed], [seed + 1], ... as [uint64]s. *)
Theorem mineSnail_nonces_in_order (fuel : nat) (block : SnailBlock) (seed : Z)
    (seals : list (Z * SnailBlock)) :
  0 <= seed < 2 ^ 64 ->
  mineSnail m fuel block seed = Ok seals ->
  sublist (map fst seals)
    (map (fun i => wrap64 (seed + Z.of_nat i)) (seq 0 fuel)) /\
  (length seals <= fuel)%nat.
Proof.
  intros Hseed. unfold mineSnail, bind.
  destruct (bigDiv maxUint128 _) as [target|]; [|discriminate].
  destruct (bigDiv maxUint128 _) as [fruitTarget|]; [|discriminate].
  intros [= <-].
  set (hash := HashBytes (HashNoNonce m (Block.Header block))).
  assert (Hsub : forall fuel header nonce,
            0 <= nonce < 2 ^ 64 ->
            sublist (map fst (search m fuel block hash target fruitTarget header nonce))
              (map (fun i => wrap64 (nonce + Z.of_nat i)) (seq 0 fuel))).
  { clear. induction fuel as [|fuel IH]; intros header nonce Hn; [constructor|].
    assert (Hshift : map (fun i => wrap64 (nonce + Z.of_nat i)) (seq 0 (S fuel))
                     = nonce :: map (fun i => wrap64 (wrap64 (nonce + 1) + Z.of_nat i))
                                  (seq 0 fuel)).
    { simpl. f_equal.
      - unfold wrap64. rewrite Z.add_0_r. apply Z.mod_small. exact Hn.
      - rewrite <- seq_shift, map_map. apply map_ext. intros i. unfold wrap64.
        rewrite Zplus_mod_idemp_l. f_equal. lia. }
    rewrite Hshift.
    assert (Hn' : 0 <= wrap64 (nonce + 1) < 2 ^ 64)
      by (unfold wrap64; apply Z.mod_pos_bound; lia).
    simpl search. destruct (truehashFull m hash nonce) as [digest result].
    destruct (SetBytes (firstn 16 result) <=? target).
    - destruct (fruits block); [|apply sublist_cons; by apply IH].
      simpl. apply sublist_skip. apply sublist_nil_l.
    - destruct (negb _); [|apply sublist_cons; by apply IH].
      destruct (SetBytes (skipn 16 result) <=? fruitTarget);
        [|apply sublist_cons; by apply IH].
      simpl. apply sublist_skip. by apply IH. }
  split; [by apply Hsub|].
  pose proof (sublist_length _ _ (Hsub fuel (Block.Header block) seed Hseed)) as Hlen.
  by rewrite !length_map, length_seq in Hlen.
Qed.

End SealerEntryPoints.

Lemma mineloop_single_worker_witness :
  exists seals,
    minerva.mineSnail examples.highOnes 3 examples.fullTemplate 0 = Ok seals /\
    length seals = 3%nat /\
    minerva.mineloop examples.fullTemplate
      (map minerva.SealFound (map snd seals) ++ [minerva.SealStop]) = map snd seals.
Proof.
  destruct (minerva.mineSnail examples.highOnes 3 examples.fullTemplate 0)
    as [seals|] eqn:H; [|exfalso; vm_compute in H; discriminate].
  exists seals. split; [reflexivity|]. split.
  - vm_compute in H. injection H as <-. reflexivity.
  - apply (proj1 (mineloop_single_worker _ _ _ _ _ H)). discriminate.
Defined.

Lemma mineSnail_nonces_in_order_witness :
  exists seals,
    0 <= 7 < 2 ^ 64 /\
    minerva.mineSnail examples.highOnes 3 examples.fruitTemplate 7 = Ok seals /\
    sublist (map fst seals) (map (fun i => wrap64 (7 + Z.of_nat i)) (seq 0 3)) /\
    (length seals <= 3)%nat.
Proof.
  destruct (minerva.mineSnail examples.highOnes 3 examples.fruitTemplate 7)
    as [seals|] eqn:H; [|exfalso; vm_compute in H; discriminate].
  assert (Hseed : 0 <= 7 < 2 ^ 64) by (split; [lia|reflexivity]).
  exists seals. split; [exact Hseed|]. split; [reflexivity|].
  exact (mineSnail_nonces_in_order _ _ _ _ _ Hseed H).
Defined.

(** ** Chain configuration *)

Section ConfigForks.

Import params.

(** X29.  The fork predicates. Two fork blocks are equal when both are nil
    or both are the same number; a fork is active when neither it nor the
    head is nil and it is not beyond the head, and it stays active as the
    head grows; rescheduling is incompatible when the two blocks differ and
    one of them is active, whichever of the two is the stored one. *)
Theorem fork_predicates (s1 s2 head : option Z) :
  (configNumEqual s1 s2 = true <-> s1 = s2) /\
  (isForked s1 head = true <->
     exists s h, s1 = Some s /\ head = Some h /\ s <= h) /\
  (forall h h', head = Some h -> h <= h' -> isForked s1 head = true ->
                isForked s1 (Some h') = true) /\
  (isForkIncompatible s1 s2 head = true <->
     s1 <> s2 /\ (isForked s1 head = true \/ isForked s2 head = true)) /\
  isForkIncompatible s1 s2 head = isForkIncompatible s2 s1 head /\
  isForkIncompatible s1 s1 head = false.
Proof.
  assert (Heq : forall x y, configNumEqual x y = true <-> x = y).
  { intros [x|] [y|]; simpl; split; try done.
    - intros H. apply Z.eqb_eq in H. by subst.
    - intros [= ->]. apply Z.eqb_refl. }
  assert (Hsym : forall x y, configNumEqual x y = configNumEqual y x).
  { intros [x|] [y|]; simpl; try done. apply Z.eqb_sym. }
  split; [apply Heq|]. split; [|split; [|split; [|split]]].
  - destruct s1 as [s|], head as [h|]; simpl; split;
      try discriminate; try (by intros (? & ? & ? & ? & ?)).
    + intros H. apply Z.leb_le in H. by exists s, h.
    + intros (s' & h' & [= <-] & [= <-] & H). by apply Z.leb_le.
  - intros h h' -> Hle. destruct s1 as [s|]; simpl; [|done].
    intros H. apply Z.leb_le in H. apply Z.leb_le. lia.
  - unfold isForkIncompatible. rewrite andb_true_iff, orb_true_iff, negb_true_iff.
    split; intros [H1 H2]; (split; [|try assumption]).
    + intros Hs. apply Heq in Hs. congruence.
    + assumption.
    + destruct (configNumEqual s1 s2) eqn:Hc; [|reflexivity].
      apply Heq in Hc. contradiction.
  - unfold isForkIncompatible. by rewrite orb_comm, Hsym.
  - unfold isForkIncompatible. rewrite (proj2 (Heq s1 s1) eq_refl).
    apply andb_false_r.
Qed.

(** X30.  The rewind target of a compatibility error lies before every
    positive block of the two configurations, when these fit a [uint64]; it
    is zero when there is no block to rewind to or the lower one is not
    positive. *)
Theorem newCompatError_rewinds_before (what : list byte) (storedblock newblock : option Z) :
  (forall b, storedblock = Some b \/ newblock = Some b -> b < 2 ^ 64) ->
  let err := newCompatError what storedblock newblock in
  StoredConfig err = storedblock /\ NewConfig err = newblock /\
  0 <= RewindTo err /\
  (forall b, storedblock = Some b \/ newblock = Some b -> 0 < b -> RewindTo err < b) /\
  (storedblock = None -> newblock = None -> RewindTo err = 0).
Proof.
  intros Hfit. unfold newCompatError. simpl.
  split; [reflexivity|]. split; [reflexivity|].
  assert (Hrew : forall r, 0 < r < 2 ^ 64 -> wrap64 (Uint64 r - 1) = r - 1).
  { intros r Hr. unfold wrap64, Uint64. rewrite Z.abs_eq by lia.
    rewrite (Z.mod_small r) by lia. apply Z.mod_small. lia. }
  destruct storedblock as [s|], newblock as [n|];
    try (pose proof (Hfit s (or_introl eq_refl)));
    try (pose proof (Hfit n (or_intror eq_refl)));
    repeat case_match;
    repeat match goal with
           | H : (_ <? _) = true |- _ => apply Z.ltb_lt in H
           | H : (_ <? _) = false |- _ => apply Z.ltb_ge in H
           end;
    simplify_eq;
    try rewrite Hrew by lia;
    repeat split; try lia; try discriminate;
    try (intros b [Hb|Hb]; simplify_eq; lia).
Qed.

End ConfigForks.

Lemma newCompatError_rewinds_before_witness :
  (forall b, Some 100 = Some b \/ Some 40 = Some b -> b < 2 ^ 64) /\
  params.RewindTo (params.newCompatError [] (Some 100) (Some 40)) = 39 /\
  params.RewindTo (params.newCompatError [] (Some 100) (Some 40)) < 40.
Proof.
  assert (Hfit : forall b, Some 100 = Some b \/ Some 40 = Some b -> b < 2 ^ 64).
  { intros b [[= <-]|[= <-]]; reflexivity. }
  split; [exact Hfit|]. split; [reflexivity|].
  destruct (newCompatError_rewinds_before [] (Some 100) (Some 40) Hfit)
    as (_ & _ & _ & Hlt & _).
  apply Hlt; [by right|lia].
Defined.

(** ** The fruit pool: the event loop *)

Section PoolLoop.

Import core.


End PoolLoop.

